(** * Parallel Research Kernels, C++11 SYCL ports: triad and stencil

    A shallow embedding of

    - [src/Cxx11/nstream-dpct.cc]   (STREAM triad, kernels [nstream] and
      [nstream2], and the driver [main]);
    - [src/Cxx11/stencil_vector.hpp] (the generated stencil kernels
      [star1] .. [star5] and [grid1] .. [grid5]);
    - [src/Cxx11/stencil-dpcpp.cc]  (the stencil driver [main] and the
      fallback kernel [nothing]).

    Conventions of the embedding.

    - A C++ [double] is an element of a type [F] with the operations of the
      class [Double].  Every kernel and driver is written once, over any
      such [F].  Two instances are provided: [exact] (the rationals [Qc],
      arithmetic without rounding) and [binary64] (Rocq's primitive IEEE 754
      binary64 numbers, round to nearest even, operations evaluated in
      source order, no contraction of multiply and add).
    - Arrays ([double *], [std::vector<double>]) are lists; an access
      outside the list is the result [OutOfBounds] (undefined behaviour in
      C++), never a silent default.
    - Integers are [Z]; unsigned 32 and 64 bit values carry their
      wrap-around explicitly ([to_unsigned], [to_size_t]).
    - Loops whose termination depends on the data run on [fuel]; running
      out of it is the result [OutOfFuel].
    - A SYCL [parallel_for] runs its work items one after the other in
      index order; the driver waits for every submission, so a launch is a
      function from device memory to device memory.  Copies between host
      and device keep the contents; the choice of the device and the lines
      [prk::SYCL::print_device_platform] prints are left out.
    - What prk_util.h provides ([PRKVERSION], [prk::parse_boolean],
      [prk::divceil], [prk::get_max_matrix_size], [prk::wtime]) is a
      parameter of the driver that uses it. *)

From Stdlib Require Import ZArith QArith Qabs Qcanon Floats Uint63.
From Stdlib Require Import Ascii String Lia.
From stdpp Require Import base option list strings numbers.

Local Open Scope Z_scope.

(** ** Double precision values *)

Class Double (F : Type) : Type := {
  dadd : F -> F -> F;          (* x + y *)
  dsub : F -> F -> F;          (* x - y *)
  dmul : F -> F -> F;          (* x * y *)
  ddiv : F -> F -> F;          (* x / y *)
  dabs : F -> F;               (* std::fabs, prk::abs *)
  dgt  : F -> F -> bool;       (* x > y *)
  dofZ : Z -> F;               (* conversion of an integer value *)
  dlit : Q -> F                (* a decimal literal of the source *)
}.

(** Exact arithmetic.  [ddiv] is [Qcdiv], which returns 0 on a zero
    divisor where C++ yields an infinity or a NaN; the theorems that go
    through a division establish that the divisor is not zero. *)
#[export] Instance exact : Double Qc := {|
  dadd := Qcplus;
  dsub := Qcminus;
  dmul := Qcmult;
  ddiv := Qcdiv;
  dabs := fun x => if bool_decide (x < 0)%Qc then Qcopp x else x;
  dgt  := fun x y => bool_decide (y < x)%Qc;
  dofZ := fun z => Q2Qc (inject_Z z);
  dlit := Q2Qc
|}.

Module Binary64.

(** Conversion of an integer to binary64, for magnitudes below 2^63
    (exact below 2^53, rounded to nearest above). *)
Definition of_Z (z : Z) : float :=
  match z with
  | Z0 => PrimFloat.zero
  | Zpos _ => PrimFloat.of_uint63 (Uint63.of_Z z)
  | Zneg p => PrimFloat.opp (PrimFloat.of_uint63 (Uint63.of_Z (Zpos p)))
  end.

(** A decimal literal [m / 10^k] is the correctly rounded quotient of
    two integers below 2^53, hence the binary64 value nearest to it. *)
Definition of_Q (q : Q) : float :=
  PrimFloat.div (of_Z (Qnum q)) (of_Z (Zpos (Qden q))).

End Binary64.

#[export] Instance binary64 : Double float := {|
  dadd := PrimFloat.add;
  dsub := PrimFloat.sub;
  dmul := PrimFloat.mul;
  ddiv := PrimFloat.div;
  dabs := PrimFloat.abs;
  dgt  := fun x y => PrimFloat.ltb y x;
  dofZ := Binary64.of_Z;
  dlit := Binary64.of_Q
|}.

(** ** Results of running code *)

Inductive result (A : Type) : Type :=
| Ok (a : A)
| OutOfFuel                       (* the loop budget of the model ran out *)
| OutOfBounds                     (* access outside an array *)
| Aborted (out : list string).    (* prk::Abort() after printing [out] *)

Arguments Ok {A} a.
Arguments OutOfFuel {A}.
Arguments OutOfBounds {A}.
Arguments Aborted {A} out.

#[export] Instance result_ret : MRet result := fun A a => Ok a.
#[export] Instance result_bind : MBind result := fun A B f m =>
  match m with
  | Ok a => f a
  | OutOfFuel => OutOfFuel
  | OutOfBounds => OutOfBounds
  | Aborted out => Aborted out
  end.

(** [for (i = i0; continue i; i = next i) s = body i s]. *)
Fixpoint for_loop {St : Type} (fuel : nat) (i : Z) (continue : Z -> bool)
    (next : Z -> Z) (body : Z -> St -> result St) (s : St) : result St :=
  match fuel with
  | O => OutOfFuel
  | S fuel' =>
      if continue i
      then s' ← body i s; for_loop fuel' (next i) continue next body s'
      else Ok s
  end.

(** Running a sequence of steps, each of which may fail. *)
Fixpoint foldM {St X : Type} (f : X -> St -> result St) (xs : list X) (s : St)
    : result St :=
  match xs with
  | [] => Ok s
  | x :: xs' => s' ← f x s; foldM f xs' s'
  end.

(** ** Arrays and machine integers *)

Definition to_unsigned (z : Z) : Z := z mod 2 ^ 32.   (* unsigned int *)
Definition to_size_t (z : Z) : Z := z mod 2 ^ 64.     (* size_t *)
Definition INT_MAX : Z := 2 ^ 31 - 1.

Section Arrays.
Context {F : Type}.

(** [a[k]] as an rvalue. *)
Definition rd (a : list F) (k : Z) : result F :=
  if k <? 0 then OutOfBounds
  else match a !! Z.to_nat k with
       | Some x => Ok x
       | None => OutOfBounds
       end.

(** [a[k] = f(a[k])]. *)
Definition upd (a : list F) (k : Z) (f : F -> F) : result (list F) :=
  x ← rd a k; Ok (<[Z.to_nat k := f x]> a).

End Arrays.

(** ** Command line *)

(** [argv[k]] for [argv] of [argc] strings: a string below [argc], the
    terminating null pointer at [argc], nothing beyond. *)
Inductive arg : Type :=
| ArgString (s : string)
| ArgNull
| ArgPastEnd.

Definition argv_at (argv : list string) (k : nat) : arg :=
  match argv !! k with
  | Some s => ArgString s
  | None => if (k =? length argv)%nat then ArgNull else ArgPastEnd
  end.

Definition argc (argv : list string) : Z := Z.of_nat (length argv).

(** [std::atoi]: optional white space, an optional sign, then decimal
    digits up to the first other character; 0 when there is no digit.
    (The C function is undefined when the value does not fit an [int];
    the model returns the value itself, and the theorems that depend on
    the value read assume that it fits an [int].) *)
Definition is_space (c : ascii) : bool :=
  let n := nat_of_ascii c in
  (n =? 32)%nat || ((9 <=? n)%nat && (n <=? 13)%nat).

Definition digit_of (c : ascii) : option Z :=
  let n := Z.of_nat (nat_of_ascii c) in
  if (48 <=? n) && (n <=? 57) then Some (n - 48) else None.

Fixpoint atoi_digits (acc : Z) (s : string) : Z :=
  match s with
  | String c s' =>
      match digit_of c with
      | Some d => atoi_digits (10 * acc + d) s'
      | None => acc
      end
  | EmptyString => acc
  end.

Fixpoint atoi (s : string) : Z :=
  match s with
  | String c s' =>
      if is_space c then atoi s'
      else if Ascii.eqb c "-" then - atoi_digits 0 s'
      else if Ascii.eqb c "+" then atoi_digits 0 s'
      else atoi_digits 0 s
  | EmptyString => 0
  end.

(** What reading the command line yields: a usage error (the message
    thrown in the [try] block, printed before [return 1]), the values
    read, or undefined behaviour on [argv]. *)
Inductive parsed (C : Type) : Type :=
| Usage (msg : string)
| Parsed (c : C)
| NullString                      (* a string function applied to argv[argc] *)
| ReadPastEnd.                    (* argv[k] with k > argc *)

Arguments Usage {C} msg.
Arguments Parsed {C} c.
Arguments NullString {C}.
Arguments ReadPastEnd {C}.

#[export] Instance parsed_bind : MBind parsed := fun A B f m =>
  match m with
  | Parsed a => f a
  | Usage msg => Usage msg
  | NullString => NullString
  | ReadPastEnd => ReadPastEnd
  end.

(** [argv[k]] handed to [std::atoi] or [std::string]. *)
Definition arg_string (argv : list string) (k : nat) : parsed string :=
  match argv_at argv k with
  | ArgString s => Parsed s
  | ArgNull => NullString
  | ArgPastEnd => ReadPastEnd
  end.

(** ** Shared outcome of a driver *)

Inductive fault : Type :=
| FuelExhausted                   (* the model's loop budget ran out *)
| ArrayOutOfBounds                (* undefined behaviour: array access *)
| AbortCalled (out : list string) (* prk::Abort() *)
| StringFromNull                  (* undefined behaviour: std::string(nullptr) *)
| ArgvPastEnd.                    (* undefined behaviour: argv[k], k > argc *)

Inductive status : Type :=
| Exit (code : Z)
| Fatal (why : fault).

Inductive line {F : Type} : Type :=
| Text (s : string)
| Echo (label : string) (z : Z)
| Value (label : string) (v : F)
| Norms (norm reference_norm : F)     (* "ERROR: L1 norm = .. Reference .." *)
| Dump (h_in h_out : list F).         (* the cells written to std::cerr *)
Arguments line F : clear implicits.

(** How a driver ends: with the report and the value [main] returns, or
    at the point where the computation stopped. *)
Definition finish {F : Type} (echo : list (line F))
    (r : result (list (line F) * Z)) : list (line F) * status :=
  match r with
  | Ok (report, code) => (echo ++ report, Exit code)
  | OutOfFuel => (echo, Fatal FuelExhausted)
  | OutOfBounds => (echo, Fatal ArrayOutOfBounds)
  | Aborted out => (echo ++ (Text <$> out), Fatal (AbortCalled out))
  end.

(** ** nstream-dpct.cc: the triad benchmark *)

Module Triad.

(** The third dimension of a [sycl::nd_item<3>], the only one the
    kernels read: [get_group(2)], [get_local_id(2)],
    [get_local_range().get(2)] and [get_group_range(2)]. *)
Record nd_item : Type := {
  get_group : Z;
  get_local_id : Z;
  get_local_range : Z;
  get_group_range : Z
}.

(** Work items of [nd_range(global, local)] along that dimension. *)
Definition work_items (global local : Z) : list nd_item :=
  g ← seqZ 0 (global / local);
  l ← seqZ 0 local;
  [ {| get_group := g; get_local_id := l;
       get_local_range := local; get_group_range := global / local |} ].

Record config : Type := {
  iterations : Z;
  length : Z;
  grid_stride : bool
}.

Inductive op : Type :=
| SubmitNstream
| SubmitNstream2.

Section Program.
Context {F : Type} {D : Double F}.

(** The macro [PRKVERSION], [prk::parse_boolean] and [prk::divceil]
    (all of prk_util.h, which is not among the sources) and the wall
    clock [prk::wtime], read after the given device submissions have
    completed. *)
Variable PRKVERSION : string.
Variable parse_boolean : string -> bool.
Variable divceil : Z -> Z -> Z.
Variable wtime : list op -> F.

(** [A[i] += B[i] + scalar * C[i]] *)
Definition triad (scalar : F) (A B C : list F) (i : Z)
    : result (list F) :=
  b ← rd B i; c ← rd C i;
  upd A i (fun a => dadd a (dadd b (dmul scalar c))).

Definition nstream (n : Z) (scalar : F) (A B C : list F)
    (item_ct1 : nd_item) : result (list F) :=
  let i := to_size_t (get_group item_ct1 * get_local_range item_ct1
                      + get_local_id item_ct1) in
  if i <? n then triad scalar A B C i else Ok A.

Definition nstream2 (fuel : nat) (n : Z) (scalar : F) (A B C : list F)
    (item_ct1 : nd_item) : result (list F) :=
  for_loop fuel
    (to_unsigned (get_group item_ct1 * get_local_range item_ct1
                  + get_local_id item_ct1))
    (fun i => i <? n)
    (fun i => to_unsigned
                (i + get_local_range item_ct1 * get_group_range item_ct1))
    (fun i A => triad scalar A B C i)
    A.

(** [cgh.parallel_for(nd_range(global, local), kernel)] followed by
    [queues_wait_and_throw]. *)
Definition parallel_for (global local : Z)
    (kernel : list F -> nd_item -> result (list F)) (A : list F)
    : result (list F) :=
  foldM (fun item A => kernel A item) (work_items global local) A.

(** The [try] block of [main]. *)
Definition parse_args (argv : list string) : parsed config :=
  if argc argv <? 3
  then Usage "Usage: <# iterations> <vector length> [<grid_stride>]"
  else
    a1 ← arg_string argv 1;
    let iterations := atoi a1 in
    if iterations <? 1 then Usage "ERROR: iterations must be >= 1"
    else
      a2 ← arg_string argv 2;
      let length := atoi a2 in
      if length <=? 0 then Usage "ERROR: vector length must be positive"
      else
        grid_stride ←
          (if argc argv >? 3
           then a4 ← arg_string argv 4; Parsed (parse_boolean a4)
           else Parsed false);
        Parsed {| iterations := iterations; length := length;
                  grid_stride := grid_stride |}.

Definition blockSize : Z := 256.
Definition scalar : F := dofZ 3.

Record device : Type := {
  d_A : list F;
  nstream_time : F;
  submitted : list op
}.

(** One body of the timed loop. *)
Definition loop_body (fuel : nat) (c : config) (d_B d_C : list F)
    (iter : Z) (st : device) : result device :=
  let t := if iter =? 1 then wtime (submitted st) else nstream_time st in
  let global := divceil (length c) blockSize * blockSize in
  if grid_stride c then
    A ← parallel_for global blockSize
           (fun A item =>
              nstream2 fuel (to_unsigned (length c)) scalar A d_B d_C item)
           (d_A st);
    Ok {| d_A := A; nstream_time := t;
          submitted := submitted st ++ [SubmitNstream2] |}
  else
    A ← parallel_for global blockSize
           (fun A item =>
              nstream (to_unsigned (length c)) scalar A d_B d_C item)
           (d_A st);
    Ok {| d_A := A; nstream_time := t;
          submitted := submitted st ++ [SubmitNstream] |}.

(** Allocation and initialisation, the loop
    [for (int iter = 0; iter<=iterations; iter++)], and the final
    reading of the clock.  The counter is an integer without bound here:
    this is the loop of the source for [iterations < INT_MAX]; at
    [INT_MAX] the [int] counter of the source overflows, and the theorems
    about a run that completes its loop assume [iterations < INT_MAX]. *)
Definition run_kernels (fuel : nat) (c : config) : result device :=
  let h_A := replicate (Z.to_nat (length c)) (dofZ 0) in
  let h_B := replicate (Z.to_nat (length c)) (dofZ 2) in
  let h_C := replicate (Z.to_nat (length c)) (dofZ 2) in
  st ← for_loop fuel 0 (fun iter => iter <=? iterations c)
         (fun iter => iter + 1) (loop_body fuel c h_B h_C)
         {| d_A := h_A; nstream_time := dofZ 0; submitted := [] |};
  Ok {| d_A := d_A st;
        nstream_time := dsub (wtime (submitted st)) (nstream_time st);
        submitted := submitted st |}.

(** [ar]: the expected checksum. *)
Definition expected_checksum (fuel : nat) (c : config) : result F :=
  let br := dofZ 2 in
  let cr := dofZ 2 in
  ar ← for_loop fuel 0 (fun i => i <=? iterations c) (fun i => i + 1)
         (fun _ ar => Ok (dadd ar (dadd br (dmul scalar cr)))) (dofZ 0);
  Ok (dmul ar (dofZ (length c))).

(** [asum]: the observed checksum of the array read back. *)
Definition observed_checksum (fuel : nat) (c : config) (h_A : list F)
    : result F :=
  for_loop fuel 0 (fun i => i <? length c) (fun i => i + 1)
    (fun i asum => a ← rd h_A i; Ok (dadd asum (dabs a))) (dofZ 0).

Definition epsilon : F := dlit 1e-8%Q.

(** The comparison and the two reports. *)
Definition validate (c : config) (ar asum time : F)
    : list (line F) * Z :=
  if dgt (ddiv (dabs (dsub ar asum)) asum) epsilon then
    ([ Text "Failed Validation on output array";
       Value "       Expected checksum: " ar;
       Value "       Observed checksum: " asum;
       Text "ERROR: solution did not validate" ], 1)
  else
    let avgtime := ddiv time (dofZ (iterations c)) in
    let nbytes := dmul (dmul (dlit 4.0%Q) (dofZ (length c))) (dofZ 8) in
    ([ Text "Solution validates";
       Value "Rate (MB/s): " (ddiv (dmul (dlit 1e-6%Q) nbytes) avgtime);
       Value " Avg time (s): " avgtime ], 0).

(** [main] from the point where the arguments are known. *)
Definition run (fuel : nat) (c : config) : list (line F) * status :=
  let echo :=
    [ Echo "Number of iterations = " (iterations c);
      Echo "Vector length        = " (length c);
      Text ("Grid stride          = "
              +:+ (if grid_stride c then "yes" else "no")) ] in
  finish echo
    (st ← run_kernels fuel c;
     ar ← expected_checksum fuel c;
     asum ← observed_checksum fuel c (d_A st);
     Ok (validate c ar asum (nstream_time st))).

Definition banner : list (line F) :=
  [ Text ("Parallel Research Kernels version " +:+ PRKVERSION);
    Text "C++11/DPCT STREAM triad: A = B + scalar * C" ].

Definition main (fuel : nat) (argv : list string)
    : list (line F) * status :=
  match parse_args argv with
  | Usage msg => (banner ++ [Text msg], Exit 1)
  | Parsed c => let '(out, st) := run fuel c in (banner ++ out, st)
  | NullString => (banner, Fatal StringFromNull)
  | ReadPastEnd => (banner, Fatal ArgvPastEnd)
  end.

End Program.

End Triad.

(** ** stencil_vector.hpp: the generated stencil kernels *)

Module Stencil.

(** One product [+in[(i+di)*n+(j+dj)] * coef] of a kernel's sum. *)
Record term : Type := W { di : Z; dj : Z; coef : Q }.
Arguments W _%_Z _%_Z _%_Q.

(** The sums of the ten kernels, product by product in source order. *)
Definition star1_terms : list term :=
  [ W 0 (-1) (-0.5); W (-1) 0 (-0.5); W 1 0 0.5; W 0 1 0.5 ].

Definition star2_terms : list term :=
  [ W 0 (-2) (-0.125); W 0 (-1) (-0.25); W (-2) 0 (-0.125); W (-1) 0 (-0.25);
    W 1 0 0.25; W 2 0 0.125; W 0 1 0.25; W 0 2 0.125 ].

Definition star3_terms : list term :=
  [ W 0 (-3) (-0.0555555555556); W 0 (-2) (-0.0833333333333);
    W 0 (-1) (-0.166666666667); W (-3) 0 (-0.0555555555556);
    W (-2) 0 (-0.0833333333333); W (-1) 0 (-0.166666666667);
    W 1 0 0.166666666667; W 2 0 0.0833333333333; W 3 0 0.0555555555556;
    W 0 1 0.166666666667; W 0 2 0.0833333333333; W 0 3 0.0555555555556 ].

Definition star4_terms : list term :=
  [ W 0 (-4) (-0.03125); W 0 (-3) (-0.0416666666667); W 0 (-2) (-0.0625);
    W 0 (-1) (-0.125); W (-4) 0 (-0.03125); W (-3) 0 (-0.0416666666667);
    W (-2) 0 (-0.0625); W (-1) 0 (-0.125); W 1 0 0.125; W 2 0 0.0625;
    W 3 0 0.0416666666667; W 4 0 0.03125; W 0 1 0.125; W 0 2 0.0625;
    W 0 3 0.0416666666667; W 0 4 0.03125 ].

Definition star5_terms : list term :=
  [ W 0 (-5) (-0.02); W 0 (-4) (-0.025); W 0 (-3) (-0.0333333333333);
    W 0 (-2) (-0.05); W 0 (-1) (-0.1); W (-5) 0 (-0.02); W (-4) 0 (-0.025);
    W (-3) 0 (-0.0333333333333); W (-2) 0 (-0.05); W (-1) 0 (-0.1); W 1 0 0.1;
    W 2 0 0.05; W 3 0 0.0333333333333; W 4 0 0.025; W 5 0 0.02; W 0 1 0.1;
    W 0 2 0.05; W 0 3 0.0333333333333; W 0 4 0.025; W 0 5 0.02 ].

Definition grid1_terms : list term :=
  [ W (-1) (-1) (-0.25); W 0 (-1) (-0.25); W (-1) 0 (-0.25); W 1 0 0.25;
    W 0 1 0.25; W 1 1 0.25 ].

Definition grid2_terms : list term :=
  [ W (-2) (-2) (-0.0625); W (-1) (-2) (-0.0208333333333);
    W 0 (-2) (-0.0208333333333); W 1 (-2) (-0.0208333333333);
    W (-2) (-1) (-0.0208333333333); W (-1) (-1) (-0.125); W 0 (-1) (-0.125);
    W 2 (-1) 0.0208333333333; W (-2) 0 (-0.0208333333333); W (-1) 0 (-0.125);
    W 1 0 0.125; W 2 0 0.0208333333333; W (-2) 1 (-0.0208333333333);
    W 0 1 0.125; W 1 1 0.125; W 2 1 0.0208333333333; W (-1) 2 0.0208333333333;
    W 0 2 0.0208333333333; W 1 2 0.0208333333333; W 2 2 0.0625 ].

Definition grid3_terms : list term :=
  [ W (-3) (-3) (-0.0277777777778); W (-2) (-3) (-0.00555555555556);
    W (-1) (-3) (-0.00555555555556); W 0 (-3) (-0.00555555555556);
    W 1 (-3) (-0.00555555555556); W 2 (-3) (-0.00555555555556);
    W (-3) (-2) (-0.00555555555556); W (-2) (-2) (-0.0416666666667);
    W (-1) (-2) (-0.0138888888889); W 0 (-2) (-0.0138888888889);
    W 1 (-2) (-0.0138888888889); W 3 (-2) 0.00555555555556;
    W (-3) (-1) (-0.00555555555556); W (-2) (-1) (-0.0138888888889);
    W (-1) (-1) (-0.0833333333333); W 0 (-1) (-0.0833333333333);
    W 2 (-1) 0.0138888888889; W 3 (-1) 0.00555555555556;
    W (-3) 0 (-0.00555555555556); W (-2) 0 (-0.0138888888889);
    W (-1) 0 (-0.0833333333333); W 1 0 0.0833333333333; W 2 0 0.0138888888889;
    W 3 0 0.00555555555556; W (-3) 1 (-0.00555555555556);
    W (-2) 1 (-0.0138888888889); W 0 1 0.0833333333333; W 1 1 0.0833333333333;
    W 2 1 0.0138888888889; W 3 1 0.00555555555556;
    W (-3) 2 (-0.00555555555556); W (-1) 2 0.0138888888889;
    W 0 2 0.0138888888889; W 1 2 0.0138888888889; W 2 2 0.0416666666667;
    W 3 2 0.00555555555556; W (-2) 3 0.00555555555556;
    W (-1) 3 0.00555555555556; W 0 3 0.00555555555556; W 1 3 0.00555555555556;
    W 2 3 0.00555555555556; W 3 3 0.0277777777778 ].

Definition grid4_terms : list term :=
  [ W (-4) (-4) (-0.015625); W (-3) (-4) (-0.00223214285714);
    W (-2) (-4) (-0.00223214285714); W (-1) (-4) (-0.00223214285714);
    W 0 (-4) (-0.00223214285714); W 1 (-4) (-0.00223214285714);
    W 2 (-4) (-0.00223214285714); W 3 (-4) (-0.00223214285714);
    W (-4) (-3) (-0.00223214285714); W (-3) (-3) (-0.0208333333333);
    W (-2) (-3) (-0.00416666666667); W (-1) (-3) (-0.00416666666667);
    W 0 (-3) (-0.00416666666667); W 1 (-3) (-0.00416666666667);
    W 2 (-3) (-0.00416666666667); W 4 (-3) 0.00223214285714;
    W (-4) (-2) (-0.00223214285714); W (-3) (-2) (-0.00416666666667);
    W (-2) (-2) (-0.03125); W (-1) (-2) (-0.0104166666667);
    W 0 (-2) (-0.0104166666667); W 1 (-2) (-0.0104166666667);
    W 3 (-2) 0.00416666666667; W 4 (-2) 0.00223214285714;
    W (-4) (-1) (-0.00223214285714); W (-3) (-1) (-0.00416666666667);
    W (-2) (-1) (-0.0104166666667); W (-1) (-1) (-0.0625); W 0 (-1) (-0.0625);
    W 2 (-1) 0.0104166666667; W 3 (-1) 0.00416666666667;
    W 4 (-1) 0.00223214285714; W (-4) 0 (-0.00223214285714);
    W (-3) 0 (-0.00416666666667); W (-2) 0 (-0.0104166666667);
    W (-1) 0 (-0.0625); W 1 0 0.0625; W 2 0 0.0104166666667;
    W 3 0 0.00416666666667; W 4 0 0.00223214285714;
    W (-4) 1 (-0.00223214285714); W (-3) 1 (-0.00416666666667);
    W (-2) 1 (-0.0104166666667); W 0 1 0.0625; W 1 1 0.0625;
    W 2 1 0.0104166666667; W 3 1 0.00416666666667; W 4 1 0.00223214285714;
    W (-4) 2 (-0.00223214285714); W (-3) 2 (-0.00416666666667);
    W (-1) 2 0.0104166666667; W 0 2 0.0104166666667; W 1 2 0.0104166666667;
    W 2 2 0.03125; W 3 2 0.00416666666667; W 4 2 0.00223214285714;
    W (-4) 3 (-0.00223214285714); W (-2) 3 0.00416666666667;
    W (-1) 3 0.00416666666667; W 0 3 0.00416666666667; W 1 3 0.00416666666667;
    W 2 3 0.00416666666667; W 3 3 0.0208333333333; W 4 3 0.00223214285714;
    W (-3) 4 0.00223214285714; W (-2) 4 0.00223214285714;
    W (-1) 4 0.00223214285714; W 0 4 0.00223214285714; W 1 4 0.00223214285714;
    W 2 4 0.00223214285714; W 3 4 0.00223214285714; W 4 4 0.015625 ].

Definition grid5_terms : list term :=
  [ W (-5) (-5) (-0.01); W (-4) (-5) (-0.00111111111111);
    W (-3) (-5) (-0.00111111111111); W (-2) (-5) (-0.00111111111111);
    W (-1) (-5) (-0.00111111111111); W 0 (-5) (-0.00111111111111);
    W 1 (-5) (-0.00111111111111); W 2 (-5) (-0.00111111111111);
    W 3 (-5) (-0.00111111111111); W 4 (-5) (-0.00111111111111);
    W (-5) (-4) (-0.00111111111111); W (-4) (-4) (-0.0125);
    W (-3) (-4) (-0.00178571428571); W (-2) (-4) (-0.00178571428571);
    W (-1) (-4) (-0.00178571428571); W 0 (-4) (-0.00178571428571);
    W 1 (-4) (-0.00178571428571); W 2 (-4) (-0.00178571428571);
    W 3 (-4) (-0.00178571428571); W 5 (-4) 0.00111111111111;
    W (-5) (-3) (-0.00111111111111); W (-4) (-3) (-0.00178571428571);
    W (-3) (-3) (-0.0166666666667); W (-2) (-3) (-0.00333333333333);
    W (-1) (-3) (-0.00333333333333); W 0 (-3) (-0.00333333333333);
    W 1 (-3) (-0.00333333333333); W 2 (-3) (-0.00333333333333);
    W 4 (-3) 0.00178571428571; W 5 (-3) 0.00111111111111;
    W (-5) (-2) (-0.00111111111111); W (-4) (-2) (-0.00178571428571);
    W (-3) (-2) (-0.00333333333333); W (-2) (-2) (-0.025);
    W (-1) (-2) (-0.00833333333333); W 0 (-2) (-0.00833333333333);
    W 1 (-2) (-0.00833333333333); W 3 (-2) 0.00333333333333;
    W 4 (-2) 0.00178571428571; W 5 (-2) 0.00111111111111;
    W (-5) (-1) (-0.00111111111111); W (-4) (-1) (-0.00178571428571);
    W (-3) (-1) (-0.00333333333333); W (-2) (-1) (-0.00833333333333);
    W (-1) (-1) (-0.05); W 0 (-1) (-0.05); W 2 (-1) 0.00833333333333;
    W 3 (-1) 0.00333333333333; W 4 (-1) 0.00178571428571;
    W 5 (-1) 0.00111111111111; W (-5) 0 (-0.00111111111111);
    W (-4) 0 (-0.00178571428571); W (-3) 0 (-0.00333333333333);
    W (-2) 0 (-0.00833333333333); W (-1) 0 (-0.05); W 1 0 0.05;
    W 2 0 0.00833333333333; W 3 0 0.00333333333333; W 4 0 0.00178571428571;
    W 5 0 0.00111111111111; W (-5) 1 (-0.00111111111111);
    W (-4) 1 (-0.00178571428571); W (-3) 1 (-0.00333333333333);
    W (-2) 1 (-0.00833333333333); W 0 1 0.05; W 1 1 0.05;
    W 2 1 0.00833333333333; W 3 1 0.00333333333333; W 4 1 0.00178571428571;
    W 5 1 0.00111111111111; W (-5) 2 (-0.00111111111111);
    W (-4) 2 (-0.00178571428571); W (-3) 2 (-0.00333333333333);
    W (-1) 2 0.00833333333333; W 0 2 0.00833333333333; W 1 2 0.00833333333333;
    W 2 2 0.025; W 3 2 0.00333333333333; W 4 2 0.00178571428571;
    W 5 2 0.00111111111111; W (-5) 3 (-0.00111111111111);
    W (-4) 3 (-0.00178571428571); W (-2) 3 0.00333333333333;
    W (-1) 3 0.00333333333333; W 0 3 0.00333333333333; W 1 3 0.00333333333333;
    W 2 3 0.00333333333333; W 3 3 0.0166666666667; W 4 3 0.00178571428571;
    W 5 3 0.00111111111111; W (-5) 4 (-0.00111111111111);
    W (-3) 4 0.00178571428571; W (-2) 4 0.00178571428571;
    W (-1) 4 0.00178571428571; W 0 4 0.00178571428571; W 1 4 0.00178571428571;
    W 2 4 0.00178571428571; W 3 4 0.00178571428571; W 4 4 0.0125;
    W 5 4 0.00111111111111; W (-4) 5 0.00111111111111;
    W (-3) 5 0.00111111111111; W (-2) 5 0.00111111111111;
    W (-1) 5 0.00111111111111; W 0 5 0.00111111111111; W 1 5 0.00111111111111;
    W 2 5 0.00111111111111; W 3 5 0.00111111111111; W 4 5 0.00111111111111;
    W 5 5 0.01 ].

Section Kernels.
Context {F : Type} {D : Double F}.

Definition product (n : Z) (inp : list F) (i j : Z) (w : term)
    : result F :=
  x ← rd inp ((i + di w) * n + (j + dj w));
  Ok (dmul x (dlit (coef w))).

(** [p1 + p2 + ... + pk], associated to the left. *)
Definition weighted_sum (ws : list term) (n : Z) (inp : list F)
    (i j : Z) : result F :=
  match ws with
  | [] => Ok (dofZ 0)
  | w :: ws' =>
      p ← product n inp i j w;
      foldM (fun w acc => p' ← product n inp i j w; Ok (dadd acc p'))
            ws' p
  end.

(** [out[i*n+j] += p1 + p2 + ... + pk] *)
Definition point (ws : list term) (n : Z) (inp : list F) (i j : Z)
    (out : list F) : result (list F) :=
  s ← weighted_sum ws n inp i j;
  upd out (i * n + j) (fun o => dadd o s).

(** The loop nest every kernel shares, for its radius [r]:
<<
for (auto it=r; it<n-r; it+=t)
  for (auto jt=r; jt<n-r; jt+=t)
    for (auto i=it; i<std::min(n-r,it+t); ++i)
      for (auto j=jt; j<std::min(n-r,jt+t); ++j)
>>
*)
Definition tiled (fuel : nat) (r n t : Z)
    (body : Z -> Z -> list F -> result (list F)) (out : list F)
    : result (list F) :=
  for_loop fuel r (fun it => it <? n - r) (fun it => it + t)
    (fun it =>
       for_loop fuel r (fun jt => jt <? n - r) (fun jt => jt + t)
         (fun jt =>
            for_loop fuel it (fun i => i <? Z.min (n - r) (it + t))
              (fun i => i + 1)
              (fun i =>
                 for_loop fuel jt (fun j => j <? Z.min (n - r) (jt + t))
                   (fun j => j + 1)
                   (fun j => body i j))))
    out.

Definition kernel : Type :=
  nat -> Z -> Z -> list F -> list F -> result (list F).

Definition stencil_of (r : Z) (ws : list term) : kernel :=
  fun fuel n t inp out => tiled fuel r n t (point ws n inp) out.

Definition star1 : kernel := stencil_of 1 star1_terms.
Definition star2 : kernel := stencil_of 2 star2_terms.
Definition star3 : kernel := stencil_of 3 star3_terms.
Definition star4 : kernel := stencil_of 4 star4_terms.
Definition star5 : kernel := stencil_of 5 star5_terms.
Definition grid1 : kernel := stencil_of 1 grid1_terms.
Definition grid2 : kernel := stencil_of 2 grid2_terms.
Definition grid3 : kernel := stencil_of 3 grid3_terms.
Definition grid4 : kernel := stencil_of 4 grid4_terms.
Definition grid5 : kernel := stencil_of 5 grid5_terms.

End Kernels.

(** ** stencil-dpcpp.cc: the stencil driver

    The driver calls [stencil(q, n, d_in, d_out)] on a kernel of
    stencil_sycl.hpp, which is not among the sources; the kernel of the
    same name in stencil_vector.hpp stands for it, run with the driver's
    tile size. *)

Record config : Type := {
  iterations : Z;
  n : Z;
  tile_size : Z;
  star : bool;
  radius : Z
}.

Inductive op : Type :=
| ApplyStencil
| AddConstant.

Section Driver.
Context {F : Type} {D : Double F}.

(** The macro [PRKVERSION] and [prk::get_max_matrix_size()]
    (prk_util.h, not among the sources), and the wall clock
    [prk::wtime], read after the given device submissions have
    completed. *)
Variable PRKVERSION : string.
Variable get_max_matrix_size : Z.
Variable wtime : list op -> F.

Definition nothing : kernel (F := F) :=
  fun _ _ _ _ _ =>
    Aborted [ "You are trying to use a stencil that does not exist.";
              "Please generate the new stencil using the code generator";
              "and add it to the case-switch in the driver." ].

(** The [try] block of [main]; [n], [tile_size] and [radius] are
    [size_t]. *)
Definition parse_args (argv : list string) : parsed config :=
  if argc argv <? 3
  then Usage "Usage: <# iterations> <array dimension> [<tile_size> <star/grid> <radius>]"
  else
    a1 ← arg_string argv 1;
    let iterations := atoi a1 in
    if iterations <? 1 then Usage "ERROR: iterations must be >= 1"
    else
      a2 ← arg_string argv 2;
      let n := to_size_t (atoi a2) in
      if n <? 1 then Usage "ERROR: grid dimension must be positive"
      else if n >? get_max_matrix_size
      then Usage "ERROR: grid dimension too large - overflow risk"
      else
        tile_size ←
          (if argc argv >? 3
           then a3 ← arg_string argv 3;
                let tile_size := to_size_t (atoi a3) in
                let tile_size := if tile_size <=? 0 then n else tile_size in
                Parsed (if tile_size >? n then n else tile_size)
           else Parsed 32);
        star ←
          (if argc argv >? 4
           then stencil ← arg_string argv 4;
                Parsed (if String.eqb stencil "grid" then false else true)
           else Parsed true);
        radius ←
          (if argc argv >? 5
           then a5 ← arg_string argv 5; Parsed (to_size_t (atoi a5))
           else Parsed 2);
        if (radius <? 1) || (to_size_t (2 * radius + 1) >? n)
        then Usage "ERROR: Stencil radius negative or too large"
        else Parsed {| iterations := iterations; n := n;
                       tile_size := tile_size; star := star;
                       radius := radius |}.

(** The choice of the kernel; the [else] branch with [grid1] ..
    [grid5] is under [#if 0]. *)
Definition select (star : bool) (radius : Z) : kernel :=
  if star then
    if radius =? 1 then star1
    else if radius =? 2 then star2
    else if radius =? 3 then star3
    else if radius =? 4 then star4
    else if radius =? 5 then star5
    else nothing
  else nothing.

(** [d_in[i*n+j] = i+j] and [d_out[i*n+j] = 0] over [range<2>{n,n}]. *)
Definition initial_in (n : Z) : list F :=
  i ← seqZ 0 n; j ← seqZ 0 n; [dofZ (i + j)].
Definition initial_out (n : Z) : list F :=
  i ← seqZ 0 n; j ← seqZ 0 n; [dofZ 0].

(** [d_in[i*n+j] += 1] over [range<2>{n,n}]. *)
Definition add_constant (n : Z) (d_in : list F) : result (list F) :=
  foldM (fun i d_in =>
           foldM (fun j d_in =>
                    upd d_in (i * n + j) (fun x => dadd x (dofZ 1)))
                 (seqZ 0 n) d_in)
        (seqZ 0 n) d_in.

Record device : Type := {
  d_in : list F;
  d_out : list F;
  stencil_time : F;
  submitted : list op
}.

(** One body of the timed loop. *)
Definition loop_body (fuel : nat) (c : config) (stencil : kernel)
    (iter : Z) (st : device) : result device :=
  let time := if iter =? 1 then wtime (submitted st)
              else stencil_time st in
  out ← stencil fuel (n c) (tile_size c) (d_in st) (d_out st);
  inp ← add_constant (n c) (d_in st);
  Ok {| d_in := inp; d_out := out; stencil_time := time;
        submitted := submitted st ++ [ApplyStencil; AddConstant] |}.

(** Initialisation, the loop
    [for (int iter = 0; iter<=iterations; iter++)], and the final
    reading of the clock.  The counter is an integer without bound here:
    this is the loop of the source for [iterations < INT_MAX]; at
    [INT_MAX] the [int] counter of the source overflows, and the theorems
    about a run that completes its loop assume [iterations < INT_MAX]. *)
Definition run_kernels (fuel : nat) (c : config) : result device :=
  st ← for_loop fuel 0 (fun iter => iter <=? iterations c)
         (fun iter => iter + 1)
         (loop_body fuel c (select (star c) (radius c)))
         {| d_in := initial_in (n c); d_out := initial_out (n c);
            stencil_time := dofZ 0; submitted := [] |};
  Ok {| d_in := d_in st; d_out := d_out st;
        stencil_time := dsub (wtime (submitted st)) (stencil_time st);
        submitted := submitted st |}.

Definition active_points (c : config) : Z :=
  to_size_t (to_size_t (n c - 2 * radius c)
             * to_size_t (n c - 2 * radius c)).

(** [norm]: the average of [|out|] over the interior. *)
Definition l1_norm (fuel : nat) (c : config) (h_out : list F)
    : result F :=
  norm ← for_loop fuel (radius c) (fun i => i <? n c - radius c)
           (fun i => i + 1)
           (fun i =>
              for_loop fuel (radius c) (fun j => j <? n c - radius c)
                (fun j => j + 1)
                (fun j norm =>
                   o ← rd h_out (i * n c + j); Ok (dadd norm (dabs o))))
           (dlit 0.0);
  Ok (ddiv norm (dofZ (active_points c))).

Definition epsilon : F := dlit 1.0e-8.

Definition reference_norm (c : config) : F :=
  dmul (dlit 2.0) (dadd (dofZ (iterations c)) (dlit 1.0)).

(** The comparison and the two reports. *)
Definition validate (c : config) (norm : F) (st : device)
    : list (line F) * Z :=
  if dgt (dabs (dsub norm (reference_norm c))) epsilon then
    ([ Norms norm (reference_norm c); Dump (d_in st) (d_out st) ], 1)
  else
    let stencil_size :=
      if star c then 4 * radius c + 1
      else (2 * radius c + 1) * (2 * radius c + 1) in
    let flops := to_size_t ((2 * stencil_size + 1) * active_points c) in
    let avgtime := ddiv (stencil_time st) (dofZ (iterations c)) in
    ([ Text "Solution validates";
       Value "Rate (MFlops/s): "
             (ddiv (dmul (dlit 1.0e-6) (dofZ flops)) avgtime);
       Value " Avg time (s): " avgtime ], 0).

(** [main] from the point where the arguments are known. *)
Definition run (fuel : nat) (c : config) : list (line F) * status :=
  let echo :=
    [ Echo "Number of iterations = " (iterations c);
      Echo "Grid size            = " (n c);
      Echo "Tile size            = " (tile_size c);
      Text ("Type of stencil      = "
              +:+ (if star c then "star" else "grid"));
      Echo "Radius of stencil    = " (radius c) ] in
  finish echo
    (st ← run_kernels fuel c;
     norm ← l1_norm fuel c (d_out st);
     Ok (validate c norm st)).

Definition banner : list (line F) :=
  [ Text ("Parallel Research Kernels version " +:+ PRKVERSION);
    Text "C++11/DPC++ Stencil execution on 2D grid" ].

Definition main (fuel : nat) (argv : list string)
    : list (line F) * status :=
  match parse_args argv with
  | Usage msg => (banner ++ [Text msg], Exit 1)
  | Parsed c => let '(out, st) := run fuel c in (banner ++ out, st)
  | NullString => (banner, Fatal StringFromNull)
  | ReadPastEnd => (banner, Fatal ArgvPastEnd)
  end.

End Driver.

End Stencil.

(** * Vocabulary of the statements *)

(** ** The triad *)

(** What [prk::divceil] is taken to return: the least number of blocks of
    [b] elements that cover [a] elements. *)
Definition is_divceil (divceil : Z -> Z -> Z) : Prop :=
  forall a b, 0 < a -> 0 < b ->
    (divceil a b - 1) * b < a /\ a <= divceil a b * b.

(** Ceiling division, an instance of [is_divceil]. *)
Definition ceil_div (a b : Z) : Z := (a + b - 1) / b.

(** [updated R g s0 s]: [s] is [s0] with [g k] applied to the cells [k] of
    the region [R], and to no other. *)
Definition updated {F : Type} (R : nat -> bool) (g : nat -> F -> F)
    (s0 s : list F) : Prop :=
  length s = length s0
  /\ forall k, s !! k = if R k then g k <$> s0 !! k else s0 !! k.

(** The region of the first [n] cells. *)
Definition below (n : Z) (k : nat) : bool := Z.of_nat k <? n.

(** The value [A[k] + (B[k] + scalar * C[k])] that a triad update gives
    to cell [k] of [A], holding [a]. *)
Definition triad_cell {F : Type} {D : Double F} (scalar : F) (B C : list F)
    (k : nat) (a : F) : F :=
  match B !! k, C !! k with
  | Some b, Some c => dadd a (dadd b (dmul scalar c))
  | _, _ => a
  end.

(** One triad update of a cell that holds [a], with [B = C = 2]. *)
Definition triad_step {F : Type} {D : Double F} (a : F) : F :=
  dadd a (dadd (dofZ 2) (dmul Triad.scalar (dofZ 2))).

(** The kernel a triad run submits in every loop body. *)
Definition submission (c : Triad.config) : Triad.op :=
  if Triad.grid_stride c then Triad.SubmitNstream2 else Triad.SubmitNstream.

(** [asum] of an array. *)
Definition sum_abs {F : Type} {D : Double F} (A : list F) : F :=
  foldl (fun asum a => dadd asum (dabs a)) (dofZ 0) A.

(** ** The stencil *)

(** Row-major position of cell [(i, j)] of an [n] by [n] grid. *)
Definition cell (n i j : Z) : nat := Z.to_nat (i * n + j).

(** [grid_updated n R g s0 s]: [s] is [s0] with [g i j] applied to the
    cells [(i, j)] of the region [R], and to no other cell of the grid. *)
Definition grid_updated {F : Type} (n : Z) (R : Z -> Z -> bool)
    (g : Z -> Z -> F -> F) (s0 s : list F) : Prop :=
  length s = length s0
  /\ forall i j, 0 <= i < n -> 0 <= j < n ->
       s !! cell n i j
       = if R i j then g i j <$> s0 !! cell n i j else s0 !! cell n i j.

(** The rectangle of rows [i0 <= i < i1] and columns [j0 <= j < j1]. *)
Definition rect (i0 i1 j0 j1 : Z) (i j : Z) : bool :=
  (i0 <=? i) && (i <? i1) && (j0 <=? j) && (j <? j1).

(** Every offset of the sum lies within the radius. *)
Definition fits (r : Z) (ws : list Stencil.term) : bool :=
  forallb (fun w => (- r <=? Stencil.di w) && (Stencil.di w <=? r)
                    && (- r <=? Stencil.dj w) && (Stencil.dj w <=? r)) ws.

(** The cells at least [r] away from every edge. *)
Definition interior (r n : Z) (i j : Z) : bool := rect r (n - r) r (n - r) i j.

(** What a kernel with the sum [ws] adds to the cell [(i, j)]. *)
Definition accumulate {F : Type} {D : Double F} (ws : list Stencil.term)
    (n : Z) (inp : list F) (i j : Z) (o : F) : F :=
  match Stencil.weighted_sum ws n inp i j with
  | Ok s => dadd o s
  | _ => o
  end.

(** The ten kernels of stencil_vector.hpp: shape ([true] for star,
    [false] for grid), radius, function and sum. *)
Definition kernels {F : Type} {D : Double F}
    : list (bool * Z * Stencil.kernel (F := F) * list Stencil.term) :=
  [ (true, 1, Stencil.star1, Stencil.star1_terms);
    (true, 2, Stencil.star2, Stencil.star2_terms);
    (true, 3, Stencil.star3, Stencil.star3_terms);
    (true, 4, Stencil.star4, Stencil.star4_terms);
    (true, 5, Stencil.star5, Stencil.star5_terms);
    (false, 1, Stencil.grid1, Stencil.grid1_terms);
    (false, 2, Stencil.grid2, Stencil.grid2_terms);
    (false, 3, Stencil.grid3, Stencil.grid3_terms);
    (false, 4, Stencil.grid4, Stencil.grid4_terms);
    (false, 5, Stencil.grid5, Stencil.grid5_terms) ].

(** The ten sums of stencil_vector.hpp by shape and radius. *)
Definition tables : list (bool * Z * list Stencil.term) :=
  [ (true, 1, Stencil.star1_terms); (true, 2, Stencil.star2_terms);
    (true, 3, Stencil.star3_terms); (true, 4, Stencil.star4_terms);
    (true, 5, Stencil.star5_terms);
    (false, 1, Stencil.grid1_terms); (false, 2, Stencil.grid2_terms);
    (false, 3, Stencil.grid3_terms); (false, 4, Stencil.grid4_terms);
    (false, 5, Stencil.grid5_terms) ].

(** The coefficient a sum applies to the neighbour at offset [(a, b)]. *)
Definition coefficient (ws : list Stencil.term) (a b : Z) : option Q :=
  Stencil.coef
    <$> List.find (fun w => (Stencil.di w =? a) && (Stencil.dj w =? b)) ws.

(** The sum of the star kernel of radius [r]. *)
Definition star_terms (r : Z) : list Stencil.term :=
  if r =? 1 then Stencil.star1_terms
  else if r =? 2 then Stencil.star2_terms
  else if r =? 3 then Stencil.star3_terms
  else if r =? 4 then Stencil.star4_terms
  else if r =? 5 then Stencil.star5_terms
  else [].

(** The lines [nothing] prints. *)
Definition no_such_stencil : list string :=
  [ "You are trying to use a stencil that does not exist.";
    "Please generate the new stencil using the code generator";
    "and add it to the case-switch in the driver." ].

(** [x + 1], the perturbation of one cell. *)
Definition perturb {F : Type} {D : Double F} (x : F) : F := dadd x (dofZ 1).

(** The events of one loop body. *)
Definition body_ops : list Stencil.op :=
  [Stencil.ApplyStencil; Stencil.AddConstant].

(** ** The weighted sum and one loop body, written out from the tables *)

(** The product [in[(i+di)*n+(j+dj)] * coef] of one term of a sum, where
    the neighbour [(i + di, j + dj)] is a cell of the grid. *)
Definition term_value {F : Type} {D : Double F} (n : Z) (inp : list F)
    (i j : Z) (w : Stencil.term) : option F :=
  if rect 0 n 0 n (i + Stencil.di w) (j + Stencil.dj w)
  then (fun x => dmul x (dlit (Stencil.coef w)))
         <$> inp !! cell n (i + Stencil.di w) (j + Stencil.dj w)
  else None.

(** [((p1 + p2) + p3) + ...]: the products added from left to right. *)
Definition left_to_right {F : Type} {D : Double F} (ps : list F) : F :=
  match ps with
  | [] => dofZ 0
  | p :: ps' => foldl dadd p ps'
  end.

(** The weighted sum of the neighbours of [(i, j)]: the products of the
    table, in its order, added from left to right. *)
Definition table_sum {F : Type} {D : Double F} (ws : list Stencil.term)
    (n : Z) (inp : list F) (i j : Z) : option F :=
  left_to_right <$> mapM (term_value n inp i j) ws.

(** The output grid after one application of the sum [ws] with radius
    [r]: every interior cell has gained the weighted sum of its
    neighbours, every other cell is as it was. *)
Definition applied {F : Type} {D : Double F} (r : Z)
    (ws : list Stencil.term) (n : Z) (inp out : list F) : list F :=
  imap (fun k o =>
          let i := Z.of_nat k / n in
          let j := Z.of_nat k mod n in
          if interior r n i j
          then match table_sum ws n inp i j with
               | Some s => dadd o s
               | None => o
               end
          else o)
       out.


(** ** The coefficient tables *)

(** The offsets [(a, b)] a kernel of the given shape and radius has a
    product for: on the two axes through the centre for a star, in the
    square around the centre but off its anti-diagonal for a grid. *)
Definition reads (star : bool) (r a b : Z) : bool :=
  if star
  then ((a =? 0) && (1 <=? Z.abs b) && (Z.abs b <=? r))
       || ((b =? 0) && (1 <=? Z.abs a) && (Z.abs a <=? r))
  else (Z.abs a <=? r) && (Z.abs b <=? r) && negb (a + b =? 0).

(** The offsets of a sum, product by product. *)
Definition offsets (ws : list Stencil.term) : list (Z * Z) :=
  (fun w => (Stencil.di w, Stencil.dj w)) <$> ws.

(** The check of a table at one offset: a coefficient is present exactly
    where [reads] says, it is the opposite of the one at the opposite
    offset, and it has the sign of [a + b]. *)
Definition table_ok_at (star : bool) (r : Z) (ws : list Stencil.term)
    (a b : Z) : bool :=
  match coefficient ws a b, coefficient ws (- a) (- b) with
  | Some q, Some q' =>
      reads star r a b
      && (Qnum q' =? - Qnum q) && (Qden q' =? Qden q)%positive
      && Bool.eqb (0 <? Qnum q) (0 <? a + b)
  | None, None => negb (reads star r a b)
  | _, _ => false
  end.

(** The check over the square of offsets within the radius. *)
Definition table_ok (star : bool) (r : Z) (ws : list Stencil.term) : bool :=
  forallb (fun a => forallb (table_ok_at star r ws a)
                      (seqZ (- r) (2 * r + 1)))
          (seqZ (- r) (2 * r + 1)).
(** ** The stencil validation *)


(** ** Exact arithmetic *)

Section ExactVocabulary.
Local Open Scope Qc_scope.

(** The integer [z] as an exact [double]. *)
Definition Zc (z : Z) : Qc := @dofZ Qc exact z.

(** The sum of a list of rationals. *)
Definition Qc_sum (l : list Qc) : Qc := foldr Qcplus 0 l.

(** The sum of the coefficients of a kernel, and the sum of the
    coefficients weighted by their offsets. *)
Definition coef_sum (ws : list Stencil.term) : Qc :=
  Qc_sum ((fun w => Q2Qc (Stencil.coef w)) <$> ws).

Definition slope (ws : list Stencil.term) : Qc :=
  Qc_sum ((fun w => Zc (Stencil.di w + Stencil.dj w) * Q2Qc (Stencil.coef w))
            <$> ws).

(** The grids after [k] loop bodies: the input is [i + j + k], the
    output is [k] times the slope of the kernel on the interior and 0 on
    the border. *)
Definition grids_after (c : Stencil.config) (k : nat) (inp out : list Qc)
    : Prop :=
  forall i j, (0 <= i < Stencil.n c)%Z -> (0 <= j < Stencil.n c)%Z ->
    inp !! cell (Stencil.n c) i j = Some (Zc (i + j) + Zc (Z.of_nat k))
    /\ out !! cell (Stencil.n c) i j
       = Some (if interior (Stencil.radius c) (Stencil.n c) i j
               then Zc (Z.of_nat k) * slope (star_terms (Stencil.radius c))
               else 0).

End ExactVocabulary.

(** * Properties *)

(** ** Loops *)

Lemma bind_Ok {A B : Type} (m : result A) (f : A -> result B) (b : B) :
  m ≫= f = Ok b <-> exists a, m = Ok a /\ f a = Ok b.
Proof.
  destruct m; simpl; split; try discriminate; eauto.
  - intros (a' & [= ->] & H); exact H.
  - intros (? & [=] & _).
  - intros (? & [=] & _).
  - intros (? & [=] & _).
Qed.

(** The invariant rule of a loop that makes progress towards [bound]. *)
Lemma for_loop_rule {St : Type} (I : Z -> St -> Prop) (bound : Z) :
  forall (fuel : nat) (i0 : Z) (continue : Z -> bool) (next : Z -> Z)
         (body : Z -> St -> result St) (s : St),
    I i0 s ->
    (forall i, i0 <= i -> continue i = true -> i < bound /\ i < next i) ->
    (forall i s, i0 <= i -> continue i = true -> I i s ->
                 exists s', body i s = Ok s' /\ I (next i) s') ->
    (Z.to_nat (bound - i0) < fuel)%nat ->
    exists i' s',
      for_loop fuel i0 continue next body s = Ok s'
      /\ i0 <= i' /\ continue i' = false /\ I i' s'.
Proof.
  induction fuel as [|fuel IH]; intros i0 continue next body s HI Hprog Hbody Hfuel.
  - lia.
  - simpl. destruct (continue i0) eqn:Hc.
    + destruct (Hprog i0 ltac:(lia) Hc) as [Hb Hn].
      destruct (Hbody i0 s ltac:(lia) Hc HI) as (s1 & -> & HI1). simpl.
      destruct (IH (next i0) continue next body s1 HI1) as (i' & s' & Hrun & Hle & Hstop & HI').
      * intros i Hi; apply Hprog; lia.
      * intros i s2 Hi; apply Hbody; lia.
      * lia.
      * exists i', s'. repeat split; auto; lia.
    + exists i0, s. repeat split; auto; lia.
Qed.

(** The same rule for a run through [seqZ lo len]. *)
Lemma foldM_seqZ_rule {St : Type} (I : Z -> St -> Prop) :
  forall (len : nat) (lo : Z) (f : Z -> St -> result St) (s : St),
    I lo s ->
    (forall i s, lo <= i < lo + Z.of_nat len -> I i s ->
                 exists s', f i s = Ok s' /\ I (i + 1) s') ->
    exists s', foldM f (seqZ lo (Z.of_nat len)) s = Ok s'
               /\ I (lo + Z.of_nat len) s'.
Proof.
  induction len as [|len IH]; intros lo f s HI Hf.
  - exists s. rewrite Z.add_0_r. split; auto.
  - rewrite seqZ_cons by lia. simpl.
    destruct (Hf lo s ltac:(lia) HI) as (s1 & -> & HI1). simpl.
    replace (Z.pred (Z.of_nat (S len))) with (Z.of_nat len) by lia.
    replace (Z.succ lo) with (lo + 1) by lia.
    destruct (IH (lo + 1) f s1 HI1) as (s' & Hrun & HI').
    + intros i s2 Hi; apply Hf; lia.
    + exists s'. split; auto.
      replace (lo + Z.of_nat (S len)) with (lo + 1 + Z.of_nat len) by lia.
      exact HI'.
Qed.

Lemma foldM_app {St X : Type} (f : X -> St -> result St) (xs ys : list X) (s : St) :
  foldM f (xs ++ ys) s = s' ← foldM f xs s; foldM f ys s'.
Proof.
  revert s; induction xs as [|x xs IH]; intros s; simpl; auto.
  destruct (f x s); simpl; auto.
Qed.

Lemma foldM_bind {St X Y : Type} (f : Y -> St -> result St) (k : X -> list Y)
    (xs : list X) (s : St) :
  foldM f (xs ≫= k) s = foldM (fun x s => foldM f (k x) s) xs s.
Proof.
  revert s; induction xs as [|x xs IH]; intros s; simpl; auto.
  rewrite foldM_app. destruct (foldM f (k x) s); simpl; auto.
Qed.

(** ** Arrays *)

Section ArrayFacts.
Context {F : Type}.

Lemma rd_Ok (a : list F) (k : Z) (x : F) :
  rd a k = Ok x <-> 0 <= k /\ a !! Z.to_nat k = Some x.
Proof.
  unfold rd. destruct (Z.ltb_spec k 0).
  - split; [discriminate | lia].
  - destruct (a !! Z.to_nat k); split.
    + intros [= ->]; auto.
    + intros [_ [= ->]]; auto.
    + discriminate.
    + intros [_ [=]].
Qed.

Lemma rd_in_range (a : list F) (k : Z) :
  0 <= k < Z.of_nat (length a) -> exists x, rd a k = Ok x.
Proof.
  intros Hk. destruct (lookup_lt_is_Some_2 a (Z.to_nat k)) as [x Hx]; [lia|].
  exists x. apply rd_Ok; split; [lia | exact Hx].
Qed.

(** What [a[k] = f(a[k])] does to every cell. *)
Lemma upd_lookup (a a' : list F) (k : Z) (f : F -> F) :
  upd a k f = Ok a' ->
  length a' = length a
  /\ forall m : nat,
       a' !! m = if decide (m = Z.to_nat k) then f <$> a !! m else a !! m.
Proof.
  unfold upd. intros H. apply bind_Ok in H as (x & Hx & [= <-]).
  apply rd_Ok in Hx as [Hk Hx]. split.
  - apply length_insert.
  - intros m. destruct (decide (m = Z.to_nat k)) as [->|Hne].
    + rewrite list_lookup_insert_eq by (eapply lookup_lt_Some; eauto).
      rewrite Hx; reflexivity.
    + rewrite list_lookup_insert_ne by congruence. reflexivity.
Qed.

Lemma upd_in_range (a : list F) (k : Z) (f : F -> F) :
  0 <= k < Z.of_nat (length a) -> exists a', upd a k f = Ok a'.
Proof.
  intros Hk. destruct (rd_in_range a k Hk) as [x Hx].
  unfold upd. rewrite Hx. simpl. eauto.
Qed.

End ArrayFacts.

(** ** Cell-wise description of an update *)

Section Updated.
Context {F : Type}.
Implicit Types (R : nat -> bool) (g : nat -> F -> F) (s : list F).

Lemma updated_none g s : updated (fun _ => false) g s s.
Proof. split; auto. Qed.

Lemma updated_ext R R' g s0 s :
  (forall k, (k < length s0)%nat -> R k = R' k) ->
  updated R g s0 s -> updated R' g s0 s.
Proof.
  intros HR [Hlen Hs]. split; [exact Hlen|]. intros k. rewrite Hs.
  destruct (decide (k < length s0)%nat) as [Hk|Hk].
  - rewrite (HR k Hk). reflexivity.
  - rewrite (lookup_ge_None_2 s0 k) by lia. simpl.
    destruct (R k), (R' k); reflexivity.
Qed.

Lemma updated_then R1 R2 g s0 s1 s2 :
  updated R1 g s0 s1 -> updated R2 g s1 s2 ->
  (forall k, (k < length s0)%nat -> R1 k && R2 k = false) ->
  updated (fun k => R1 k || R2 k) g s0 s2.
Proof.
  intros [Hl1 H1] [Hl2 H2] Hdisj. split; [congruence|]. intros k.
  rewrite H2, H1.
  destruct (decide (k < length s0)%nat) as [Hk|Hk].
  - specialize (Hdisj k Hk). destruct (R1 k), (R2 k); simpl in *; congruence.
  - rewrite (lookup_ge_None_2 s0 k) by lia.
    destruct (R1 k), (R2 k); reflexivity.
Qed.

Lemma updated_one (a a' : list F) (i : Z) (f : F -> F) g :
  upd a i f = Ok a' -> g (Z.to_nat i) = f ->
  updated (fun k => bool_decide (k = Z.to_nat i)) g a a'.
Proof.
  intros H <-. apply upd_lookup in H as [Hlen H]. split; [exact Hlen|].
  intros k. rewrite H. destruct (decide (k = Z.to_nat i)) as [->|Hne].
  - rewrite bool_decide_eq_true_2 by reflexivity. reflexivity.
  - rewrite bool_decide_eq_false_2 by exact Hne. reflexivity.
Qed.

(** Two updates of the same region by the same function agree. *)
Lemma updated_unique R g s0 s s' :
  updated R g s0 s -> updated R g s0 s' -> s = s'.
Proof.
  intros [_ H] [_ H']. apply list_eq. intros k. rewrite H, H'. reflexivity.
Qed.

End Updated.

Lemma same_residue_gap (m i k : Z) :
  0 < m -> i mod m = k mod m -> i < k -> i + m <= k.
Proof.
  intros Hm Hmod Hlt.
  pose proof (Z.div_mod i m ltac:(lia)) as Hi.
  pose proof (Z.div_mod k m ltac:(lia)) as Hk.
  pose proof (Z.mod_pos_bound i m Hm).
  assert (i / m < k / m) by nia. nia.
Qed.

(** ** The triad kernels *)

Lemma bind_Ok_r {A : Type} (m : result A) : m ≫= Ok = m.
Proof. destruct m; reflexivity. Qed.

(** The invariant rule of a launch: work items run in the order of their
    global index [g * L + l]. *)
Lemma parallel_for_rule {F : Type} (I : Z -> list F -> Prop) (G L : Z)
    (kernel : list F -> Triad.nd_item -> result (list F)) (A : list F) :
  0 < L -> 0 <= G -> I 0 A ->
  (forall g l s, 0 <= g < G -> 0 <= l < L -> I (g * L + l) s ->
     exists s',
       kernel s {| Triad.get_group := g; Triad.get_local_id := l;
                   Triad.get_local_range := L; Triad.get_group_range := G |}
       = Ok s'
       /\ I (g * L + l + 1) s') ->
  exists s', Triad.parallel_for (G * L) L kernel A = Ok s' /\ I (G * L) s'.
Proof.
  intros HL HG HI Hstep. unfold Triad.parallel_for, Triad.work_items.
  rewrite Z.div_mul by lia. rewrite foldM_bind.
  destruct (foldM_seqZ_rule (fun g s => I (g * L) s) (Z.to_nat G) 0
              (fun x s => foldM (fun item A0 => kernel A0 item)
                 (l ← seqZ 0 L;
                  [ {| Triad.get_group := x; Triad.get_local_id := l;
                       Triad.get_local_range := L;
                       Triad.get_group_range := G |} ]) s) A)
    as (s' & Hrun & HI').
  - exact HI.
  - intros g s Hg HIg. rewrite foldM_bind.
    destruct (foldM_seqZ_rule (fun l s => I (g * L + l) s) (Z.to_nat L) 0
                (fun x s0 => foldM (fun item A0 => kernel A0 item)
                   [ {| Triad.get_group := g; Triad.get_local_id := x;
                        Triad.get_local_range := L;
                        Triad.get_group_range := G |} ] s0) s)
      as (s1 & Hrun1 & HI1).
    + rewrite Z.add_0_r. exact HIg.
    + intros l s0 Hl HIl. simpl. rewrite bind_Ok_r.
      destruct (Hstep g l s0 ltac:(lia) ltac:(lia) HIl) as (s2 & Hk & HI2).
      exists s2. split; [exact Hk|].
      replace (g * L + (l + 1)) with (g * L + l + 1) by lia. exact HI2.
    + rewrite Z2Nat.id in Hrun1, HI1 by lia.
      exists s1. split; [exact Hrun1|].
      replace ((g + 1) * L) with (g * L + (0 + L)) by lia. exact HI1.
  - rewrite Z2Nat.id in Hrun, HI' by lia.
    exists s'. split; [exact Hrun | exact HI'].
Qed.

Section TriadKernels.
Context {F : Type} {D : Double F}.
Variables (scalar : F) (B C : list F).

Lemma triad_updated (A : list F) (i : Z) :
  0 <= i < Z.of_nat (length A) ->
  i < Z.of_nat (length B) -> i < Z.of_nat (length C) ->
  exists A', Triad.triad scalar A B C i = Ok A'
             /\ updated (fun k => bool_decide (k = Z.to_nat i)) (triad_cell scalar B C) A A'.
Proof.
  intros HA HB HC. unfold Triad.triad.
  destruct (rd_in_range B i ltac:(lia)) as [b Hb].
  destruct (rd_in_range C i ltac:(lia)) as [c Hc].
  rewrite Hb, Hc. simpl.
  destruct (upd_in_range A i (fun a => dadd a (dadd b (dmul scalar c))) HA)
    as [A' HA'].
  exists A'. split; [exact HA'|].
  eapply updated_one; [exact HA'|].
  apply rd_Ok in Hb as [_ Hb]. apply rd_Ok in Hc as [_ Hc].
  unfold triad_cell. rewrite Hb, Hc. reflexivity.
Qed.

(** Direct mapping: a launch of [nstream] over [G] groups of [L] work
    items that cover [n] cells updates each of them once. *)
Lemma nstream_launch (n G L : Z) (A : list F) :
  0 < L -> 0 <= G -> n <= G * L -> G * L <= 2 ^ 64 ->
  n <= Z.of_nat (length A) -> n <= Z.of_nat (length B) ->
  n <= Z.of_nat (length C) ->
  exists A',
    Triad.parallel_for (G * L) L
      (fun A item => Triad.nstream n scalar A B C item) A = Ok A'
    /\ updated (below n) (triad_cell scalar B C) A A'.
Proof.
  intros HL HG Hcover Hsize HA HB HC.
  destruct (parallel_for_rule
              (fun gid s => updated (below (Z.min gid n)) (triad_cell scalar B C) A s)
              G L (fun A item => Triad.nstream n scalar A B C item) A HL HG)
    as (A' & Hrun & HI).
  - eapply updated_ext; [|apply updated_none].
    intros k _. unfold below. symmetry. apply Z.ltb_ge. lia.
  - intros g l s Hg Hl Hs. unfold Triad.nstream. simpl.
    assert (0 <= g * L + l < G * L) by nia.
    unfold to_size_t. rewrite Z.mod_small by lia.
    destruct (Z.ltb_spec (g * L + l) n) as [Hlt|Hge].
    + destruct Hs as [Hlen Hs'].
      destruct (triad_updated s (g * L + l)) as (s' & Hrun & Hupd);
        [lia..|].
      exists s'. split; [exact Hrun|].
      eapply updated_ext;
        [|eapply (updated_then _ _ _ A s s' (conj Hlen Hs') Hupd)].
      * intros k _. unfold below. simpl.
        destruct (Z.ltb_spec (Z.of_nat k) (Z.min (g * L + l) n));
          destruct (Z.ltb_spec (Z.of_nat k) (Z.min (g * L + l + 1) n));
          case_bool_decide; simpl; auto; lia.
      * intros k _. unfold below.
        destruct (Z.ltb_spec (Z.of_nat k) (Z.min (g * L + l) n));
          case_bool_decide; simpl; auto; lia.
    + exists s. split; [reflexivity|].
      eapply updated_ext; [|exact Hs].
      intros k _. unfold below. f_equal. lia.
  - exists A'. split; [exact Hrun|].
    eapply updated_ext; [|exact HI].
    intros k _. unfold below. f_equal. lia.
Qed.

(** Grid-strided mapping: a launch of [nstream2] over [G * L] work
    items, whatever their number, updates each of the [n] cells once,
    as long as the 32-bit index does not wrap around. *)
Lemma nstream2_launch (fuel : nat) (n G L : Z) (A : list F) :
  0 < L -> 0 < G -> 0 <= n -> n + G * L <= 2 ^ 32 ->
  (Z.to_nat n < fuel)%nat ->
  n <= Z.of_nat (length A) -> n <= Z.of_nat (length B) ->
  n <= Z.of_nat (length C) ->
  exists A',
    Triad.parallel_for (G * L) L
      (fun A item => Triad.nstream2 fuel n scalar A B C item) A = Ok A'
    /\ updated (below n) (triad_cell scalar B C) A A'.
Proof.
  intros HL HG Hn Hwrap Hfuel HA HB HC.
  set (stride := G * L).
  assert (Hstride : 0 < stride) by (unfold stride; nia).
  set (Reg := fun (gid : Z) (k : nat) =>
                (Z.of_nat k <? n) && (Z.of_nat k mod stride <? gid)).
  destruct (parallel_for_rule (fun gid s => updated (Reg gid) (triad_cell scalar B C) A s)
              G L (fun A item => Triad.nstream2 fuel n scalar A B C item)
              A HL ltac:(lia))
    as (A' & Hrun & HI).
  - eapply updated_ext; [|apply updated_none].
    intros k _. unfold Reg. symmetry. apply andb_false_iff. right.
    apply Z.ltb_ge. apply Z.mod_pos_bound. lia.
  - intros g l s Hg Hl Hs. unfold Triad.nstream2. simpl.
    set (gid := g * L + l).
    assert (Hgid : 0 <= gid < stride) by (unfold gid, stride; nia).
    fold stride. replace (L * G) with stride by (unfold stride; lia).
    unfold to_unsigned at 1. rewrite Z.mod_small by lia.
    destruct (for_loop_rule
                (fun i s' => i mod stride = gid
                   /\ updated (fun k => Reg gid k
                                 || ((Z.of_nat k mod stride =? gid)
                                     && (Z.of_nat k <? Z.min i n)))
                              (triad_cell scalar B C) A s')
                n fuel gid (fun i => i <? n)
                (fun i => to_unsigned (i + stride))
                (fun i A0 => Triad.triad scalar A0 B C i) s)
      as (i' & s' & Hloop & Hi' & Hstop & Hmod & Hupd).
    + split; [apply Z.mod_small; lia|].
      eapply updated_ext; [|exact Hs].
      intros k _. unfold Reg.
      destruct (Z.eqb_spec (Z.of_nat k mod stride) gid);
        destruct (Z.ltb_spec (Z.of_nat k) (Z.min gid n));
        destruct (Z.ltb_spec (Z.of_nat k) n);
        destruct (Z.ltb_spec (Z.of_nat k mod stride) gid);
        simpl; auto; try lia.
      rewrite Z.mod_small in * by lia. lia.
    + intros i Hi Hc. apply Z.ltb_lt in Hc.
      unfold to_unsigned. rewrite Z.mod_small by lia. lia.
    + intros i s0 Hi Hc [Hmod [Hlen Hs0]]. apply Z.ltb_lt in Hc.
      destruct (triad_updated s0 i) as (s1 & Hrun1 & Hupd1); [lia..|].
      exists s1. split; [exact Hrun1|].
      unfold to_unsigned. rewrite (Z.mod_small (i + stride) (2 ^ 32)) by lia.
      split.
      * rewrite <- (Z.mul_1_l stride) at 1.
        rewrite Z.mod_add by lia. exact Hmod.
      * eapply updated_ext;
          [|eapply (updated_then _ _ _ A s0 s1 (conj Hlen Hs0) Hupd1)].
        -- intros k _. simpl. unfold Reg.
           destruct (Z.ltb_spec (Z.of_nat k) n);
             destruct (Z.ltb_spec (Z.of_nat k mod stride) gid);
             destruct (Z.eqb_spec (Z.of_nat k mod stride) gid);
             destruct (Z.ltb_spec (Z.of_nat k) (Z.min i n));
             destruct (Z.ltb_spec (Z.of_nat k) (Z.min (i + stride) n));
             case_bool_decide; simpl; auto; try lia.
           ++ assert (i + stride <= Z.of_nat k)
                by (apply same_residue_gap; lia). lia.
           ++ subst k. rewrite Z2Nat.id in * by lia. lia.
        -- intros k _. simpl. unfold Reg.
           case_bool_decide; [subst k; rewrite Z2Nat.id by lia|
                              rewrite andb_false_r; reflexivity].
           destruct (Z.ltb_spec i n);
             destruct (Z.ltb_spec (i mod stride) gid);
             destruct (Z.eqb_spec (i mod stride) gid);
             destruct (Z.ltb_spec i (Z.min i n));
             simpl; auto; lia.
    + lia.
    + exists s'. split; [exact Hloop|].
      apply Z.ltb_ge in Hstop.
      eapply updated_ext; [|exact Hupd].
      intros k _. unfold Reg. fold gid.
      destruct (Z.ltb_spec (Z.of_nat k) n);
        destruct (Z.ltb_spec (Z.of_nat k mod stride) gid);
        destruct (Z.ltb_spec (Z.of_nat k mod stride) (gid + 1));
        destruct (Z.eqb_spec (Z.of_nat k mod stride) gid);
        destruct (Z.ltb_spec (Z.of_nat k) (Z.min i' n));
        simpl; auto; lia.
  - exists A'. split; [exact Hrun|].
    eapply updated_ext; [|exact HI].
    intros k _. unfold Reg, below.
    pose proof (Z.mod_pos_bound (Z.of_nat k) stride Hstride).
    destruct (Z.ltb_spec (Z.of_nat k) n);
      destruct (Z.ltb_spec (Z.of_nat k mod stride) (G * L));
      simpl; auto; unfold stride in *; lia.
Qed.

End TriadKernels.

(** ** The triad driver *)

Section TriadDriver.
Context {F : Type} {D : Double F}.
Variable divceil : Z -> Z -> Z.
Variable wtime : list Triad.op -> F.
Hypothesis divceil_covers : is_divceil divceil.

Lemma triad_replicate (len : nat) (v b c : F) (A' : list F) :
  updated (below (Z.of_nat len))
          (triad_cell Triad.scalar (replicate len b) (replicate len c))
          (replicate len v) A' ->
  A' = replicate len (dadd v (dadd b (dmul Triad.scalar c))).
Proof.
  intros [_ H]. apply list_eq. intros k. rewrite H. unfold below, triad_cell.
  destruct (decide (k < len)%nat) as [Hk|Hk].
  - rewrite !lookup_replicate_2 by exact Hk.
    destruct (Z.ltb_spec (Z.of_nat k) (Z.of_nat len)); [reflexivity | lia].
  - rewrite !(lookup_ge_None_2 (replicate _ _) k) by (rewrite length_replicate; lia).
    destruct (Z.of_nat k <? Z.of_nat len); reflexivity.
Qed.

(** A loop body replaces every cell [v] of [d_A] by [triad_step v],
    whichever kernel is launched. *)
Lemma loop_body_spec (fuel : nat) (c : Triad.config) (iter : Z) (v : F)
    (time : F) (ops : list Triad.op) :
  0 < Triad.length c <= INT_MAX ->
  (Z.to_nat (Triad.length c) < fuel)%nat ->
  let len := Z.to_nat (Triad.length c) in
  Triad.loop_body divceil wtime fuel c
    (replicate len (dofZ 2)) (replicate len (dofZ 2)) iter
    {| Triad.d_A := replicate len v; Triad.nstream_time := time;
       Triad.submitted := ops |}
  = Ok {| Triad.d_A := replicate len (triad_step v);
          Triad.nstream_time := if iter =? 1 then wtime ops else time;
          Triad.submitted := ops ++ [submission c] |}.
Proof.
  intros Hlen Hfuel len. unfold Triad.loop_body, submission. simpl.
  destruct (divceil_covers (Triad.length c) Triad.blockSize ltac:(lia)
              ltac:(reflexivity)) as [Hlo Hhi].
  unfold Triad.blockSize, INT_MAX in *.
  assert (Hu : to_unsigned (Triad.length c) = Triad.length c)
    by (unfold to_unsigned; apply Z.mod_small; lia).
  rewrite Hu.
  assert (Hlen' : Z.of_nat len = Triad.length c) by (unfold len; lia).
  destruct (Triad.grid_stride c).
  - destruct (nstream2_launch Triad.scalar (replicate len (dofZ 2))
                (replicate len (dofZ 2)) fuel (Triad.length c)
                (divceil (Triad.length c) 256) 256 (replicate len v))
      as (A' & -> & Hupd);
      rewrite ?length_replicate; try lia.
    rewrite <- Hlen' in Hupd. apply triad_replicate in Hupd. subst A'.
    reflexivity.
  - destruct (nstream_launch Triad.scalar (replicate len (dofZ 2))
                (replicate len (dofZ 2)) (Triad.length c)
                (divceil (Triad.length c) 256) 256 (replicate len v))
      as (A' & -> & Hupd);
      rewrite ?length_replicate; try lia.
    rewrite <- Hlen' in Hupd. apply triad_replicate in Hupd. subst A'.
    reflexivity.
Qed.

(** The timed loop: [iterations + 1] bodies, the clock first read
    after the first of them. *)
Lemma triad_run_kernels (fuel : nat) (c : Triad.config) :
  1 <= Triad.iterations c ->
  0 < Triad.length c <= INT_MAX ->
  (Z.to_nat (Triad.iterations c) + 1 < fuel)%nat ->
  (Z.to_nat (Triad.length c) < fuel)%nat ->
  let len := Z.to_nat (Triad.length c) in
  let bodies := Z.to_nat (Triad.iterations c + 1) in
  Triad.run_kernels divceil wtime fuel c
  = Ok {| Triad.d_A := replicate len (Nat.iter bodies triad_step (dofZ 0));
          Triad.nstream_time :=
            dsub (wtime (replicate bodies (submission c)))
                 (wtime [submission c]);
          Triad.submitted := replicate bodies (submission c) |}.
Proof.
  intros Hit Hlen Hfuel1 Hfuel2 len bodies. unfold Triad.run_kernels.
  fold len.
  destruct (for_loop_rule
              (fun iter st =>
                 0 <= iter <= Triad.iterations c + 1
                 /\ Triad.d_A st
                    = replicate len (Nat.iter (Z.to_nat iter) triad_step (dofZ 0))
                 /\ Triad.submitted st = replicate (Z.to_nat iter) (submission c)
                 /\ (1 < iter -> Triad.nstream_time st = wtime [submission c]))
              (Triad.iterations c + 1) fuel 0
              (fun iter => iter <=? Triad.iterations c) (fun iter => iter + 1)
              (Triad.loop_body divceil wtime fuel c
                 (replicate len (dofZ 2)) (replicate len (dofZ 2)))
              {| Triad.d_A := replicate len (dofZ 0);
                 Triad.nstream_time := dofZ 0; Triad.submitted := [] |})
    as (i' & st & -> & Hi' & Hstop & Hrange & HA & Hops & Htime).
  - simpl. repeat split; auto; lia.
  - intros i Hi Hc. apply Z.leb_le in Hc. lia.
  - intros i [A time ops] Hi Hc (Hrange & HA & Hops & Htime).
    apply Z.leb_le in Hc. simpl in HA, Hops, Htime. subst A ops.
    rewrite loop_body_spec by assumption.
    eexists; split; [reflexivity|]. simpl.
    replace (Z.to_nat (i + 1)) with (S (Z.to_nat i)) by lia.
    repeat split; try lia.
    + rewrite replicate_S_end. reflexivity.
    + intros Hi1. destruct (Z.eqb_spec i 1) as [->|Hne].
      * reflexivity.
      * apply Htime. lia.
  - lia.
  - apply Z.leb_gt in Hstop.
    assert (i' = Triad.iterations c + 1) by lia. subst i'.
    simpl. fold bodies in HA, Hops. rewrite HA, Hops, Htime by lia.
    reflexivity.
Qed.

End TriadDriver.

Section TriadChecksums.
Context {F : Type} {D : Double F}.

Lemma expected_checksum_spec (fuel : nat) (c : Triad.config) :
  0 <= Triad.iterations c ->
  (Z.to_nat (Triad.iterations c) + 1 < fuel)%nat ->
  Triad.expected_checksum fuel c
  = Ok (dmul (Nat.iter (Z.to_nat (Triad.iterations c + 1)) triad_step (dofZ 0))
             (dofZ (Triad.length c))).
Proof.
  intros Hit Hfuel. unfold Triad.expected_checksum.
  destruct (for_loop_rule
              (fun i ar => 0 <= i <= Triad.iterations c + 1
                           /\ ar = Nat.iter (Z.to_nat i) triad_step (dofZ 0))
              (Triad.iterations c + 1) fuel 0
              (fun i => i <=? Triad.iterations c) (fun i => i + 1)
              (fun _ ar => Ok (dadd ar (dadd (dofZ 2)
                                         (dmul Triad.scalar (dofZ 2)))))
              (dofZ 0))
    as (i' & ar & -> & Hi' & Hstop & Hrange & ->).
  - split; [lia | reflexivity].
  - intros i Hi Hc. apply Z.leb_le in Hc. lia.
  - intros i ar Hi Hc [Hrange ->]. apply Z.leb_le in Hc.
    eexists; split; [reflexivity|]. split; [lia|].
    replace (Z.to_nat (i + 1)) with (S (Z.to_nat i)) by lia. reflexivity.
  - lia.
  - apply Z.leb_gt in Hstop. simpl.
    replace i' with (Triad.iterations c + 1) by lia. reflexivity.
Qed.

Lemma observed_checksum_spec (fuel : nat) (c : Triad.config) (A : list F) :
  Z.of_nat (length A) = Triad.length c ->
  (Z.to_nat (Triad.length c) < fuel)%nat ->
  Triad.observed_checksum fuel c A = Ok (sum_abs A).
Proof.
  intros Hlen Hfuel. unfold Triad.observed_checksum.
  destruct (for_loop_rule
              (fun i asum => 0 <= i <= Triad.length c
                             /\ asum = sum_abs (take (Z.to_nat i) A))
              (Triad.length c) fuel 0
              (fun i => i <? Triad.length c) (fun i => i + 1)
              (fun i asum => a ← rd A i; Ok (dadd asum (dabs a)))
              (dofZ 0))
    as (i' & asum & -> & Hi' & Hstop & Hrange & ->).
  - split; [lia | reflexivity].
  - intros i Hi Hc. apply Z.ltb_lt in Hc. lia.
  - intros i asum Hi Hc [Hrange ->]. apply Z.ltb_lt in Hc.
    destruct (rd_in_range A i ltac:(lia)) as [a Ha]. rewrite Ha. simpl.
    eexists; split; [reflexivity|]. split; [lia|].
    apply rd_Ok in Ha as [_ Ha].
    replace (Z.to_nat (i + 1)) with (S (Z.to_nat i)) by lia.
    rewrite (take_S_r _ _ _ Ha). unfold sum_abs. rewrite foldl_app.
    reflexivity.
  - lia.
  - apply Z.ltb_ge in Hstop. rewrite take_ge by lia. reflexivity.
Qed.

End TriadChecksums.

(** ** Exact arithmetic *)

Section ExactFacts.
Local Open Scope Qc_scope.

Lemma Zc_add (a b : Z) : Zc (a + b) = Zc a + Zc b.
Proof.
  apply Qc_is_canon. simpl. rewrite !Qred_correct, inject_Z_plus.
  reflexivity.
Qed.

Lemma Zc_mul (a b : Z) : Zc (a * b) = Zc a * Zc b.
Proof.
  apply Qc_is_canon. simpl. rewrite !Qred_correct, inject_Z_mult.
  reflexivity.
Qed.

Lemma Zc_lt (a b : Z) : (a < b)%Z <-> Zc a < Zc b.
Proof.
  unfold Qclt. simpl. rewrite !Qred_correct, Zlt_Qlt. reflexivity.
Qed.

Lemma Zc_le (a b : Z) : (a <= b)%Z <-> Zc a <= Zc b.
Proof.
  unfold Qcle. simpl. rewrite !Qred_correct, Zle_Qle. reflexivity.
Qed.

Lemma Zc_inj (a b : Z) : Zc a = Zc b -> a = b.
Proof.
  intros H. apply Z.le_antisymm; apply Zc_le; rewrite H; apply Qcle_refl.
Qed.

Lemma dabs_nonneg (x : Qc) : 0 <= x -> dabs x = x.
Proof.
  intros Hx. simpl. rewrite bool_decide_eq_false_2; [reflexivity|].
  apply Qcle_not_lt. exact Hx.
Qed.



Lemma dgt_false (x y : Qc) : dgt x y = false <-> x <= y.
Proof.
  simpl. rewrite bool_decide_eq_false. split.
  - apply Qcnot_lt_le.
  - apply Qcle_not_lt.
Qed.

End ExactFacts.

Section TriadExact.
Local Open Scope Qc_scope.

Lemma Qc_sum_const (X : Type) (xs : list X) (v : Qc) :
  Qc_sum ((fun _ => v) <$> xs) = Zc (Z.of_nat (length xs)) * v.
Proof.
  induction xs as [|x xs IH].
  - change (0 = 0 * v). ring.
  - cbn [fmap list_fmap Qc_sum foldr length]. fold (Qc_sum ((fun _ => v) <$> xs)).
    rewrite IH, Nat2Z.inj_succ, <- Z.add_1_r, Zc_add.
    change (Zc 1) with 1. ring.
Qed.

Lemma sum_abs_Qc_sum (A : list Qc) :
  sum_abs A = Qc_sum (dabs <$> A).
Proof.
  unfold sum_abs. change (@dofZ Qc exact 0%Z) with 0.
  assert (H : forall acc, foldl (fun asum a => dadd asum (dabs a)) acc A
                          = acc + Qc_sum (dabs <$> A)).
  { induction A as [|a A IH]; intros acc.
    - simpl. ring.
    - cbn [foldl fmap list_fmap Qc_sum foldr]. rewrite IH.
      fold (Qc_sum (dabs <$> A)). simpl. ring. }
  rewrite H. ring.
Qed.

Lemma triad_step_exact (a : Qc) : triad_step a = a + Zc 8.
Proof.
  unfold triad_step, Triad.scalar. fold (Zc 2) (Zc 3).
  change (dadd a (dadd (Zc 2) (dmul (Zc 3) (Zc 2))))
    with (a + (Zc 2 + Zc 3 * Zc 2)).
  rewrite <- Zc_mul, <- Zc_add. reflexivity.
Qed.

Lemma iter_triad_step (k : nat) :
  Nat.iter k triad_step (Zc 0) = Zc (8 * Z.of_nat k).
Proof.
  induction k as [|k IH].
  - reflexivity.
  - cbn [Nat.iter nat_rect]. fold (Nat.iter k triad_step (Zc 0)).
    rewrite triad_step_exact, IH, <- Zc_add. f_equal. lia.
Qed.


End TriadExact.

(** ** The triad claims *)

(** C4.  One launch of the grid-strided kernel [nstream2] and one launch of
    the direct kernel [nstream] return the same array [A], whatever the
    arithmetic of [double] is: for [n > 0] cells, any scalar, arrays of
    [n] cells, a direct launch whose [G1 * L1] work items cover the [n]
    cells, and a strided launch of [G2 * L2] work items (fewer or more than
    [n]) whose 32-bit loop index does not wrap around. *)
Theorem nstream2_agrees_with_nstream {F : Type} {D : Double F}
    (fuel : nat) (n : Z) (scalar : F) (A B C : list F) (G1 L1 G2 L2 : Z) :
  0 < n ->
  Z.of_nat (length A) = n -> Z.of_nat (length B) = n ->
  Z.of_nat (length C) = n ->
  0 < L1 -> n <= G1 * L1 <= 2 ^ 64 ->
  0 < L2 -> 0 < G2 -> n + G2 * L2 <= 2 ^ 32 ->
  (Z.to_nat n < fuel)%nat ->
  exists A',
    Triad.parallel_for (G2 * L2) L2
      (fun A item => Triad.nstream2 fuel n scalar A B C item) A = Ok A'
    /\ Triad.parallel_for (G1 * L1) L1
         (fun A item => Triad.nstream n scalar A B C item) A = Ok A'.
Proof.
  intros Hn HA HB HC HL1 HG1 HL2 HG2 Hwrap Hfuel.
  destruct (nstream2_launch scalar B C fuel n G2 L2 A) as (A2 & Hrun2 & Hupd2);
    try lia.
  destruct (nstream_launch scalar B C n G1 L1 A) as (A1 & Hrun1 & Hupd1);
    try lia.
  exists A2. split; [exact Hrun2|].
  rewrite Hrun1. f_equal. eapply updated_unique; eassumption.
Qed.

Lemma nstream2_agrees_with_nstream_witness :
  exists A',
    Triad.parallel_for (2 * 2) 2
      (fun A item =>
         Triad.nstream2 (D := binary64) 6 5 3%float A (replicate 5 2%float)
           (replicate 5 2%float) item)
      (replicate 5 0%float) = Ok A'
    /\ Triad.parallel_for (1 * 256) 256
         (fun A item =>
            Triad.nstream (D := binary64) 5 3%float A (replicate 5 2%float)
              (replicate 5 2%float) item)
         (replicate 5 0%float) = Ok A'.
Proof.
  apply (nstream2_agrees_with_nstream (D := binary64) 6 5 3%float
           (replicate 5 0%float) (replicate 5 2%float) (replicate 5 2%float)
           1 256 2 2);
    first [reflexivity | lia].
Defined.



(** ** Cell-wise description of an update of a grid *)

(** Equations and inequations between regions, by arithmetic. *)
Ltac region_to_prop :=
  repeat first
    [ rewrite andb_true_iff | rewrite orb_true_iff
    | rewrite Z.leb_le | rewrite Z.ltb_lt | rewrite Z.eqb_eq ].

Ltac region :=
  intros; unfold rect;
  first [ apply eq_true_iff_eq | apply not_true_iff_false ];
  region_to_prop; lia.

Lemma cell_inj (n i j i' j' : Z) :
  0 <= i -> 0 <= j < n -> 0 <= i' -> 0 <= j' < n ->
  cell n i j = cell n i' j' -> i = i' /\ j = j'.
Proof.
  unfold cell. intros Hi Hj Hi' Hj' H.
  assert (0 <= i * n) by nia. assert (0 <= i' * n) by nia.
  assert (Heq : i * n + j = i' * n + j') by lia.
  destruct (Z.lt_trichotomy i i') as [Hlt|[->|Hgt]].
  - assert (i * n + n <= i' * n) by nia. lia.
  - lia.
  - assert (i' * n + n <= i * n) by nia. lia.
Qed.

Section GridUpdated.
Context {F : Type}.
Implicit Types (R : Z -> Z -> bool) (g : Z -> Z -> F -> F) (s : list F).

Lemma grid_updated_ext n R R' g s0 s :
  (forall i j, 0 <= i < n -> 0 <= j < n -> R i j = R' i j) ->
  grid_updated n R g s0 s -> grid_updated n R' g s0 s.
Proof.
  intros HR [Hlen Hs]. split; [exact Hlen|].
  intros i j Hi Hj. rewrite Hs, HR by assumption. reflexivity.
Qed.

Lemma grid_updated_none n g s : grid_updated n (fun _ _ => false) g s s.
Proof. split; auto. Qed.

Lemma grid_updated_then n R1 R2 g s0 s1 s2 :
  grid_updated n R1 g s0 s1 -> grid_updated n R2 g s1 s2 ->
  (forall i j, 0 <= i < n -> 0 <= j < n -> R1 i j && R2 i j = false) ->
  grid_updated n (fun i j => R1 i j || R2 i j) g s0 s2.
Proof.
  intros [Hl1 H1] [Hl2 H2] Hdisj. split; [congruence|].
  intros i j Hi Hj. rewrite H2, H1 by assumption.
  specialize (Hdisj i j Hi Hj).
  destruct (R1 i j), (R2 i j); simpl in *; congruence.
Qed.

Lemma grid_updated_one n (a a' : list F) (i j : Z) (f : F -> F) g :
  0 <= i < n -> 0 <= j < n ->
  upd a (i * n + j) f = Ok a' -> g i j = f ->
  grid_updated n (fun i' j' => (i' =? i) && (j' =? j)) g a a'.
Proof.
  intros Hi Hj H <-. apply upd_lookup in H as [Hlen H]. split; [exact Hlen|].
  intros i' j' Hi' Hj'. rewrite H. fold (cell n i j).
  destruct (decide (cell n i' j' = cell n i j)) as [Heq|Hne].
  - apply cell_inj in Heq as [-> ->]; try lia.
    rewrite !Z.eqb_refl. reflexivity.
  - destruct (Z.eqb_spec i' i) as [->|]; [|reflexivity].
    destruct (Z.eqb_spec j' j) as [->|]; [|reflexivity].
    congruence.
Qed.

(** A counting loop that updates one slab of cells per body updates
    their union, provided the slabs do not overlap. *)
Lemma sweep n g (fuel : nat) (lo hi step : Z)
    (body : Z -> list F -> result (list F))
    (Reg Slab : Z -> Z -> Z -> bool) (Final : Z -> Z -> bool) s0 :
  0 < step ->
  (Z.to_nat (hi - lo) < fuel)%nat ->
  (forall i j, 0 <= i < n -> 0 <= j < n -> Reg lo i j = false) ->
  (forall x i j, lo <= x < hi -> 0 <= i < n -> 0 <= j < n ->
     Reg (x + step) i j = Reg x i j || Slab x i j) ->
  (forall x i j, lo <= x < hi -> 0 <= i < n -> 0 <= j < n ->
     Reg x i j && Slab x i j = false) ->
  (forall x i j, lo <= x -> hi <= x -> 0 <= i < n -> 0 <= j < n ->
     Reg x i j = Final i j) ->
  (forall x s, lo <= x < hi -> length s = length s0 ->
     exists s', body x s = Ok s' /\ grid_updated n (Slab x) g s s') ->
  exists s',
    for_loop fuel lo (fun x => x <? hi) (fun x => x + step) body s0 = Ok s'
    /\ grid_updated n Final g s0 s'.
Proof.
  intros Hstep Hfuel Hinit Hgrow Hdisj Hfinal Hbody.
  destruct (for_loop_rule (fun x s => grid_updated n (Reg x) g s0 s)
              hi fuel lo (fun x => x <? hi) (fun x => x + step) body s0)
    as (x' & s' & Hrun & Hx' & Hstop & Hupd).
  - eapply grid_updated_ext; [|apply grid_updated_none].
    intros i j Hi Hj. symmetry. apply Hinit; assumption.
  - intros x Hx Hc. apply Z.ltb_lt in Hc. lia.
  - intros x s Hx Hc Hs. apply Z.ltb_lt in Hc.
    destruct (Hbody x s ltac:(lia) (proj1 Hs)) as (s1 & Hrun1 & Hupd1).
    exists s1. split; [exact Hrun1|].
    eapply grid_updated_ext;
      [|eapply (grid_updated_then _ _ _ _ _ _ _ Hs Hupd1)].
    + intros i j Hi Hj. symmetry. apply Hgrow; lia.
    + intros i j Hi Hj. apply Hdisj; lia.
  - exact Hfuel.
  - apply Z.ltb_ge in Hstop. exists s'. split; [exact Hrun|].
    eapply grid_updated_ext; [|exact Hupd].
    intros i j Hi Hj. apply Hfinal; lia.
Qed.

End GridUpdated.

(** ** The stencil kernels *)

Section StencilKernels.
Context {F : Type} {D : Double F}.

Lemma product_ok (r n : Z) (inp : list F) (i j : Z) (w : Stencil.term) :
  Z.of_nat (length inp) = n * n -> 0 <= r ->
  interior r n i j = true -> fits r [w] = true ->
  exists x, Stencil.product n inp i j w = Ok x.
Proof.
  intros Hlen Hr Hint Hfit. unfold Stencil.product.
  unfold interior, rect in Hint. unfold fits in Hfit. simpl in Hfit.
  rewrite andb_true_r in Hfit.
  revert Hint Hfit. region_to_prop. intros Hint Hfit.
  destruct (rd_in_range inp ((i + Stencil.di w) * n + (j + Stencil.dj w)))
    as [x Hx]; [nia|].
  rewrite Hx. simpl. eauto.
Qed.

Lemma weighted_sum_ok (r : Z) (ws : list Stencil.term) (n : Z)
    (inp : list F) (i j : Z) :
  Z.of_nat (length inp) = n * n -> 0 <= r ->
  interior r n i j = true -> fits r ws = true ->
  exists s, Stencil.weighted_sum ws n inp i j = Ok s.
Proof.
  intros Hlen Hr Hint Hfit. destruct ws as [|w ws]; simpl; [eauto|].
  unfold fits in Hfit. simpl in Hfit. apply andb_true_iff in Hfit as [Hw Hws].
  destruct (product_ok r n inp i j w Hlen Hr Hint) as [p ->].
  { unfold fits. simpl. rewrite Hw. reflexivity. }
  simpl. clear Hw. revert p. induction ws as [|w' ws IH]; intros p; simpl.
  - eauto.
  - simpl in Hws. apply andb_true_iff in Hws as [Hw' Hws].
    destruct (product_ok r n inp i j w' Hlen Hr Hint) as [p' ->].
    { unfold fits. simpl. rewrite Hw'. reflexivity. }
    simpl. apply IH. exact Hws.
Qed.

Lemma point_spec (r : Z) (ws : list Stencil.term) (n : Z) (inp out : list F)
    (i j : Z) :
  Z.of_nat (length inp) = n * n -> Z.of_nat (length out) = n * n -> 0 <= r ->
  interior r n i j = true -> fits r ws = true ->
  exists out',
    Stencil.point ws n inp i j out = Ok out'
    /\ grid_updated n (fun i' j' => (i' =? i) && (j' =? j))
         (accumulate ws n inp) out out'.
Proof.
  intros Hinp Hout Hr Hint Hfit. unfold Stencil.point.
  destruct (weighted_sum_ok r ws n inp i j Hinp Hr Hint Hfit) as [s Hs].
  rewrite Hs. simpl.
  assert (Hij : 0 <= i < n /\ 0 <= j < n).
  { unfold interior, rect in Hint. revert Hint. region_to_prop. lia. }
  destruct (upd_in_range out (i * n + j) (fun o => dadd o s)) as [out' Hout'];
    [nia|].
  exists out'. split; [exact Hout'|].
  eapply grid_updated_one; [lia | lia | exact Hout' |].
  unfold accumulate. rewrite Hs. reflexivity.
Qed.

(** The loop nest visits every interior cell once and no other cell. *)
Lemma tiled_spec (fuel : nat) (r n t : Z)
    (body : Z -> Z -> list F -> result (list F)) (g : Z -> Z -> F -> F)
    (out : list F) :
  0 <= r -> 0 < t -> (Z.to_nat n < fuel)%nat ->
  (forall i j s, interior r n i j = true -> length s = length out ->
     exists s', body i j s = Ok s'
                /\ grid_updated n (fun i' j' => (i' =? i) && (j' =? j)) g s s') ->
  exists out',
    Stencil.tiled fuel r n t body out = Ok out'
    /\ grid_updated n (interior r n) g out out'.
Proof.
  intros Hr Ht Hfuel Hbody. unfold Stencil.tiled.
  apply (sweep n g fuel r (n - r) t _
           (fun it => rect r (Z.min it (n - r)) r (n - r))
           (fun it => rect it (Z.min (n - r) (it + t)) r (n - r))
           (interior r n) out Ht); [lia | unfold interior; region..|].
  intros it s1 Hit Hs1.
  apply (sweep n g fuel r (n - r) t _
           (fun jt => rect it (Z.min (n - r) (it + t)) r (Z.min jt (n - r)))
           (fun jt => rect it (Z.min (n - r) (it + t)) jt (Z.min (n - r) (jt + t)))
           (rect it (Z.min (n - r) (it + t)) r (n - r)) s1 Ht);
    [lia | region..|].
  intros jt s2 Hjt Hs2.
  apply (sweep n g fuel it (Z.min (n - r) (it + t)) 1 _
           (fun i => rect it (Z.min i (Z.min (n - r) (it + t)))
                          jt (Z.min (n - r) (jt + t)))
           (fun i => rect i (i + 1) jt (Z.min (n - r) (jt + t)))
           (rect it (Z.min (n - r) (it + t)) jt (Z.min (n - r) (jt + t)))
           s2 ltac:(lia));
    [lia | region..|].
  intros i s3 Hi Hs3.
  apply (sweep n g fuel jt (Z.min (n - r) (jt + t)) 1 _
           (fun j => rect i (i + 1) jt (Z.min j (Z.min (n - r) (jt + t))))
           (fun j i' j' => (i' =? i) && (j' =? j))
           (rect i (i + 1) jt (Z.min (n - r) (jt + t)))
           s3 ltac:(lia));
    [lia | region..|].
  intros j s4 Hj Hs4. apply Hbody; [|congruence].
  unfold interior. region.
Qed.

(** A kernel leaves the cells outside the interior as they are and adds
    its weighted sum to each interior cell. *)
Lemma stencil_of_spec (fuel : nat) (r : Z) (ws : list Stencil.term)
    (n t : Z) (inp out : list F) :
  0 <= r -> fits r ws = true -> 0 < t ->
  Z.of_nat (length inp) = n * n -> Z.of_nat (length out) = n * n ->
  (Z.to_nat n < fuel)%nat ->
  exists out',
    Stencil.stencil_of r ws fuel n t inp out = Ok out'
    /\ grid_updated n (interior r n) (accumulate ws n inp) out out'.
Proof.
  intros Hr Hfit Ht Hinp Hout Hfuel. unfold Stencil.stencil_of.
  apply tiled_spec; try assumption.
  intros i j s Hint Hlen. eapply point_spec; eauto. lia.
Qed.

End StencilKernels.

Lemma kernels_generated {F : Type} {D : Double F} (star : bool) (r : Z)
    (k : Stencil.kernel) (ws : list Stencil.term) :
  In (star, r, k, ws) kernels ->
  k = Stencil.stencil_of r ws /\ 1 <= r <= 5 /\ fits r ws = true.
Proof.
  unfold kernels. simpl.
  intros H; repeat (destruct H as [[= <- <- <- <-]|H];
                    [repeat split; (lia || (vm_compute; reflexivity))|]).
  contradiction.
Qed.

Lemma fits_In (r : Z) (ws : list Stencil.term) (w : Stencil.term) :
  fits r ws = true -> In w ws ->
  - r <= Stencil.di w <= r /\ - r <= Stencil.dj w <= r.
Proof.
  unfold fits. rewrite forallb_forall. intros H Hw. specialize (H w Hw).
  revert H. region_to_prop. lia.
Qed.

(** Around an interior cell every read of the kernel is inside the grid. *)
Lemma neighbour_in_grid (r n i j : Z) (ws : list Stencil.term)
    (w : Stencil.term) :
  0 <= r -> interior r n i j = true -> fits r ws = true -> In w ws ->
  0 <= i + Stencil.di w < n /\ 0 <= j + Stencil.dj w < n.
Proof.
  intros Hr Hint Hfit Hw. destruct (fits_In r ws w Hfit Hw).
  unfold interior, rect in Hint. revert Hint. region_to_prop. lia.
Qed.

(** ** The kernels compute the weighted sum of their table *)

Section KernelSums.
Context {F : Type} {D : Double F}.



End KernelSums.



(** ** Weighted sums in exact arithmetic *)

Section StencilExact.
Local Open Scope Qc_scope.

Lemma weighted_sum_exact (ws : list Stencil.term) (n : Z) (inp : list Qc)
    (i j : Z) (val : Stencil.term -> Qc) :
  (forall w, In w ws ->
     rd inp ((i + Stencil.di w) * n + (j + Stencil.dj w))%Z = Ok (val w)) ->
  Stencil.weighted_sum ws n inp i j
  = Ok (Qc_sum ((fun w => val w * Q2Qc (Stencil.coef w)) <$> ws)).
Proof.
  intros Hrd. destruct ws as [|w ws]; [reflexivity|].
  unfold Stencil.weighted_sum, Stencil.product.
  rewrite (Hrd w) by (left; reflexivity). cbn [mbind result_bind].
  assert (Hfold : forall acc,
    foldM (fun w0 acc0 =>
             p' ← (x ← rd inp ((i + Stencil.di w0) * n + (j + Stencil.dj w0))%Z;
                   Ok (dmul x (dlit (Stencil.coef w0))));
             Ok (dadd acc0 p')) ws acc
    = Ok (acc + Qc_sum ((fun w => val w * Q2Qc (Stencil.coef w)) <$> ws))).
  { assert (Hws : forall w0, In w0 ws ->
      rd inp ((i + Stencil.di w0) * n + (j + Stencil.dj w0))%Z = Ok (val w0))
      by (intros w0 Hw0; apply Hrd; right; exact Hw0).
    clear Hrd. induction ws as [|w' ws IH]; intros acc.
    - simpl. f_equal. ring.
    - cbn [foldM]. rewrite (Hws w') by (left; reflexivity).
      cbn [mbind result_bind]. rewrite IH by (intros; apply Hws; right; auto).
      f_equal. cbn [fmap list_fmap Qc_sum foldr].
      change (dadd acc (dmul (val w') (dlit (Stencil.coef w'))))
        with (acc + val w' * Q2Qc (Stencil.coef w')).
      fold (Qc_sum ((fun w => val w * Q2Qc (Stencil.coef w)) <$> ws)). ring. }
  rewrite Hfold. reflexivity.
Qed.

Lemma Qc_sum_affine (ws : list Stencil.term) (a : Qc) :
  Qc_sum ((fun w => (a + Zc (Stencil.di w + Stencil.dj w))
                    * Q2Qc (Stencil.coef w)) <$> ws)
  = a * coef_sum ws + slope ws.
Proof.
  unfold coef_sum, slope. induction ws as [|w ws IH].
  - simpl. ring.
  - cbn [fmap list_fmap Qc_sum foldr].
    fold (Qc_sum ((fun w => (a + Zc (Stencil.di w + Stencil.dj w))
                            * Q2Qc (Stencil.coef w)) <$> ws)).
    fold (Qc_sum ((fun w => Q2Qc (Stencil.coef w)) <$> ws)).
    fold (Qc_sum ((fun w => Zc (Stencil.di w + Stencil.dj w)
                            * Q2Qc (Stencil.coef w)) <$> ws)).
    rewrite IH. ring.
Qed.

Lemma Qc_sum_scaled (ws : list Stencil.term) (a : Qc) :
  Qc_sum ((fun w => a * Q2Qc (Stencil.coef w)) <$> ws) = a * coef_sum ws.
Proof.
  unfold coef_sum. induction ws as [|w ws IH].
  - simpl. ring.
  - cbn [fmap list_fmap Qc_sum foldr].
    fold (Qc_sum ((fun w => a * Q2Qc (Stencil.coef w)) <$> ws)).
    fold (Qc_sum ((fun w => Q2Qc (Stencil.coef w)) <$> ws)).
    rewrite IH. ring.
Qed.

(** The coefficients of each of the ten kernels sum to zero. *)
Lemma coef_sum_zero (star : bool) (r : Z) (k : Stencil.kernel)
    (ws : list Stencil.term) :
  In (star, r, k, ws) (kernels (D := exact)) -> coef_sum ws = 0.
Proof.
  unfold kernels. simpl.
  intros H; repeat (destruct H as [[= <- <- <- <-]|H];
                    [apply Qc_is_canon; vm_compute; reflexivity|]).
  contradiction.
Qed.

End StencilExact.

(** Every position of a list of [n * n] cells is a cell of the grid. *)
Lemma grid_cells_cover (n : Z) (k : nat) :
  0 <= n -> Z.of_nat k < n * n ->
  exists i j, 0 <= i < n /\ 0 <= j < n /\ k = cell n i j.
Proof.
  intros Hn Hk. assert (0 < n) by nia.
  exists (Z.of_nat k / n), (Z.of_nat k mod n).
  pose proof (Z.mod_pos_bound (Z.of_nat k) n ltac:(lia)).
  pose proof (Z.div_mod (Z.of_nat k) n ltac:(lia)) as Hdm.
  assert (0 <= Z.of_nat k / n) by (apply Z.div_pos; lia).
  repeat split; try lia.
  - apply Z.div_lt_upper_bound; lia.
  - unfold cell. lia.
Qed.

Lemma grid_updated_same {F : Type} (n : Z) (R : Z -> Z -> bool)
    (g : Z -> Z -> F -> F) (s0 s : list F) :
  0 <= n -> Z.of_nat (length s0) = n * n ->
  grid_updated n R g s0 s ->
  (forall i j o, R i j = true -> g i j o = o) ->
  s = s0.
Proof.
  intros Hn Hlen [Hl Hs] Hid. apply list_eq. intros k.
  destruct (decide (k < length s0)%nat) as [Hk|Hk].
  - destruct (grid_cells_cover n k Hn ltac:(lia)) as (i & j & Hi & Hj & ->).
    rewrite Hs by assumption. destruct (R i j) eqn:HR; [|reflexivity].
    destruct (s0 !! cell n i j); simpl; [|reflexivity].
    rewrite Hid by exact HR. reflexivity.
  - rewrite !lookup_ge_None_2 by lia. reflexivity.
Qed.

(** ** The claims about the coefficient tables *)

(** C5, as the code has it.  For each of the ten kernels (radius 1 to 5,
    star and grid) the coefficients, read as the decimal numbers of the
    source, sum to exactly 0, and in exact arithmetic the kernel applied
    to a constant input field returns the output grid unchanged. *)
Theorem constant_field_adds_zero_exact (star : bool) (r : Z)
    (k : Stencil.kernel) (ws : list Stencil.term) (fuel : nat) (n t : Z)
    (c : Qc) (out : list Qc) :
  In (star, r, k, ws) (kernels (D := exact)) ->
  0 < t -> 0 <= n -> Z.of_nat (length out) = n * n ->
  (Z.to_nat n < fuel)%nat ->
  coef_sum ws = 0%Qc
  /\ k fuel n t (replicate (Z.to_nat (n * n)) c) out = Ok out.
Proof.
  intros Hk Ht Hn Hout Hfuel.
  pose proof (coef_sum_zero star r k ws Hk) as Hzero.
  split; [exact Hzero|].
  apply kernels_generated in Hk as (-> & Hr & Hfit).
  set (inp := replicate (Z.to_nat (n * n)) c).
  assert (Hinp : Z.of_nat (length inp) = n * n)
    by (unfold inp; rewrite length_replicate; nia).
  destruct (stencil_of_spec fuel r ws n t inp out ltac:(lia) Hfit Ht Hinp Hout
              Hfuel) as (out' & Hrun & Hupd).
  rewrite Hrun. f_equal.
  apply (grid_updated_same n (interior r n) (accumulate ws n inp) out out' Hn
           Hout Hupd).
  intros i j o Hint. unfold accumulate.
  rewrite (weighted_sum_exact ws n inp i j (fun _ => c)).
  - rewrite Qc_sum_scaled, Hzero.
    change (dadd o (c * 0)%Qc) with (o + c * 0)%Qc. ring.
  - intros w Hw.
    destruct (neighbour_in_grid r n i j ws w ltac:(lia) Hint Hfit Hw).
    apply rd_Ok. split; [nia|].
    unfold inp. apply lookup_replicate_2. nia.
Qed.

Lemma constant_field_adds_zero_exact_witness :
  coef_sum Stencil.grid2_terms = 0%Qc
  /\ Stencil.grid2 (D := exact) 6%nat 5 5
       (replicate (Z.to_nat (5 * 5)) (Zc 7)) (replicate 25 (Zc 1))
     = Ok (replicate 25 (Zc 1)).
Proof.
  apply (constant_field_adds_zero_exact false 2 Stencil.grid2
           Stencil.grid2_terms 6%nat 5 5 (Zc 7) (replicate 25 (Zc 1)));
    first [reflexivity | lia | (do 6 right; left; reflexivity)].
Defined.

(** C5 as stated fails in binary64: [star3] applied to the constant field
    1.0 on a 7 by 7 grid adds 0.75 * 2^-53, not 0, to the interior cell
    (3, 3). *)
Lemma constant_field_residue_binary64 :
  exists out',
    Stencil.star3 (D := binary64) 8%nat 7 7 (replicate 49 1%float)
      (replicate 49 0%float) = Ok out'
    /\ out' !! cell 7 3 3 = Some 0x1.8p-54%float
    /\ out' !! cell 7 3 3 <> replicate 49 0%float !! cell 7 3 3.
Proof.
  eexists. split; [vm_compute; reflexivity|]. split; [reflexivity|].
  intros H.
  apply (f_equal (fun o => match o with
                           | Some x => PrimFloat.is_zero x
                           | None => false
                           end)) in H.
  vm_compute in H. discriminate.
Qed.

(** C2, as the code has it.  In the star kernel of radius [r] (1 to 5),
    the neighbours at distance [d] (1 to [r]) after the centre, along the
    row and along the column, have one positive coefficient [m]; those at
    distance [d] before the centre have [- m]; and [m] is [1 / (2 d r)]
    within 1e-8 relative. *)
Theorem star_coefficients (r d : Z) (ws : list Stencil.term) :
  In (true, r, ws) tables -> 1 <= d <= r ->
  exists m : Q,
    coefficient ws 0 d = Some m
    /\ coefficient ws d 0 = Some m
    /\ coefficient ws 0 (- d) = Some (- m)%Q
    /\ coefficient ws (- d) 0 = Some (- m)%Q
    /\ (0 < m)%Q
    /\ (Qabs (m - 1 / inject_Z (2 * d * r))
        <= 1e-8 * (1 / inject_Z (2 * d * r)))%Q.
Proof.
  unfold tables. simpl. intros H Hd.
  assert (Hcases : d = 1 \/ d = 2 \/ d = 3 \/ d = 4 \/ d = 5).
  { repeat (destruct H as [H'|H];
            [first [discriminate H' | injection H' as <- <-; lia]|]).
    contradiction. }
  repeat (destruct H as [H'|H];
    [ first
        [ discriminate H'
        | injection H' as <- <-;
          destruct Hcases as [->|[->|[->|[->| ->]]]]; try lia;
          (eexists; split; [vm_compute; reflexivity|];
           repeat split; try (vm_compute; reflexivity);
           apply Qle_bool_iff; vm_compute; reflexivity) ] |]).
  contradiction.
Qed.

Lemma star_coefficients_witness :
  exists m : Q,
    coefficient Stencil.star3_terms 0 2 = Some m
    /\ coefficient Stencil.star3_terms 2 0 = Some m
    /\ coefficient Stencil.star3_terms 0 (- 2) = Some (- m)%Q
    /\ coefficient Stencil.star3_terms (- 2) 0 = Some (- m)%Q
    /\ (0 < m)%Q
    /\ (Qabs (m - 1 / inject_Z (2 * 2 * 3))
        <= 1e-8 * (1 / inject_Z (2 * 2 * 3)))%Q.
Proof.
  apply (star_coefficients 3 2 Stencil.star3_terms);
    [do 2 right; left; reflexivity | lia].
Defined.

(** C2 as stated fails: the coefficient of [star1] at distance 1 is 0.5,
    which is not [1 / (4 * 1 * 1)] within 1e-8 relative. *)
Lemma star1_coefficient_not_quarter :
  coefficient Stencil.star1_terms 0 1 = Some 0.5%Q
  /\ ~ (Qabs (0.5 - 1 / inject_Z (4 * 1 * 1))
        <= 1e-8 * (1 / inject_Z (4 * 1 * 1)))%Q.
Proof.
  split; [reflexivity|]. intros H. apply Qle_bool_iff in H.
  vm_compute in H. discriminate.
Qed.

(** ** The stencil driver: choice of the kernel and command line *)

(** [size_t] of an [int] value. *)
Lemma to_size_t_int (z : Z) :
  - 2 ^ 31 <= z < 2 ^ 31 ->
  to_size_t z = if z <? 0 then z + 2 ^ 64 else z.
Proof.
  intros Hz. unfold to_size_t. destruct (Z.ltb_spec z 0).
  - rewrite <- (Z.mod_add z 1 (2 ^ 64)) by lia. apply Z.mod_small. lia.
  - apply Z.mod_small. lia.
Qed.

Lemma arg_string_Parsed (argv : list string) (k : nat) (s : string) :
  arg_string argv k = Parsed s <-> argv !! k = Some s.
Proof.
  unfold arg_string, argv_at. destruct (argv !! k) as [s'|].
  - split; intros [= ->]; reflexivity.
  - destruct (k =? length argv)%nat; split; discriminate.
Qed.

Lemma arg_string_absent (argv : list string) (k : nat) :
  (argc argv >? Z.of_nat k) = false -> argv !! k = None.
Proof.
  unfold argc. intros H. apply lookup_ge_None_2.
  destruct (Z.gtb_spec (Z.of_nat (length argv)) (Z.of_nat k)); [discriminate|].
  lia.
Qed.

Section StencilDriver.
Context {F : Type} {D : Double F}.
Variable PRKVERSION : string.
Variable get_max_matrix_size : Z.
Variable wtime : list Stencil.op -> F.

Lemma select_nothing (star : bool) (radius : Z) :
  star = false \/ radius < 1 \/ 5 < radius ->
  Stencil.select star radius = Stencil.nothing (F := F).
Proof.
  intros H. unfold Stencil.select. destruct star; [|reflexivity].
  destruct H as [H|H]; [discriminate|].
  repeat match goal with
         | |- context [radius =? ?k] =>
             destruct (Z.eqb_spec radius k); [lia|]
         end.
  reflexivity.
Qed.

(** C7.  When the requested shape and radius have no kernel in the
    driver's case-switch (the grid shape at any radius, the star shape at
    a radius outside 1..5), the driver selects [nothing]; its first call,
    in the first loop body, prints the diagnostic and aborts: no stencil
    is applied and nothing is validated. *)
Theorem unsupported_stencil_aborts (fuel : nat) (c : Stencil.config) :
  Stencil.star c = false \/ Stencil.radius c < 1 \/ 5 < Stencil.radius c ->
  0 <= Stencil.iterations c -> (0 < fuel)%nat ->
  Stencil.select (Stencil.star c) (Stencil.radius c) = Stencil.nothing (F := F)
  /\ Stencil.run_kernels wtime fuel c = Aborted no_such_stencil
  /\ snd (Stencil.run wtime fuel c) = Fatal (AbortCalled no_such_stencil)
  /\ In (Text "You are trying to use a stencil that does not exist.")
        (fst (Stencil.run wtime fuel c)).
Proof.
  intros Hc Hit Hfuel.
  pose proof (select_nothing _ _ Hc) as Hsel.
  assert (Hrun : Stencil.run_kernels wtime fuel c = Aborted no_such_stencil).
  { unfold Stencil.run_kernels. rewrite Hsel.
    destruct fuel as [|fuel]; [lia|]. cbn [for_loop].
    destruct (Z.leb_spec 0 (Stencil.iterations c)); [|lia]. reflexivity. }
  split; [exact Hsel|]. split; [exact Hrun|].
  unfold Stencil.run. rewrite Hrun. cbn [mbind result_bind finish fst snd].
  split; [reflexivity|].
  apply in_or_app. right. left. reflexivity.
Qed.

(** C10.  A shape argument other than "grid" is read exactly as "star"
    is: the command line is accepted or rejected as it would be with
    "star" in its place, an accepted one selects the star stencil, and a
    command line whose other arguments pass the checks (counts that fit an
    [int], a dimension within the limit, a radius with
    [2 * radius + 1 <= n]) is accepted, with the star stencil: the token
    is never reported as an error. *)
Theorem other_shape_selects_star (argv : list string) (shape : string) :
  argv !! 4%nat = Some shape -> shape <> "grid" ->
  Stencil.parse_args get_max_matrix_size argv
  = Stencil.parse_args get_max_matrix_size (<[4%nat := "star"]> argv)
  /\ (forall c, Stencil.parse_args get_max_matrix_size argv = Parsed c ->
        Stencil.star c = true
        /\ Stencil.select (F := F) (Stencil.star c) (Stencil.radius c)
           = Stencil.select true (Stencil.radius c))
  /\ forall a1 a2 a3,
       argv !! 1%nat = Some a1 -> argv !! 2%nat = Some a2 ->
       argv !! 3%nat = Some a3 ->
       1 <= atoi a1 < 2 ^ 31 ->
       1 <= atoi a2 < 2 ^ 31 -> atoi a2 <= get_max_matrix_size ->
       - 2 ^ 31 <= atoi a3 < 2 ^ 31 ->
       let radius := match argv !! 5%nat with
                     | Some a5 => atoi a5
                     | None => 2
                     end in
       1 <= radius -> 2 * radius + 1 <= atoi a2 ->
       Stencil.parse_args get_max_matrix_size argv
       = Parsed {| Stencil.iterations := atoi a1; Stencil.n := atoi a2;
                   Stencil.tile_size :=
                     if (1 <=? atoi a3) && (atoi a3 <=? atoi a2)
                     then atoi a3 else atoi a2;
                   Stencil.star := true; Stencil.radius := radius |}.
Proof.
  intros H4 Hne.
  assert (Hlen : (4 < length argv)%nat) by (eapply lookup_lt_Some; eauto).
  assert (Hargc : argc (<[4%nat := "star"]> argv) = argc argv)
    by (unfold argc; rewrite length_insert; reflexivity).
  assert (Hother : forall k, k <> 4%nat ->
            arg_string (<[4%nat := "star"]> argv) k = arg_string argv k).
  { intros k Hk. unfold arg_string, argv_at.
    rewrite list_lookup_insert_ne, length_insert by congruence. reflexivity. }
  assert (Hshape : arg_string argv 4 = Parsed shape).
  { unfold arg_string, argv_at. rewrite H4. reflexivity. }
  assert (Hstar : arg_string (<[4%nat := "star"]> argv) 4 = Parsed "star").
  { unfold arg_string, argv_at. rewrite list_lookup_insert_eq by exact Hlen.
    reflexivity. }
  assert (Heqb : String.eqb shape "grid" = false)
    by (apply String.eqb_neq; exact Hne).
  assert (Hparse :
    Stencil.parse_args get_max_matrix_size argv
    = Stencil.parse_args get_max_matrix_size (<[4%nat := "star"]> argv)).
  { unfold Stencil.parse_args.
    rewrite Hargc, (Hother 1%nat), (Hother 2%nat), (Hother 3%nat),
      (Hother 5%nat), Hshape, Hstar by lia.
    cbn [mbind parsed_bind]. rewrite Heqb. reflexivity. }
  split; [exact Hparse|].
  assert (Hargc4 : (argc argv >? 4) = true)
    by (unfold argc; apply Z.gtb_lt; lia).
  split.
  - intros c Hc. assert (Stencil.star c = true); [|split; [|congruence]; auto].
    unfold Stencil.parse_args in Hc. rewrite Hshape in Hc.
    cbn [mbind parsed_bind] in Hc. rewrite Heqb in Hc.
    rewrite Hargc4 in Hc.
    repeat match type of Hc with
           | (if ?b then _ else _) = _ => destruct b
           | parsed_bind _ _ _ ?m = _ =>
               let x := fresh in destruct m as [?|x| |]; cbn [parsed_bind] in Hc
           | (_ ≫= _) = _ => unfold mbind in Hc
           end; try discriminate.
    all: injection Hc as <-; reflexivity.
  - intros a1 a2 a3 H1 H2 H3 Hit Hn Hmax Ht radius Hr1 Hr2.
    unfold Stencil.parse_args.
    assert (Hargc3 : (argc argv <? 3) = false)
      by (unfold argc; apply Z.ltb_ge; lia).
    assert (Hargc3' : (argc argv >? 3) = true)
      by (unfold argc; apply Z.gtb_lt; lia).
    rewrite Hargc3, Hargc3', Hargc4, Hshape,
      (proj2 (arg_string_Parsed argv 1 a1) H1),
      (proj2 (arg_string_Parsed argv 2 a2) H2),
      (proj2 (arg_string_Parsed argv 3 a3) H3).
    cbn [mbind parsed_bind]. rewrite Heqb.
    rewrite (to_size_t_int (atoi a2)), (to_size_t_int (atoi a3)) by lia.
    destruct (Z.ltb_spec (atoi a1) 1); [lia|].
    destruct (Z.ltb_spec (atoi a2) 0); [lia|].
    destruct (Z.ltb_spec (atoi a2) 1); [lia|].
    destruct (Z.gtb_spec (atoi a2) get_max_matrix_size); [lia|].
    assert (Htile :
      (if (if (if atoi a3 <? 0 then atoi a3 + 2 ^ 64 else atoi a3) <=? 0
           then atoi a2
           else if atoi a3 <? 0 then atoi a3 + 2 ^ 64 else atoi a3)
          >? atoi a2
       then atoi a2
       else if (if atoi a3 <? 0 then atoi a3 + 2 ^ 64 else atoi a3) <=? 0
            then atoi a2
            else if atoi a3 <? 0 then atoi a3 + 2 ^ 64 else atoi a3)
      = (if (1 <=? atoi a3) && (atoi a3 <=? atoi a2)
         then atoi a3 else atoi a2)).
    { repeat match goal with
             | |- context [?a <? ?b] => destruct (Z.ltb_spec a b); lazy iota
             | |- context [?a <=? ?b] => destruct (Z.leb_spec a b); lazy iota
             | |- context [?a >? ?b] => destruct (Z.gtb_spec a b); lazy iota
             end; cbn [andb]; lia. }
    rewrite Htile.
    assert (Hrad : (radius <? 1) || (to_size_t (2 * radius + 1) >? atoi a2)
                   = false).
    { apply orb_false_iff. split; [apply Z.ltb_ge; lia|].
      unfold to_size_t. rewrite Z.mod_small by lia.
      destruct (Z.gtb_spec (2 * radius + 1) (atoi a2)); [lia | reflexivity]. }
    unfold radius in *. clear radius.
    destruct (argv !! 5%nat) as [a5|] eqn:Hlk5.
    + assert (Hargc5 : (argc argv >? 5) = true).
      { unfold argc. apply Z.gtb_lt. apply lookup_lt_Some in Hlk5. lia. }
      rewrite Hargc5, (proj2 (arg_string_Parsed argv 5 a5) Hlk5).
      cbn [mbind parsed_bind].
      rewrite (to_size_t_int (atoi a5)) by lia.
      destruct (Z.ltb_spec (atoi a5) 0); [lia|].
      rewrite Hrad. reflexivity.
    + assert (Hargc5 : (argc argv >? 5) = false).
      { unfold argc. apply lookup_ge_None_1 in Hlk5.
        destruct (Z.gtb_spec (Z.of_nat (length argv)) 5); [lia | reflexivity]. }
      rewrite Hargc5. cbn [mbind parsed_bind]. rewrite Hrad. reflexivity.
Qed.

End StencilDriver.

(** ** The stencil driver: the timed loop *)

Lemma grid_updated_all {F : Type} (n : Z) (R : Z -> Z -> bool)
    (g : Z -> Z -> F -> F) (f : F -> F) (s0 s : list F) :
  0 <= n -> Z.of_nat (length s0) = n * n ->
  grid_updated n R g s0 s ->
  (forall i j, 0 <= i < n -> 0 <= j < n -> R i j = true /\ g i j = f) ->
  s = f <$> s0.
Proof.
  intros Hn Hlen [Hl Hs] Hall. apply list_eq. intros k.
  rewrite list_lookup_fmap.
  destruct (decide (k < length s0)%nat) as [Hk|Hk].
  - destruct (grid_cells_cover n k Hn ltac:(lia)) as (i & j & Hi & Hj & ->).
    rewrite Hs by assumption. destruct (Hall i j Hi Hj) as [-> ->].
    reflexivity.
  - rewrite !lookup_ge_None_2 by lia. reflexivity.
Qed.

(** A list built row by row, each row of [m] elements. *)
Lemma rows_lookup {A X : Type} (row : X -> list A) (m : nat) (xs : list X) :
  (forall x, length (row x) = m) ->
  length (xs ≫= row) = (length xs * m)%nat
  /\ forall (a b : nat) (x : X),
       xs !! a = Some x -> (b < m)%nat ->
       (xs ≫= row) !! (a * m + b)%nat = row x !! b.
Proof.
  intros Hrow. induction xs as [|x0 xs [IHlen IH]].
  - split; [reflexivity|]. intros a b x Hx. discriminate.
  - cbn [mbind list_bind]. fold (xs ≫= row). split.
    + rewrite length_app, IHlen, Hrow. reflexivity.
    + intros [|a] b x Hx Hb.
      * injection Hx as ->. apply lookup_app_l. rewrite Hrow. exact Hb.
      * cbn in Hx. rewrite lookup_app_r by (rewrite Hrow; lia).
        rewrite Hrow.
        replace (S a * m + b - m)%nat with (a * m + b)%nat by lia.
        apply IH; assumption.
Qed.

(** The grid filled with [f i j] at cell [(i, j)]. *)
Lemma grid_init {F : Type} (n : Z) (f : Z -> Z -> F) :
  0 <= n ->
  Z.of_nat (length (i ← seqZ 0 n; j ← seqZ 0 n; [f i j])) = n * n
  /\ forall i j, 0 <= i < n -> 0 <= j < n ->
       (i ← seqZ 0 n; j ← seqZ 0 n; [f i j]) !! cell n i j = Some (f i j).
Proof.
  intros Hn.
  assert (Hrow : forall i,
            length (j ← seqZ 0 n; [f i j]) = Z.to_nat n
            /\ forall j, 0 <= j < n ->
                 (j ← seqZ 0 n; [f i j]) !! Z.to_nat j = Some (f i j)).
  { intros i.
    destruct (rows_lookup (fun j => [f i j]) 1 (seqZ 0 n) ltac:(reflexivity))
      as [Hlen Hlk].
    split.
    - rewrite Hlen, length_seqZ. lia.
    - intros j Hj.
      specialize (Hlk (Z.to_nat j) 0%nat j).
      rewrite Nat.mul_1_r, Nat.add_0_r in Hlk. rewrite Hlk; [reflexivity| |lia].
      rewrite lookup_seqZ_lt by lia. f_equal. lia. }
  destruct (rows_lookup (fun i => j ← seqZ 0 n; [f i j]) (Z.to_nat n)
              (seqZ 0 n) (fun i => proj1 (Hrow i))) as [Hlen Hlk].
  split.
  - rewrite Hlen, length_seqZ. nia.
  - intros i j Hi Hj. unfold cell.
    replace (Z.to_nat (i * n + j))
      with (Z.to_nat i * Z.to_nat n + Z.to_nat j)%nat by nia.
    rewrite (Hlk (Z.to_nat i) (Z.to_nat j) i).
    + apply (proj2 (Hrow i)). exact Hj.
    + rewrite lookup_seqZ_lt by lia. f_equal. lia.
    + lia.
Qed.

Section StencilLoop.
Context {F : Type} {D : Double F}.
Variable wtime : list Stencil.op -> F.

Lemma add_constant_spec (n : Z) (d_in : list F) :
  0 <= n -> Z.of_nat (length d_in) = n * n ->
  Stencil.add_constant n d_in = Ok (perturb <$> d_in).
Proof.
  intros Hn Hlen. unfold Stencil.add_constant.
  set (g := fun (_ _ : Z) => perturb).
  destruct (foldM_seqZ_rule
              (fun i s => grid_updated n (rect 0 i 0 n) g d_in s)
              (Z.to_nat n) 0
              (fun i d_in0 =>
                 foldM (fun j d_in1 =>
                          upd d_in1 (i * n + j) (fun x => dadd x (dofZ 1)))
                       (seqZ 0 n) d_in0) d_in)
    as (s & Hrun & Hs).
  - eapply grid_updated_ext; [|apply grid_updated_none]. region.
  - intros i s Hi Hs.
    destruct (foldM_seqZ_rule
                (fun j s' => grid_updated n
                               (fun i' j' => rect 0 i 0 n i' j'
                                             || rect i (i + 1) 0 j i' j')
                               g d_in s')
                (Z.to_nat n) 0
                (fun j d_in1 =>
                   upd d_in1 (i * n + j) (fun x => dadd x (dofZ 1))) s)
      as (s' & Hrun' & Hs').
    + eapply grid_updated_ext; [|exact Hs]. region.
    + intros j s1 Hj Hs1.
      destruct (upd_in_range s1 (i * n + j) (fun x => dadd x (dofZ 1)))
        as [s2 Hs2].
      { destruct Hs1 as [Hl _]. nia. }
      exists s2. split; [exact Hs2|].
      eapply grid_updated_ext;
        [|eapply (grid_updated_then _ _ _ _ _ _ _ Hs1)].
      * intros i' j' Hi' Hj'. cbv beta.
        instantiate (1 := fun i' j' => (i' =? i) && (j' =? j)). region.
      * eapply grid_updated_one; [| |exact Hs2|reflexivity]; lia.
      * region.
    + rewrite Z2Nat.id in Hrun', Hs' by lia.
      exists s'. split; [exact Hrun'|].
      eapply grid_updated_ext; [|exact Hs']. region.
  - rewrite Z2Nat.id in Hrun, Hs by lia. rewrite Hrun. f_equal.
    apply (grid_updated_all n _ g perturb d_in s Hn Hlen Hs).
    intros i j Hi Hj. split; [region | reflexivity].
Qed.

(** The timed loop of a run with one of the star kernels: [iterations + 1]
    bodies, each one kernel application on the current grids followed by
    one perturbation of every input cell; the clock is first read after
    the first body.  [P k inp out] is any property of the grids after [k]
    bodies that the bodies preserve. *)
Lemma stencil_loop (P : nat -> list F -> list F -> Prop) (fuel : nat)
    (c : Stencil.config) :
  Stencil.star c = true -> 1 <= Stencil.radius c <= 5 ->
  0 < Stencil.tile_size c -> 0 <= Stencil.n c ->
  1 <= Stencil.iterations c ->
  (Z.to_nat (Stencil.iterations c) + 1 < fuel)%nat ->
  (Z.to_nat (Stencil.n c) < fuel)%nat ->
  P 0%nat (Stencil.initial_in (Stencil.n c)) (Stencil.initial_out (Stencil.n c)) ->
  (forall k inp out out',
     P k inp out ->
     Z.of_nat (length inp) = Stencil.n c * Stencil.n c ->
     Z.of_nat (length out) = Stencil.n c * Stencil.n c ->
     Stencil.select true (Stencil.radius c) fuel (Stencil.n c)
       (Stencil.tile_size c) inp out = Ok out' ->
     P (S k) (perturb <$> inp) out') ->
  let bodies := Z.to_nat (Stencil.iterations c + 1) in
  exists st,
    Stencil.run_kernels wtime fuel c = Ok st
    /\ P bodies (Stencil.d_in st) (Stencil.d_out st)
    /\ Stencil.d_in st
       = Nat.iter bodies (fmap perturb) (Stencil.initial_in (Stencil.n c))
    /\ Z.of_nat (length (Stencil.d_out st)) = Stencil.n c * Stencil.n c
    /\ Stencil.submitted st = mjoin (replicate bodies body_ops)
    /\ Stencil.stencil_time st
       = dsub (wtime (mjoin (replicate bodies body_ops))) (wtime body_ops).
Proof.
  intros Hstar Hr Ht Hn Hit Hfuel1 Hfuel2 HP0 HPstep bodies.
  unfold Stencil.run_kernels. rewrite Hstar.
  destruct (for_loop_rule
              (fun iter st =>
                 0 <= iter <= Stencil.iterations c + 1
                 /\ P (Z.to_nat iter) (Stencil.d_in st) (Stencil.d_out st)
                 /\ Stencil.d_in st
                    = Nat.iter (Z.to_nat iter) (fmap perturb)
                        (Stencil.initial_in (Stencil.n c))
                 /\ Z.of_nat (length (Stencil.d_in st))
                    = Stencil.n c * Stencil.n c
                 /\ Z.of_nat (length (Stencil.d_out st))
                    = Stencil.n c * Stencil.n c
                 /\ Stencil.submitted st
                    = mjoin (replicate (Z.to_nat iter) body_ops)
                 /\ (1 < iter -> Stencil.stencil_time st = wtime body_ops))
              (Stencil.iterations c + 1) fuel 0
              (fun iter => iter <=? Stencil.iterations c)
              (fun iter => iter + 1)
              (Stencil.loop_body wtime fuel c
                 (Stencil.select true (Stencil.radius c)))
              {| Stencil.d_in := Stencil.initial_in (Stencil.n c);
                 Stencil.d_out := Stencil.initial_out (Stencil.n c);
                 Stencil.stencil_time := dofZ 0; Stencil.submitted := [] |})
    as (i' & st & -> & Hi' & Hstop & Hrange & HP & Hin & Hlin & Hlout & Hops
        & Htime).
  - cbn [Stencil.d_in Stencil.d_out Stencil.submitted Stencil.stencil_time].
    repeat split; try lia; try exact HP0; try reflexivity.
    + apply (grid_init (Stencil.n c) (fun i j => dofZ (i + j)) Hn).
    + apply (grid_init (Stencil.n c) (fun _ _ => dofZ 0) Hn).
  - intros i Hi Hc. apply Z.leb_le in Hc. lia.
  - intros i [inp out time ops] Hi Hc
           (Hrange & HP & Hin & Hlin & Hlout & Hops & Htime).
    apply Z.leb_le in Hc.
    cbn [Stencil.d_in Stencil.d_out Stencil.submitted Stencil.stencil_time]
      in *.
    unfold Stencil.loop_body.
    cbn [Stencil.d_in Stencil.d_out Stencil.submitted Stencil.stencil_time].
    assert (Hk : exists out',
              Stencil.select true (Stencil.radius c) fuel (Stencil.n c)
                (Stencil.tile_size c) inp out = Ok out'
              /\ length out' = length out).
    { unfold Stencil.select.
      assert (Hcases : Stencil.radius c = 1 \/ Stencil.radius c = 2
                       \/ Stencil.radius c = 3 \/ Stencil.radius c = 4
                       \/ Stencil.radius c = 5) by lia.
      destruct Hcases as [->|[->|[->|[->| ->]]]]; cbn [Z.eqb Pos.eqb];
        unfold Stencil.star1, Stencil.star2, Stencil.star3, Stencil.star4,
          Stencil.star5;
        match goal with
        | |- exists _, Stencil.stencil_of ?r ?ws _ _ _ _ _ = _ /\ _ =>
            destruct (stencil_of_spec fuel r ws (Stencil.n c)
                        (Stencil.tile_size c) inp out ltac:(lia)
                        ltac:(vm_compute; reflexivity) Ht Hlin Hlout Hfuel2)
              as (out' & Hrun & Hlen' & _);
            exists out'; split; [exact Hrun | exact Hlen']
        end. }
    destruct Hk as (out' & Hrun & Hlen').
    rewrite Hrun. cbn [mbind result_bind].
    rewrite (add_constant_spec (Stencil.n c) inp Hn Hlin).
    cbn [mbind result_bind].
    eexists; split; [reflexivity|].
    cbn [Stencil.d_in Stencil.d_out Stencil.submitted Stencil.stencil_time].
    replace (Z.to_nat (i + 1)) with (S (Z.to_nat i)) by lia.
    repeat split; try lia.
    + eapply HPstep; eauto.
    + cbn [Nat.iter nat_rect]. rewrite Hin. reflexivity.
    + rewrite length_fmap. exact Hlin.
    + rewrite replicate_S_end, join_app. cbn [mjoin list_join].
      rewrite app_nil_r, Hops. reflexivity.
    + intros Hi1. destruct (Z.eqb_spec i 1) as [->|Hne].
      * rewrite Hops. cbn. reflexivity.
      * apply Htime. lia.
  - lia.
  - apply Z.leb_gt in Hstop.
    assert (i' = Stencil.iterations c + 1) by lia. subst i'.
    eexists; split; [reflexivity|].
    cbn [Stencil.d_in Stencil.d_out Stencil.submitted Stencil.stencil_time].
    fold bodies in HP, Hin, Hops.
    rewrite Hops, Htime by lia. repeat split; auto.
Qed.

End StencilLoop.

Lemma select_star {F : Type} {D : Double F} (r : Z) :
  1 <= r <= 5 ->
  Stencil.select (F := F) true r = Stencil.stencil_of r (star_terms r)
  /\ fits r (star_terms r) = true
  /\ coef_sum (star_terms r) = 0%Qc.
Proof.
  intros Hr.
  assert (Hcases : r = 1 \/ r = 2 \/ r = 3 \/ r = 4 \/ r = 5) by lia.
  destruct Hcases as [->|[->|[->|[->| ->]]]];
    (split; [reflexivity|]; split;
     [vm_compute; reflexivity | apply Qc_is_canon; vm_compute; reflexivity]).
Qed.

Section KernelGrids.
Context {F : Type} {D : Double F}.


Lemma applied_length (r : Z) (ws : list Stencil.term) (n : Z)
    (inp out : list F) :
  length (applied r ws n inp out) = length out.
Proof. unfold applied. apply length_imap. Qed.

End KernelGrids.



(** ** The stencil driver in exact arithmetic *)

(** The operations of [exact] by their names in [Qc]. *)
Ltac exact_ops :=
  change (@dadd Qc exact) with Qcplus in *;
  change (@dsub Qc exact) with Qcminus in *;
  change (@dmul Qc exact) with Qcmult in *;
  change (@ddiv Qc exact) with Qcdiv in *;
  change (@dofZ Qc exact) with Zc in *;
  change (@dlit Qc exact) with Q2Qc in *.

Section StencilExactRun.
Local Open Scope Qc_scope.
Variable wtime : list Stencil.op -> Qc.

Lemma grids_after_init (c : Stencil.config) :
  (0 <= Stencil.n c)%Z ->
  grids_after c 0 (Stencil.initial_in (Stencil.n c))
    (Stencil.initial_out (Stencil.n c)).
Proof.
  intros Hn i j Hi Hj. unfold Stencil.initial_in, Stencil.initial_out.
  rewrite (proj2 (grid_init (Stencil.n c) (fun i j => dofZ (i + j)) Hn))
    by assumption.
  rewrite (proj2 (grid_init (Stencil.n c) (fun _ _ => dofZ 0%Z) Hn))
    by assumption.
  cbv beta. change (@dofZ Qc exact 0%Z) with 0. exact_ops.
  change (Zc (Z.of_nat 0)) with 0. split.
  - f_equal. ring.
  - f_equal. destruct (interior _ _ i j); [ring | reflexivity].
Qed.

Lemma grids_after_step (fuel : nat) (c : Stencil.config) (k : nat)
    (inp out out' : list Qc) :
  (1 <= Stencil.radius c <= 5)%Z -> (0 < Stencil.tile_size c)%Z ->
  (Z.to_nat (Stencil.n c) < fuel)%nat ->
  grids_after c k inp out ->
  Z.of_nat (length inp) = (Stencil.n c * Stencil.n c)%Z ->
  Z.of_nat (length out) = (Stencil.n c * Stencil.n c)%Z ->
  Stencil.select true (Stencil.radius c) fuel (Stencil.n c)
    (Stencil.tile_size c) inp out = Ok out' ->
  grids_after c (S k) (perturb <$> inp) out'.
Proof.
  intros Hr Ht Hfuel HP Hlin Hlout Hrun.
  destruct (select_star (D := exact) (Stencil.radius c) Hr)
    as (Hsel & Hfit & Hzero).
  rewrite Hsel in Hrun.
  destruct (stencil_of_spec fuel (Stencil.radius c)
              (star_terms (Stencil.radius c)) (Stencil.n c)
              (Stencil.tile_size c) inp out ltac:(lia) Hfit Ht Hlin Hlout
              Hfuel) as (out1 & Hrun1 & _ & Hupd).
  rewrite Hrun in Hrun1. injection Hrun1 as <-.
  intros i j Hi Hj. destruct (HP i j Hi Hj) as [Hin Hout]. split.
  - rewrite list_lookup_fmap, Hin. cbn [fmap option_fmap option_map].
    f_equal. unfold perturb. exact_ops.
    replace (Z.of_nat (S k)) with (Z.of_nat k + 1)%Z by lia.
    rewrite !Zc_add. ring.
  - rewrite (Hupd i j Hi Hj), Hout.
    destruct (interior (Stencil.radius c) (Stencil.n c) i j) eqn:Hint;
      [|reflexivity].
    cbn [fmap option_fmap option_map]. f_equal. unfold accumulate.
    rewrite (weighted_sum_exact _ (Stencil.n c) inp i j
               (fun w => (Zc (i + j) + Zc (Z.of_nat k))
                         + Zc (Stencil.di w + Stencil.dj w))).
    + rewrite Qc_sum_affine, Hzero. exact_ops.
      replace (Z.of_nat (S k)) with (Z.of_nat k + 1)%Z by lia.
      rewrite !Zc_add. change (Zc 1) with 1. ring.
    + intros w Hw.
      destruct (neighbour_in_grid (Stencil.radius c) (Stencil.n c) i j
                  (star_terms (Stencil.radius c)) w ltac:(lia) Hint Hfit Hw)
        as [Hi' Hj'].
      destruct (HP _ _ Hi' Hj') as [Hin' _].
      apply rd_Ok. split; [nia|]. fold (cell (Stencil.n c)
        (i + Stencil.di w) (j + Stencil.dj w)).
      rewrite Hin'. f_equal.
      replace (i + Stencil.di w + (j + Stencil.dj w))%Z
        with (i + j + (Stencil.di w + Stencil.dj w))%Z by lia.
      rewrite !Zc_add. ring.
Qed.

(** The norm of an output grid whose interior cells all hold [v]. *)
Lemma l1_norm_exact (fuel : nat) (c : Stencil.config) (out : list Qc)
    (v : Qc) :
  (1 <= Stencil.radius c)%Z ->
  (2 * Stencil.radius c + 1 <= Stencil.n c < 2 ^ 31)%Z ->
  (Z.to_nat (Stencil.n c) < fuel)%nat ->
  (forall i j, interior (Stencil.radius c) (Stencil.n c) i j = true ->
     out !! cell (Stencil.n c) i j = Some v) ->
  Stencil.l1_norm fuel c out = Ok (dabs v).
Proof.
  intros Hr Hn Hfuel Hout. unfold Stencil.l1_norm.
  set (r := Stencil.radius c) in *. set (n := Stencil.n c) in *.
  set (m := (n - 2 * r)%Z).
  destruct (for_loop_rule
              (fun i norm => (r <= i <= n - r)%Z
                             /\ norm = Zc ((i - r) * m) * dabs v)
              (n - r)%Z fuel r (fun i => (i <? n - r)%Z) (fun i => (i + 1)%Z)
              (fun i =>
                 for_loop fuel r (fun j => (j <? n - r)%Z)
                   (fun j => (j + 1)%Z)
                   (fun j norm =>
                      o ← rd out (i * n + j)%Z; Ok (dadd norm (dabs o))))
              (dlit 0.0%Q))
    as (i' & norm & -> & Hi' & Hstop & Hrange & ->).
  - split; [unfold m; lia|]. replace ((r - r) * m)%Z with 0%Z by lia.
    exact_ops. change (Zc 0) with 0.
    transitivity 0; [apply Qc_is_canon; reflexivity | ring].
  - intros i Hi Hc. apply Z.ltb_lt in Hc. lia.
  - intros i norm Hi Hc [Hrange ->]. apply Z.ltb_lt in Hc.
    destruct (for_loop_rule
                (fun j norm => (r <= j <= n - r)%Z
                               /\ norm = Zc ((i - r) * m + (j - r)) * dabs v)
                (n - r)%Z fuel r (fun j => (j <? n - r)%Z)
                (fun j => (j + 1)%Z)
                (fun j norm =>
                   o ← rd out (i * n + j)%Z; Ok (dadd norm (dabs o)))
                (Zc ((i - r) * m) * dabs v))
      as (j' & norm' & Hrun & Hj' & Hstop' & Hrange' & ->).
    + split; [unfold m; lia|]. do 2 f_equal. lia.
    + intros j Hj Hc'. apply Z.ltb_lt in Hc'. lia.
    + intros j norm0 Hj Hc' [Hrange0 ->]. apply Z.ltb_lt in Hc'.
      assert (Hrd : rd out (i * n + j)%Z = Ok v).
      { apply rd_Ok. split; [nia|]. apply Hout. unfold interior. region. }
      rewrite Hrd. cbn [mbind result_bind].
      eexists; split; [reflexivity|]. split; [lia|]. exact_ops.
      replace ((i - r) * m + (j + 1 - r))%Z
        with ((i - r) * m + (j - r) + 1)%Z by lia.
      rewrite (Zc_add _ 1). change (Zc 1) with 1. ring.
    + lia.
    + apply Z.ltb_ge in Hstop'. eexists. split; [exact Hrun|].
      split; [lia|]. do 2 f_equal. unfold m. lia.
  - lia.
  - apply Z.ltb_ge in Hstop. cbn [mbind result_bind]. f_equal.
    assert (i' = (n - r)%Z) by lia. subst i'.
    unfold Stencil.active_points. fold r n m.
    unfold to_size_t. rewrite !(Z.mod_small m), Z.mod_small by (unfold m; nia).
    exact_ops. replace (n - r - r)%Z with m by (unfold m; lia).
    assert (Hm : Zc (m * m) <> 0).
    { change 0 with (Zc 0). intros H. apply Zc_inj in H. unfold m in H. nia. }
    field. exact Hm.
Qed.

(** A run on a star kernel, in exact arithmetic: the norm is
    [|(iterations + 1) * slope|] and the comparison with the reference
    norm decides the exit code. *)
Lemma star_run_exact (fuel : nat) (c : Stencil.config) :
  Stencil.star c = true -> (1 <= Stencil.radius c <= 5)%Z ->
  (2 * Stencil.radius c + 1 <= Stencil.n c < 2 ^ 31)%Z ->
  (0 < Stencil.tile_size c)%Z -> (1 <= Stencil.iterations c)%Z ->
  (Z.to_nat (Stencil.iterations c) + 1 < fuel)%nat ->
  (Z.to_nat (Stencil.n c) < fuel)%nat ->
  let norm := dabs (Zc (Stencil.iterations c + 1)
                    * slope (star_terms (Stencil.radius c))) in
  exists st,
    Stencil.run_kernels wtime fuel c = Ok st
    /\ Stencil.l1_norm fuel c (Stencil.d_out st) = Ok norm
    /\ snd (Stencil.run wtime fuel c)
       = Exit (if dgt (dabs (norm - Stencil.reference_norm c))
                      Stencil.epsilon
               then 1 else 0).
Proof.
  intros Hstar Hr Hn Ht Hit Hfuel1 Hfuel2 norm.
  destruct (stencil_loop wtime (grids_after c) fuel c Hstar Hr Ht
              ltac:(lia) Hit Hfuel1 Hfuel2)
    as (st & Hrun & HP & _).
  { apply grids_after_init. lia. }
  { intros k inp out out'. apply grids_after_step; assumption. }
  assert (Hnorm : Stencil.l1_norm fuel c (Stencil.d_out st) = Ok norm).
  { apply l1_norm_exact; try assumption; try lia.
    intros i j Hint.
    assert (Hij : (0 <= i < Stencil.n c)%Z /\ (0 <= j < Stencil.n c)%Z).
    { unfold interior, rect in Hint. revert Hint. region_to_prop. lia. }
    destruct (HP i j (proj1 Hij) (proj2 Hij)) as [_ Hout].
    rewrite Hout, Hint. rewrite Z2Nat.id by lia. reflexivity. }
  exists st. split; [exact Hrun|]. split; [exact Hnorm|].
  unfold Stencil.run. rewrite Hrun. cbn [mbind result_bind].
  rewrite Hnorm. cbn [mbind result_bind finish]. unfold Stencil.validate.
  exact_ops.
  destruct (dgt (dabs (norm - Stencil.reference_norm c)) Stencil.epsilon);
    reflexivity.
Qed.

End StencilExactRun.

(** ** The stencil validation *)

(** X18.  With the star kernels of radius 1 and 2, whose coefficients are
    binary fractions, the run validates in exact arithmetic for every
    grid and every number of iterations below [INT_MAX] (so that the loop
    counter does not overflow): the norm is the reference norm
    [2 * (iterations + 1)] itself. *)
Lemma small_radius_validates_exact (wtime : list Stencil.op -> Qc)
    (fuel : nat) (c : Stencil.config) :
  Stencil.star c = true -> 1 <= Stencil.radius c <= 2 ->
  2 * Stencil.radius c + 1 <= Stencil.n c < 2 ^ 31 ->
  0 < Stencil.tile_size c -> 1 <= Stencil.iterations c < INT_MAX ->
  (Z.to_nat (Stencil.iterations c) + 1 < fuel)%nat ->
  (Z.to_nat (Stencil.n c) < fuel)%nat ->
  exists st,
    Stencil.run_kernels wtime fuel c = Ok st
    /\ Stencil.l1_norm fuel c (Stencil.d_out st)
       = Ok (Zc (2 * (Stencil.iterations c + 1)))
    /\ snd (Stencil.run wtime fuel c) = Exit 0.
Proof.
  intros Hstar Hr Hn Ht Hit Hfuel1 Hfuel2.
  destruct (star_run_exact wtime fuel c Hstar ltac:(lia) Hn Ht (proj1 Hit)
              Hfuel1 Hfuel2) as (st & Hrun & Hnorm & Hexit).
  cbv zeta in Hnorm, Hexit.
  assert (Hslope : slope (star_terms (Stencil.radius c)) = Zc 2).
  { assert (Hcases : Stencil.radius c = 1 \/ Stencil.radius c = 2) by lia.
    destruct Hcases as [-> | ->]; apply Qc_is_canon; vm_compute; reflexivity. }
  assert (Hval : dabs (Zc (Stencil.iterations c + 1)
                       * slope (star_terms (Stencil.radius c)))%Qc
                 = Zc (2 * (Stencil.iterations c + 1))).
  { rewrite Hslope, <- Zc_mul, dabs_nonneg.
    - f_equal. lia.
    - change 0%Qc with (Zc 0).
      apply (proj1 (Zc_le 0 ((Stencil.iterations c + 1) * 2))). lia. }
  rewrite Hval in Hnorm, Hexit.
  assert (Href : Stencil.reference_norm c = Zc (2 * (Stencil.iterations c + 1))).
  { unfold Stencil.reference_norm. exact_ops.
    replace (Q2Qc 2.0) with (Zc 2) by (apply Qc_is_canon; reflexivity).
    replace (Q2Qc 1.0) with (Zc 1) by (apply Qc_is_canon; reflexivity).
    rewrite <- Zc_add, <- Zc_mul. reflexivity. }
  rewrite Href in Hexit.
  replace (Zc (2 * (Stencil.iterations c + 1))
           - Zc (2 * (Stencil.iterations c + 1)))%Qc with 0%Qc in Hexit by ring.
  exists st. repeat split; assumption.
Qed.

(** C1 fails on the code.  With [iterations = 7000], a 7 by 7 grid and
    the star kernel of radius 3, whose coefficients are decimals rounded
    to twelve digits, the norm differs from [2 * (iterations + 1) = 14002]
    by more than 1e-8: the driver reports the error and returns 1, in
    exact arithmetic and in binary64 alike. *)
Theorem star3_fails_validation (PRKVERSION : string)
    (wtime : list Stencil.op -> Qc) (wtime64 : list Stencil.op -> float) :
  let argv := ["stencil"; "7000"; "7"; "32"; "star"; "3"] in
  snd (Stencil.main (D := exact) PRKVERSION 46340 wtime 7002 argv) = Exit 1
  /\ snd (Stencil.main (D := binary64) PRKVERSION 46340 wtime64 7002 argv)
     = Exit 1.
Proof.
  intros argv. split.
  - set (c := {| Stencil.iterations := 7000; Stencil.n := 7;
                 Stencil.tile_size := 7; Stencil.star := true;
                 Stencil.radius := 3 |}).
    unfold Stencil.main.
    change (Stencil.parse_args 46340 argv) with (Parsed c).
    destruct (star_run_exact wtime 7002 c eq_refl ltac:(cbn; lia)
                ltac:(cbn; lia) eq_refl ltac:(cbn; lia)
                ltac:(apply Nat.ltb_lt; vm_compute; reflexivity)
                ltac:(apply Nat.ltb_lt; vm_compute; reflexivity))
      as (st & _ & _ & Hexit).
    cbv zeta in Hexit.
    match type of Hexit with
    | _ = Exit (if ?b then _ else _) =>
        assert (Hb : b = true) by (vm_compute; reflexivity);
        rewrite Hb in Hexit
    end.
    destruct (Stencil.run wtime 7002 c) as [out status].
    exact Hexit.
  - vm_compute. reflexivity.
Qed.

(** ** Witnesses and the triad command line *)

Lemma ceil_div_is_divceil : is_divceil ceil_div.
Proof.
  intros a b Ha Hb. unfold ceil_div.
  pose proof (Z.div_mod (a + b - 1) b ltac:(lia)) as Hdm.
  pose proof (Z.mod_pos_bound (a + b - 1) b Hb) as Hmod.
  split; nia.
Qed.


Lemma unsupported_stencil_aborts_witness :
  let c := {| Stencil.iterations := 5; Stencil.n := 10;
              Stencil.tile_size := 10; Stencil.star := false;
              Stencil.radius := 3 |} in
  let wtime := fun ops : list Stencil.op =>
                 Binary64.of_Z (Z.of_nat (length ops)) in
  Stencil.select (Stencil.star c) (Stencil.radius c)
  = Stencil.nothing (F := float)
  /\ Stencil.run_kernels (D := binary64) wtime 7 c = Aborted no_such_stencil
  /\ snd (Stencil.run (D := binary64) wtime 7 c)
     = Fatal (AbortCalled no_such_stencil)
  /\ In (Text "You are trying to use a stencil that does not exist.")
        (fst (Stencil.run (D := binary64) wtime 7 c)).
Proof.
  intros c wtime.
  apply (unsupported_stencil_aborts (D := binary64) wtime 7 c);
    [left; reflexivity | subst c; cbn; lia | lia].
Defined.

Lemma other_shape_selects_star_witness :
  let argv := ["stencil"; "5"; "10"; "32"; "box"; "4"] in
  Stencil.parse_args 46340 argv
  = Stencil.parse_args 46340 (<[4%nat := "star"]> argv)
  /\ (forall c, Stencil.parse_args 46340 argv = Parsed c ->
        Stencil.star c = true
        /\ Stencil.select (D := binary64) (Stencil.star c) (Stencil.radius c)
           = Stencil.select true (Stencil.radius c))
  /\ Stencil.parse_args 46340 argv
     = Parsed {| Stencil.iterations := 5; Stencil.n := 10;
                 Stencil.tile_size := 10; Stencil.star := true;
                 Stencil.radius := 4 |}.
Proof.
  intros argv.
  destruct (other_shape_selects_star (D := binary64) 46340 argv "box")
    as (Hsame & Hstar & Haccepted); [reflexivity | discriminate |].
  split; [exact Hsame|]. split; [exact Hstar|].
  apply (Haccepted "5" "10" "32");
    first [ reflexivity | (vm_compute; split; congruence)
          | (vm_compute; congruence) ].
Defined.

(** C9 fails on the code.  With three arguments after the program name
    ([argc = 4]) the driver hands [argv[4]], the terminating null pointer,
    to [std::string]: the third argument is never parsed and the run has
    no defined outcome.  The flag is read from a fourth argument when
    there is one. *)
Theorem triad_reads_argv_4 (PRKVERSION : string)
    (parse_boolean : string -> bool) (divceil : Z -> Z -> Z)
    (wtime : list Triad.op -> float) (fuel : nat) (a3 a4 : string) :
  Triad.parse_args parse_boolean ["nstream"; "10"; "1000"; a3] = NullString
  /\ snd (Triad.main (D := binary64) PRKVERSION parse_boolean divceil wtime
            fuel ["nstream"; "10"; "1000"; a3])
     = Fatal StringFromNull
  /\ Triad.parse_args parse_boolean ["nstream"; "10"; "1000"; a3; a4]
     = Parsed {| Triad.iterations := 10; Triad.length := 1000;
                 Triad.grid_stride := parse_boolean a4 |}
  /\ Triad.parse_args parse_boolean ["nstream"; "10"; "1000"]
     = Parsed {| Triad.iterations := 10; Triad.length := 1000;
                 Triad.grid_stride := false |}.
Proof. repeat split; reflexivity. Qed.

(** ** When the star kernels validate, in exact arithmetic *)




(** For radius 3 the bound is reached at 6250 loop bodies: a run of 6249
    iterations validates in exact arithmetic, a run of 6250 does not. *)
Example star3_threshold_exact :
  (Zc (6249 + 1) * dabs (slope (star_terms 3) - Zc 2) <= dlit 1e-8%Q)%Qc
  /\ ~ (Zc (6250 + 1) * dabs (slope (star_terms 3) - Zc 2)
        <= dlit 1e-8%Q)%Qc.
Proof.
  split.
  - vm_compute. discriminate.
  - intros H. vm_compute in H. apply H. reflexivity.
Qed.

(** The two scenarios of the benchmark in binary64: the triad with 10
    iterations on 1000 elements, with either kernel, and the star
    stencil of radius 2 with 5 iterations on a 12 by 12 grid. *)
Example scenarios_binary64 (PRKVERSION : string)
    (parse_boolean : string -> bool) (wtime : list Triad.op -> float)
    (wtime' : list Stencil.op -> float) :
  snd (Triad.main (D := binary64) PRKVERSION parse_boolean ceil_div wtime
         1001 ["nstream"; "10"; "1000"]) = Exit 0
  /\ snd (Triad.run (D := binary64) ceil_div wtime 1001
            {| Triad.iterations := 10; Triad.length := 1000;
               Triad.grid_stride := true |}) = Exit 0
  /\ snd (Stencil.main (D := binary64) PRKVERSION 46340 wtime' 13
            ["stencil"; "5"; "12"; "32"; "star"; "2"]) = Exit 0.
Proof. split; [|split]; vm_compute; reflexivity. Qed.

(** * Further properties of the code *)

(** ** Loops that agree, loops that do not end *)

(** Two loops whose bodies agree on the indices they visit agree. *)
Lemma for_loop_ext {St : Type} (Inv : Z -> Prop) (continue : Z -> bool)
    (next : Z -> Z) (body body' : Z -> St -> result St) :
  (forall i, Inv i -> continue i = true -> Inv (next i)) ->
  (forall i s, Inv i -> continue i = true -> body i s = body' i s) ->
  forall (fuel : nat) (i : Z) (s : St),
    Inv i ->
    for_loop fuel i continue next body s
    = for_loop fuel i continue next body' s.
Proof.
  intros Hnext Hbody. induction fuel as [|fuel IH]; intros i s Hi.
  - reflexivity.
  - simpl. destruct (continue i) eqn:Hc; [|reflexivity].
    rewrite (Hbody i s Hi Hc). destruct (body' i s); simpl; auto.
Qed.

(** A loop whose index does not move and whose body returns never ends. *)
Lemma for_loop_stuck {St : Type} (continue : Z -> bool) (next : Z -> Z)
    (body : Z -> St -> result St) (i : Z) :
  continue i = true -> next i = i ->
  (forall s, (exists s', body i s = Ok s') \/ body i s = OutOfFuel) ->
  forall (fuel : nat) (s : St),
    for_loop fuel i continue next body s = OutOfFuel.
Proof.
  intros Hc Hn Hbody. induction fuel as [|fuel IH]; intros s.
  - reflexivity.
  - simpl. rewrite Hc, Hn.
    destruct (Hbody s) as [[s' ->]| ->]; simpl; auto.
Qed.

(** ** The triad kernels beyond the launches of the driver *)

(** X1.  A launch of the direct kernel [nstream] over [G] groups of [L]
    work items updates the cells below both [n] and the number [G * L] of
    work items, each once, and no other: with fewer work items than
    cells the tail of the array keeps its values.  ([n] is an
    [unsigned].) *)
Theorem nstream_updates_covered_cells {F : Type} {D : Double F}
    (n G L : Z) (scalar : F)
    (A B C : list F) :
  0 <= n < 2 ^ 32 ->
  0 < L -> 0 <= G -> G * L <= 2 ^ 64 ->
  Z.min (G * L) n <= Z.of_nat (length A) ->
  Z.min (G * L) n <= Z.of_nat (length B) ->
  Z.min (G * L) n <= Z.of_nat (length C) ->
  exists A',
    Triad.parallel_for (G * L) L
      (fun A item => Triad.nstream n scalar A B C item) A = Ok A'
    /\ updated (below (Z.min (G * L) n)) (triad_cell scalar B C) A A'.
Proof.
  intros Hn HL HG Hsize HA HB HC.
  destruct (parallel_for_rule
              (fun gid s => updated (below (Z.min gid n))
                              (triad_cell scalar B C) A s)
              G L (fun A item => Triad.nstream n scalar A B C item) A HL HG)
    as (A' & Hrun & HI).
  - eapply updated_ext; [|apply updated_none].
    intros k _. unfold below. symmetry. apply Z.ltb_ge. lia.
  - intros g l s Hg Hl Hs. unfold Triad.nstream. simpl.
    assert (0 <= g * L + l < G * L) by nia.
    unfold to_size_t. rewrite Z.mod_small by lia.
    destruct (Z.ltb_spec (g * L + l) n) as [Hlt|Hge].
    + destruct Hs as [Hlen Hs'].
      destruct (triad_updated scalar B C s (g * L + l)) as (s' & Hrun & Hupd);
        [lia..|].
      exists s'. split; [exact Hrun|].
      eapply updated_ext;
        [|eapply (updated_then _ _ _ A s s' (conj Hlen Hs') Hupd)].
      * intros k _. unfold below. simpl.
        destruct (Z.ltb_spec (Z.of_nat k) (Z.min (g * L + l) n));
          destruct (Z.ltb_spec (Z.of_nat k) (Z.min (g * L + l + 1) n));
          case_bool_decide; simpl; auto; lia.
      * intros k _. unfold below.
        destruct (Z.ltb_spec (Z.of_nat k) (Z.min (g * L + l) n));
          case_bool_decide; simpl; auto; lia.
    + exists s. split; [reflexivity|].
      eapply updated_ext; [|exact Hs].
      intros k _. unfold below. f_equal. lia.
  - exists A'. split; [exact Hrun | exact HI].
Qed.

Lemma nstream_updates_covered_cells_witness :
  exists A',
    Triad.parallel_for (1 * 2) 2
      (fun A item =>
         Triad.nstream (D := binary64) 5 3%float A (replicate 5 2%float)
           (replicate 5 2%float) item)
      (replicate 5 0%float) = Ok A'
    /\ updated (below (Z.min (1 * 2) 5))
         (triad_cell (D := binary64) 3%float (replicate 5 2%float)
            (replicate 5 2%float))
         (replicate 5 0%float) A'.
Proof.
  apply (nstream_updates_covered_cells (D := binary64) 5 1 2 3%float
           (replicate 5 0%float) (replicate 5 2%float) (replicate 5 2%float));
    first [reflexivity | lia | (cbn; lia)].
Defined.

(** X2.  The grid-strided kernel [nstream2] does not end when its 32-bit
    index wraps around before it reaches [n]: for a stride
    [get_local_range * get_group_range] that divides 2^32 and a work item
    whose last index below 2^32 is still below [n], the loop runs out of
    every budget. *)
Theorem nstream2_wrapped_index_never_ends {F : Type} {D : Double F}
    (fuel : nat) (n : Z) (scalar : F) (A B C : list F)
    (item : Triad.nd_item) :
  let stride := Triad.get_local_range item * Triad.get_group_range item in
  let gid := Triad.get_group item * Triad.get_local_range item
             + Triad.get_local_id item in
  0 <= gid < stride -> (stride | 2 ^ 32) ->
  2 ^ 32 - stride + gid < n < 2 ^ 32 ->
  n <= Z.of_nat (length A) -> n <= Z.of_nat (length B) ->
  n <= Z.of_nat (length C) ->
  Triad.nstream2 fuel n scalar A B C item = OutOfFuel.
Proof.
  intros stride gid Hgid Hdiv Hn HA HB HC. unfold Triad.nstream2.
  fold gid stride.
  assert (Hstride : stride <= 2 ^ 32)
    by (apply Z.divide_pos_le; [lia | exact Hdiv]).
  assert (Hloop : forall (fuel : nat) (i : Z) (A : list F),
            0 <= i < 2 ^ 32 -> i mod stride = gid ->
            n <= Z.of_nat (length A) ->
            for_loop fuel i (fun i => i <? n)
              (fun i => to_unsigned (i + stride))
              (fun i A => Triad.triad scalar A B C i) A = OutOfFuel).
  { clear fuel A HA. induction fuel as [|fuel IH]; intros i A Hi Hmod HA.
    - reflexivity.
    - simpl.
      assert (Hlt : i < n).
      { destruct Hdiv as [m Hm].
        pose proof (Z.div_mod i stride ltac:(lia)) as Hdm.
        rewrite Hmod in Hdm.
        assert (i / stride < m) by nia. nia. }
      destruct (Z.ltb_spec i n); [|lia].
      destruct (triad_updated scalar B C A i) as (A' & -> & Hlen & _);
        [lia..|].
      simpl. apply IH.
      + unfold to_unsigned. apply Z.mod_pos_bound. lia.
      + unfold to_unsigned. rewrite (Z.mod_mod_divide _ _ _ Hdiv).
        rewrite <- (Z.mul_1_l stride) at 1.
        rewrite Z.mod_add by lia. exact Hmod.
      + lia. }
  assert (Hu : to_unsigned gid = gid)
    by (unfold to_unsigned; apply Z.mod_small; lia).
  rewrite Hu. apply Hloop; [lia | apply Z.mod_small; lia | exact HA].
Qed.

Lemma nstream2_wrapped_index_never_ends_witness :
  Triad.nstream2 (D := binary64) 1000 1 3%float [0%float] [2%float]
    [2%float]
    {| Triad.get_group := 0; Triad.get_local_id := 0;
       Triad.get_local_range := 65536; Triad.get_group_range := 65536 |}
  = OutOfFuel.
Proof.
  apply (nstream2_wrapped_index_never_ends (D := binary64) 1000 1 3%float
           [0%float] [2%float] [2%float]
           {| Triad.get_group := 0; Triad.get_local_id := 0;
              Triad.get_local_range := 65536;
              Triad.get_group_range := 65536 |});
    first [ (cbn; lia) | (exists 1; reflexivity) ].
Defined.


(** ** The triad driver, from the command line to the exit code *)

(** X3.  The array the timed loop of the triad leaves does not depend on
    the flag [grid_stride]: with the direct kernel and with the
    grid-strided one, launched [iterations + 1] times over
    [divceil(length, 256) * 256] work items, every cell of the [length]
    cells holds the [iterations + 1]-fold triad step of 0, whatever the
    arithmetic of [double] is. *)
Theorem triad_loop_with_either_kernel {F : Type} {D : Double F}
    (divceil : Z -> Z -> Z) (wtime : list Triad.op -> F) (fuel : nat)
    (iterations length : Z) :
  is_divceil divceil ->
  1 <= iterations < INT_MAX -> 0 < length <= INT_MAX ->
  (Z.to_nat iterations + 1 < fuel)%nat -> (Z.to_nat length < fuel)%nat ->
  let direct := {| Triad.iterations := iterations; Triad.length := length;
                   Triad.grid_stride := false |} in
  let strided := {| Triad.iterations := iterations; Triad.length := length;
                    Triad.grid_stride := true |} in
  let bodies := Z.to_nat (iterations + 1) in
  exists st st',
    Triad.run_kernels divceil wtime fuel direct = Ok st
    /\ Triad.run_kernels divceil wtime fuel strided = Ok st'
    /\ Triad.d_A st
       = replicate (Z.to_nat length) (Nat.iter bodies triad_step (dofZ 0))
    /\ Triad.d_A st' = Triad.d_A st.
Proof.
  intros Hdiv Hit Hlen Hfuel1 Hfuel2 direct strided bodies.
  pose proof (triad_run_kernels divceil wtime Hdiv fuel direct
                ltac:(cbn; lia) Hlen Hfuel1 Hfuel2) as Hdirect.
  pose proof (triad_run_kernels divceil wtime Hdiv fuel strided
                ltac:(cbn; lia) Hlen Hfuel1 Hfuel2) as Hstrided.
  cbv zeta in Hdirect, Hstrided.
  eexists _, _. split; [exact Hdirect|]. split; [exact Hstrided|].
  cbn [Triad.d_A]. split; reflexivity.
Qed.

Lemma triad_loop_with_either_kernel_witness :
  let wtime := fun ops : list Triad.op =>
                 Binary64.of_Z (Z.of_nat (length ops)) in
  let direct := {| Triad.iterations := 3; Triad.length := 5;
                   Triad.grid_stride := false |} in
  let strided := {| Triad.iterations := 3; Triad.length := 5;
                    Triad.grid_stride := true |} in
  exists st st',
    Triad.run_kernels (D := binary64) ceil_div wtime 6 direct = Ok st
    /\ Triad.run_kernels (D := binary64) ceil_div wtime 6 strided = Ok st'
    /\ Triad.d_A st
       = replicate (Z.to_nat 5)
           (Nat.iter (Z.to_nat (3 + 1)) triad_step (Binary64.of_Z 0))
    /\ Triad.d_A st' = Triad.d_A st.
Proof.
  intros wtime direct strided.
  apply (triad_loop_with_either_kernel (D := binary64) ceil_div wtime 6 3 5
           ceil_div_is_divceil);
    first [ (unfold INT_MAX; lia) | (cbn; lia) ].
Defined.

(** The two checksums of a run, in exact arithmetic. *)
Lemma checksums_of_exact_run (divceil : Z -> Z -> Z)
    (wtime : list Triad.op -> Qc) (fuel : nat) (c : Triad.config) :
  is_divceil divceil ->
  1 <= Triad.iterations c -> 1 <= Triad.length c <= INT_MAX ->
  (Z.to_nat (Triad.iterations c) + 1 < fuel)%nat ->
  (Z.to_nat (Triad.length c) < fuel)%nat ->
  let total := Zc (8 * (Triad.iterations c + 1) * Triad.length c) in
  exists st,
    Triad.run_kernels divceil wtime fuel c = Ok st
    /\ Triad.expected_checksum fuel c = Ok total
    /\ Triad.observed_checksum fuel c (Triad.d_A st) = Ok total
    /\ (0 < total)%Qc.
Proof.
  intros Hdiv Hit Hlen Hfuel1 Hfuel2 total.
  pose proof (triad_run_kernels divceil wtime Hdiv fuel c Hit ltac:(lia)
                Hfuel1 Hfuel2) as Hrun.
  cbv zeta in Hrun.
  pose proof (expected_checksum_spec (D := exact) fuel c ltac:(lia) Hfuel1)
    as Hexp.
  set (bodies := Z.to_nat (Triad.iterations c + 1)) in *.
  set (len := Z.to_nat (Triad.length c)) in *.
  change (@dofZ Qc exact 0) with (Zc 0) in *.
  rewrite iter_triad_step in Hrun, Hexp.
  set (v := Zc (8 * Z.of_nat bodies)) in *.
  assert (Hv : (0 <= v)%Qc).
  { change 0%Qc with (Zc 0). apply (proj1 (Zc_le 0 (8 * Z.of_nat bodies))).
    lia. }
  assert (Htotal : total = (v * Zc (Triad.length c))%Qc).
  { unfold total, v. rewrite <- Zc_mul. f_equal. unfold bodies. lia. }
  exists {| Triad.d_A := replicate len v;
            Triad.nstream_time :=
              dsub (wtime (replicate bodies (submission c)))
                   (wtime [submission c]);
            Triad.submitted := replicate bodies (submission c) |}.
  split; [exact Hrun|]. split; [rewrite Hexp, Htotal; reflexivity|].
  cbn [Triad.d_A]. split.
  - rewrite (observed_checksum_spec (D := exact) fuel c (replicate len v))
      by (rewrite ?length_replicate; unfold len; lia).
    f_equal. rewrite sum_abs_Qc_sum.
    replace (dabs <$> replicate len v)
      with ((fun _ : unit => v) <$> replicate len ()).
    + rewrite Qc_sum_const, length_replicate, Htotal. unfold len.
      rewrite Z2Nat.id by lia. ring.
    + rewrite !fmap_replicate. f_equal. symmetry. apply dabs_nonneg.
      exact Hv.
  - change 0%Qc with (Zc 0).
    apply (proj1 (Zc_lt 0 (8 * (Triad.iterations c + 1) * Triad.length c))).
    nia.
Qed.

(** X4.  In exact arithmetic the triad validates on every command line
    it accepts whose arguments fit an [int] and whose number of iterations
    is below [INT_MAX] (so that the loop counter does not overflow): the
    observed checksum is the expected one, [8 * (iterations + 1) * length],
    with either kernel, and [main] prints "Solution validates" and
    returns 0. *)
Theorem triad_main_validates_exact (PRKVERSION : string)
    (parse_boolean : string -> bool) (divceil : Z -> Z -> Z)
    (wtime : list Triad.op -> Qc) (fuel : nat) (argv : list string)
    (c : Triad.config) :
  is_divceil divceil ->
  (forall k s, argv !! k = Some s -> - 2 ^ 31 <= atoi s < 2 ^ 31) ->
  Triad.parse_args parse_boolean argv = Parsed c ->
  Triad.iterations c < INT_MAX ->
  (Z.to_nat (Triad.iterations c) + 1 < fuel)%nat ->
  (Z.to_nat (Triad.length c) < fuel)%nat ->
  let total := Zc (8 * (Triad.iterations c + 1) * Triad.length c) in
  let outcome := Triad.main PRKVERSION parse_boolean divceil wtime fuel argv in
  snd outcome = Exit 0
  /\ In (Text "Solution validates") (fst outcome)
  /\ Triad.expected_checksum fuel c = Ok total
  /\ exists st,
       Triad.run_kernels divceil wtime fuel c = Ok st
       /\ Triad.observed_checksum fuel c (Triad.d_A st) = Ok total.
Proof.
  intros Hdiv Hint Hparse Hit Hfuel1 Hfuel2 total outcome.
  assert (Hc : 1 <= Triad.iterations c /\ 1 <= Triad.length c <= INT_MAX).
  { unfold Triad.parse_args in Hparse.
    destruct (argc argv <? 3); [discriminate|].
    destruct (arg_string argv 1) as [|a1| |]; try discriminate.
    cbn [mbind parsed_bind] in Hparse.
    destruct (Z.ltb_spec (atoi a1) 1); [discriminate|].
    destruct (arg_string argv 2) as [|a2| |] eqn:H2; try discriminate.
    apply arg_string_Parsed in H2. pose proof (Hint _ _ H2) as Ha2.
    cbn [mbind parsed_bind] in Hparse.
    destruct (Z.leb_spec (atoi a2) 0); [discriminate|].
    destruct (argc argv >? 3);
      [destruct (arg_string argv 4); try discriminate|];
      cbn [mbind parsed_bind] in Hparse; injection Hparse as <-;
      cbn; unfold INT_MAX; lia. }
  destruct (checksums_of_exact_run divceil wtime fuel c Hdiv (proj1 Hc)
              (proj2 Hc) Hfuel1 Hfuel2)
    as (st & Hrun & Hexp & Hobs & Hpos).
  fold total in Hexp, Hobs, Hpos.
  assert (Hval : forall time,
            exists rate avg,
              Triad.validate c total total time
              = ([ Text "Solution validates"; Value "Rate (MB/s): " rate;
                   Value " Avg time (s): " avg ], 0)).
  { intros time. unfold Triad.validate.
    assert (Hno : dgt (ddiv (dabs (dsub total total)) total) Triad.epsilon
                  = false).
    { apply dgt_false. exact_ops.
      replace (total - total)%Qc with 0%Qc by ring.
      rewrite dabs_nonneg by apply Qcle_refl.
      replace (0 / total)%Qc with 0%Qc
        by (field; apply Qclt_not_eq in Hpos; auto).
      unfold Triad.epsilon. vm_compute. discriminate. }
    rewrite Hno. eauto. }
  assert (Hmain : outcome
                  = let '(out, st) := Triad.run divceil wtime fuel c in
                    (Triad.banner PRKVERSION ++ out, st)).
  { unfold outcome, Triad.main. rewrite Hparse. reflexivity. }
  unfold Triad.run in Hmain. rewrite Hrun, Hexp in Hmain.
  cbn [mbind result_bind] in Hmain. rewrite Hobs in Hmain.
  cbn [mbind result_bind finish] in Hmain.
  destruct (Hval (Triad.nstream_time st)) as (rate & avg & Hv).
  rewrite Hv in Hmain. rewrite Hmain.
  split; [reflexivity|]. split.
  - cbn [fst]. apply in_or_app. right. apply in_or_app. right.
    left. reflexivity.
  - split; [exact Hexp|]. exists st. split; [exact Hrun | exact Hobs].
Qed.

Lemma triad_main_validates_exact_witness :
  let argv := ["nstream"; "3"; "5"; "unused"; "1"] in
  let parse_boolean := fun s : string => String.eqb s "1" in
  let wtime := fun ops : list Triad.op => Zc (Z.of_nat (length ops)) in
  let c := {| Triad.iterations := 3; Triad.length := 5;
              Triad.grid_stride := true |} in
  let outcome := Triad.main "2.16" parse_boolean ceil_div wtime 6 argv in
  snd outcome = Exit 0
  /\ In (Text "Solution validates") (fst outcome)
  /\ Triad.expected_checksum 6 c = Ok (Zc (8 * (3 + 1) * 5))
  /\ exists st,
       Triad.run_kernels ceil_div wtime 6 c = Ok st
       /\ Triad.observed_checksum 6 c (Triad.d_A st)
          = Ok (Zc (8 * (3 + 1) * 5)).
Proof.
  intros argv parse_boolean wtime c.
  apply (triad_main_validates_exact "2.16" parse_boolean ceil_div wtime 6
           argv c ceil_div_is_divceil);
    first [ reflexivity | (cbn; unfold INT_MAX; lia) | idtac ].
  intros k s Hk.
  do 5 (destruct k as [|k];
        [injection Hk as <-; vm_compute; split; congruence|]).
  discriminate Hk.
Defined.

(** ** The command line of the stencil driver *)

(** X5.  What the stencil driver accepts.  For arguments that fit an
    [int] and a matrix size limit below 2^32, an accepted command line
    gives [iterations >= 1], a grid dimension within [1 .. limit], and a
    radius with [1 <= radius] and [2 * radius + 1 <= n]: the unsigned
    comparisons reject a negative radius.  A tile size outside [1 .. n]
    (zero and negative included) is replaced by [n]; an absent one is 32,
    even on a smaller grid; the shape defaults to star and the radius to
    2.  The number of interior points, by which the norm is divided, is
    [(n - 2 * radius)^2] and is not zero. *)
Theorem stencil_accepted_configuration (get_max_matrix_size : Z)
    (argv : list string) (c : Stencil.config) :
  0 <= get_max_matrix_size < 2 ^ 32 ->
  (forall k s, argv !! k = Some s -> - 2 ^ 31 <= atoi s < 2 ^ 31) ->
  Stencil.parse_args get_max_matrix_size argv = Parsed c ->
  (exists a1 a2,
     argv !! 1%nat = Some a1 /\ argv !! 2%nat = Some a2
     /\ Stencil.iterations c = atoi a1 /\ Stencil.n c = atoi a2)
  /\ 1 <= Stencil.iterations c
  /\ 1 <= Stencil.n c <= get_max_matrix_size
  /\ 1 <= Stencil.radius c
  /\ 2 * Stencil.radius c + 1 <= Stencil.n c
  /\ Stencil.tile_size c
     = match argv !! 3%nat with
       | Some a3 => if (1 <=? atoi a3) && (atoi a3 <=? Stencil.n c)
                    then atoi a3 else Stencil.n c
       | None => 32
       end
  /\ Stencil.star c
     = match argv !! 4%nat with
       | Some shape => negb (String.eqb shape "grid")
       | None => true
       end
  /\ Stencil.radius c
     = match argv !! 5%nat with Some a5 => atoi a5 | None => 2 end
  /\ Stencil.active_points c
     = (Stencil.n c - 2 * Stencil.radius c)
       * (Stencil.n c - 2 * Stencil.radius c)
  /\ 0 < Stencil.active_points c.
Proof.
  intros Hmax Hint Hparse. unfold Stencil.parse_args in Hparse.
  destruct (argc argv <? 3); [discriminate|].
  destruct (arg_string argv 1) as [|a1| |] eqn:H1; try discriminate.
  apply arg_string_Parsed in H1. cbn [mbind parsed_bind] in Hparse.
  destruct (Z.ltb_spec (atoi a1) 1) as [|Hit]; [discriminate|].
  destruct (arg_string argv 2) as [|a2| |] eqn:H2; try discriminate.
  apply arg_string_Parsed in H2. cbn [mbind parsed_bind] in Hparse.
  pose proof (Hint _ _ H2) as Ha2.
  rewrite (to_size_t_int _ Ha2) in Hparse.
  set (n := if atoi a2 <? 0 then atoi a2 + 2 ^ 64 else atoi a2) in *.
  destruct (Z.ltb_spec n 1) as [|Hn1]; [discriminate|].
  destruct (Z.gtb_spec n get_max_matrix_size) as [|Hn2]; [discriminate|].
  assert (Hn : n = atoi a2).
  { unfold n in *. destruct (Z.ltb_spec (atoi a2) 0); lia. }
  clearbody n.
  destruct (argc argv >? 3) eqn:Hc3;
    [ destruct (arg_string argv 3) as [|a3| |] eqn:H3; try discriminate;
      apply arg_string_Parsed in H3; pose proof (Hint _ _ H3) as Ha3;
      cbn [mbind parsed_bind] in Hparse;
      rewrite (to_size_t_int _ Ha3) in Hparse
    | apply (arg_string_absent argv 3%nat) in Hc3 as H3 ];
    cbn [mbind parsed_bind] in Hparse;
    (destruct (argc argv >? 4) eqn:Hc4;
     [ destruct (arg_string argv 4) as [|a4| |] eqn:H4; try discriminate;
       apply arg_string_Parsed in H4
     | apply (arg_string_absent argv 4%nat) in Hc4 as H4 ]);
    cbn [mbind parsed_bind] in Hparse;
    (destruct (argc argv >? 5) eqn:Hc5;
     [ destruct (arg_string argv 5) as [|a5| |] eqn:H5; try discriminate;
       apply arg_string_Parsed in H5; pose proof (Hint _ _ H5) as Ha5;
       cbn [mbind parsed_bind] in Hparse;
       rewrite (to_size_t_int _ Ha5) in Hparse
     | apply (arg_string_absent argv 5%nat) in Hc5 as H5 ]);
    cbn [mbind parsed_bind] in Hparse;
    match type of Hparse with
    | (if ?b then _ else _) = _ =>
        destruct b eqn:Hrad; [discriminate|]
    end;
    injection Hparse as <-;
    cbn [Stencil.iterations Stencil.n Stencil.tile_size Stencil.star
         Stencil.radius];
    unfold Stencil.active_points;
    cbn [Stencil.iterations Stencil.n Stencil.tile_size Stencil.star
         Stencil.radius];
    rewrite H1, H2, H3, H4, H5;
    apply orb_false_iff in Hrad as [Hr1 Hr2];
    apply Z.ltb_ge in Hr1.
  all: try (destruct (Z.ltb_spec (atoi a5) 0) as [Hneg|Hpos];
            [ exfalso; revert Hr2; unfold to_size_t;
              replace (2 * (atoi a5 + 2 ^ 64) + 1)
                with (2 * atoi a5 + 1 + 2 ^ 64 + 1 * 2 ^ 64) by lia;
              rewrite Z.mod_add, Z.mod_small by lia;
              destruct (Z.gtb_spec (2 * atoi a5 + 1 + 2 ^ 64) n);
                [discriminate | lia]
            | ]).
  all: unfold to_size_t in Hr2; rewrite Z.mod_small in Hr2 by lia;
    match type of Hr2 with
    | (?x >? ?m) = false =>
        destruct (Z.gtb_spec x m) as [|Hr2']; [discriminate|]
    end.
  all: unfold to_size_t; rewrite !(Z.mod_small (_ - _)) by lia;
    rewrite Z.mod_small by nia.
  all: (split; [exists a1, a2; auto|]).
  all: repeat match goal with
         | |- context [?a <? ?b] => destruct (Z.ltb_spec a b); lazy iota
         | |- context [?a <=? ?b] => destruct (Z.leb_spec a b); lazy iota
         | |- context [?a >? ?b] => destruct (Z.gtb_spec a b); lazy iota
         end; cbn [andb]; try lia.
  all: repeat split; try lia; try nia.
  all: destruct (String.eqb a4 "grid"); reflexivity.
Qed.

Lemma stencil_accepted_configuration_witness :
  let argv := ["stencil"; "10"; "100"; "-3"; "box"; "4"] in
  let c := {| Stencil.iterations := 10; Stencil.n := 100;
              Stencil.tile_size := 100; Stencil.star := true;
              Stencil.radius := 4 |} in
  (exists a1 a2,
     argv !! 1%nat = Some a1 /\ argv !! 2%nat = Some a2
     /\ Stencil.iterations c = atoi a1 /\ Stencil.n c = atoi a2)
  /\ 1 <= Stencil.iterations c
  /\ 1 <= Stencil.n c <= 46340
  /\ 1 <= Stencil.radius c
  /\ 2 * Stencil.radius c + 1 <= Stencil.n c
  /\ Stencil.tile_size c
     = match argv !! 3%nat with
       | Some a3 => if (1 <=? atoi a3) && (atoi a3 <=? Stencil.n c)
                    then atoi a3 else Stencil.n c
       | None => 32
       end
  /\ Stencil.star c
     = match argv !! 4%nat with
       | Some shape => negb (String.eqb shape "grid")
       | None => true
       end
  /\ Stencil.radius c
     = match argv !! 5%nat with Some a5 => atoi a5 | None => 2 end
  /\ Stencil.active_points c
     = (Stencil.n c - 2 * Stencil.radius c)
       * (Stencil.n c - 2 * Stencil.radius c)
  /\ 0 < Stencil.active_points c.
Proof.
  intros argv c.
  apply (stencil_accepted_configuration 46340 argv c);
    [lia | | reflexivity].
  intros k s Hk.
  do 6 (destruct k as [|k];
        [injection Hk as <-; vm_compute; split; congruence|]).
  discriminate Hk.
Defined.

(** X6.  The grid dimension is read into a [size_t]: after a valid
    number of iterations, a negative argument (one that fits an [int])
    wraps to a huge value and is refused as too large, not as not
    positive; only 0 gets the message about positivity. *)
Theorem nonpositive_dimension_messages (get_max_matrix_size : Z)
    (argv : list string) (a1 a2 : string) :
  argv !! 1%nat = Some a1 -> argv !! 2%nat = Some a2 ->
  1 <= atoi a1 < 2 ^ 31 -> - 2 ^ 31 <= atoi a2 <= 0 ->
  0 <= get_max_matrix_size < 2 ^ 63 ->
  Stencil.parse_args get_max_matrix_size argv
  = Usage (if atoi a2 =? 0
           then "ERROR: grid dimension must be positive"
           else "ERROR: grid dimension too large - overflow risk").
Proof.
  intros H1 H2 Hit Hn Hmax. unfold Stencil.parse_args.
  assert (Hargc : (argc argv <? 3) = false).
  { apply Z.ltb_ge. unfold argc. apply lookup_lt_Some in H2. lia. }
  rewrite Hargc, (proj2 (arg_string_Parsed argv 1 a1) H1).
  cbn [mbind parsed_bind].
  destruct (Z.ltb_spec (atoi a1) 1); [lia|].
  rewrite (proj2 (arg_string_Parsed argv 2 a2) H2).
  cbn [mbind parsed_bind].
  rewrite (to_size_t_int (atoi a2)) by lia.
  destruct (Z.eqb_spec (atoi a2) 0) as [->|Hne]; [reflexivity|].
  destruct (Z.ltb_spec (atoi a2) 0); [|lia].
  destruct (Z.ltb_spec (atoi a2 + 2 ^ 64) 1); [lia|].
  destruct (Z.gtb_spec (atoi a2 + 2 ^ 64) get_max_matrix_size);
    [reflexivity | lia].
Qed.

Lemma nonpositive_dimension_messages_witness :
  Stencil.parse_args 46340 ["stencil"; "10"; "-100"]
  = Usage (if atoi "-100" =? 0
           then "ERROR: grid dimension must be positive"
           else "ERROR: grid dimension too large - overflow risk").
Proof.
  apply (nonpositive_dimension_messages 46340 ["stencil"; "10"; "-100"]
           "10" "-100");
    first [ reflexivity | (vm_compute; split; congruence)
          | (vm_compute; congruence) | lia ].
Defined.

(** ** The stencil kernels: tiling *)

(** Two updates of the same region of a grid by the same function agree. *)
Lemma grid_updated_unique {F : Type} (n : Z) (R : Z -> Z -> bool)
    (g : Z -> Z -> F -> F) (s0 s s' : list F) :
  0 <= n -> Z.of_nat (length s0) = n * n ->
  grid_updated n R g s0 s -> grid_updated n R g s0 s' -> s = s'.
Proof.
  intros Hn Hlen [Hl Hs] [Hl' Hs']. apply list_eq. intros k.
  destruct (decide (k < length s0)%nat) as [Hk|Hk].
  - destruct (grid_cells_cover n k Hn ltac:(lia)) as (i & j & Hi & Hj & ->).
    rewrite Hs, Hs' by assumption. reflexivity.
  - rewrite !lookup_ge_None_2 by lia. reflexivity.
Qed.

(** X7.  The tile size only fixes the order in which a kernel visits the
    interior: for each of the ten kernels, any two positive tile sizes
    (larger than the grid included) give the same output grid, in any
    arithmetic of [double]. *)
Theorem tile_size_is_immaterial {F : Type} {D : Double F}
    (star : bool) (r : Z) (k : Stencil.kernel) (ws : list Stencil.term)
    (fuel : nat) (n t t' : Z) (inp out : list F) :
  In (star, r, k, ws) kernels ->
  0 < t -> 0 < t' -> 0 <= n ->
  Z.of_nat (length inp) = n * n -> Z.of_nat (length out) = n * n ->
  (Z.to_nat n < fuel)%nat ->
  exists out',
    k fuel n t inp out = Ok out' /\ k fuel n t' inp out = Ok out'.
Proof.
  intros Hk Ht Ht' Hn Hinp Hout Hfuel.
  apply kernels_generated in Hk as (-> & Hr & Hfit).
  destruct (stencil_of_spec fuel r ws n t inp out ltac:(lia) Hfit Ht Hinp Hout
              Hfuel) as (out1 & Hrun1 & Hupd1).
  destruct (stencil_of_spec fuel r ws n t' inp out ltac:(lia) Hfit Ht' Hinp
              Hout Hfuel) as (out2 & Hrun2 & Hupd2).
  exists out1. split; [exact Hrun1|]. rewrite Hrun2. f_equal.
  eapply grid_updated_unique; eauto.
Qed.

Lemma tile_size_is_immaterial_witness :
  exists out',
    Stencil.star2 (D := binary64) 8%nat 7 2
      (Stencil.initial_in 7) (Stencil.initial_out 7) = Ok out'
    /\ Stencil.star2 (D := binary64) 8%nat 7 32
         (Stencil.initial_in 7) (Stencil.initial_out 7) = Ok out'.
Proof.
  apply (tile_size_is_immaterial (D := binary64) true 2 Stencil.star2
           Stencil.star2_terms 8 7 2 32 (Stencil.initial_in 7)
           (Stencil.initial_out 7));
    first [reflexivity | lia | (right; left; reflexivity)].
Defined.

(** X8.  With a tile size of 0 a kernel does not end on a grid that has
    an interior: the tile loop makes no progress and no cell is ever
    written.  (The driver replaces a tile size of 0 by [n].) *)
Theorem zero_tile_never_ends {F : Type} {D : Double F}
    (star : bool) (r : Z) (k : Stencil.kernel) (ws : list Stencil.term)
    (fuel : nat) (n : Z) (inp out : list F) :
  In (star, r, k, ws) kernels -> 2 * r < n ->
  k fuel n 0 inp out = OutOfFuel.
Proof.
  intros Hk Hn. apply kernels_generated in Hk as (-> & Hr & _).
  unfold Stencil.stencil_of, Stencil.tiled.
  assert (Hc : (r <? n - r) = true) by (apply Z.ltb_lt; lia).
  apply for_loop_stuck; [exact Hc | lia |].
  intros s. right.
  apply for_loop_stuck; [exact Hc | lia |].
  intros s'. destruct fuel as [|fuel]; [right; reflexivity|].
  left. exists s'. simpl.
  destruct (Z.ltb_spec r (Z.min (n - r) (r + 0))); [lia | reflexivity].
Qed.

Lemma zero_tile_never_ends_witness :
  Stencil.star2 (D := binary64) 100%nat 7 0 (Stencil.initial_in 7)
    (Stencil.initial_out 7) = OutOfFuel.
Proof.
  apply (zero_tile_never_ends (D := binary64) true 2 Stencil.star2
           Stencil.star2_terms 100 7 (Stencil.initial_in 7)
           (Stencil.initial_out 7));
    [right; left; reflexivity | lia].
Defined.

(** ** The stencil kernels in exact arithmetic *)

Lemma grid_updated_fun {F : Type} (n : Z) (R : Z -> Z -> bool)
    (g g' : Z -> Z -> F -> F) (s0 s : list F) :
  (forall i j o, 0 <= i < n -> 0 <= j < n -> R i j = true ->
     g i j o = g' i j o) ->
  grid_updated n R g s0 s -> grid_updated n R g' s0 s.
Proof.
  intros Hg [Hlen Hs]. split; [exact Hlen|].
  intros i j Hi Hj. rewrite Hs by assumption.
  destruct (R i j) eqn:HR; [|reflexivity].
  destruct (s0 !! cell n i j); [|reflexivity].
  simpl. rewrite Hg by assumption. reflexivity.
Qed.

Section KernelsExact.
Local Open Scope Qc_scope.

Lemma Qc_sum_shifted (ws : list Stencil.term) (val : Stencil.term -> Qc)
    (c : Qc) :
  Qc_sum ((fun w => (val w + c) * Q2Qc (Stencil.coef w)) <$> ws)
  = Qc_sum ((fun w => val w * Q2Qc (Stencil.coef w)) <$> ws)
    + c * coef_sum ws.
Proof.
  unfold coef_sum. induction ws as [|w ws IH].
  - simpl. ring.
  - cbn [fmap list_fmap Qc_sum foldr].
    fold (Qc_sum ((fun w => (val w + c) * Q2Qc (Stencil.coef w)) <$> ws)).
    fold (Qc_sum ((fun w => val w * Q2Qc (Stencil.coef w)) <$> ws)).
    fold (Qc_sum ((fun w => Q2Qc (Stencil.coef w)) <$> ws)).
    rewrite IH. ring.
Qed.

(** X9.  In exact arithmetic each of the ten kernels is blind to a
    constant added to every input cell: the perturbation [d_in += 1] of
    the driver changes no increment of the output. *)
Theorem constant_shift_is_invisible (star : bool) (r : Z)
    (k : Stencil.kernel) (ws : list Stencil.term) (fuel : nat) (n t : Z)
    (c : Qc) (inp out : list Qc) :
  In (star, r, k, ws) (kernels (D := exact)) ->
  (0 < t)%Z -> (0 <= n)%Z ->
  Z.of_nat (length inp) = (n * n)%Z -> Z.of_nat (length out) = (n * n)%Z ->
  (Z.to_nat n < fuel)%nat ->
  exists out',
    k fuel n t inp out = Ok out'
    /\ k fuel n t ((fun x => dadd x c) <$> inp) out = Ok out'.
Proof.
  intros Hk Ht Hn Hinp Hout Hfuel.
  pose proof (coef_sum_zero star r k ws Hk) as Hzero.
  apply kernels_generated in Hk as (-> & Hr & Hfit).
  set (inp' := (fun x => dadd x c) <$> inp).
  assert (Hinp' : Z.of_nat (length inp') = (n * n)%Z)
    by (unfold inp'; rewrite length_fmap; exact Hinp).
  destruct (stencil_of_spec fuel r ws n t inp out ltac:(lia) Hfit Ht Hinp Hout
              Hfuel) as (out1 & Hrun1 & Hupd1).
  destruct (stencil_of_spec fuel r ws n t inp' out ltac:(lia) Hfit Ht Hinp'
              Hout Hfuel) as (out2 & Hrun2 & Hupd2).
  exists out1. split; [exact Hrun1|]. rewrite Hrun2. f_equal.
  apply (grid_updated_unique n (interior r n) (accumulate ws n inp) out
           out2 out1 Hn Hout); [|exact Hupd1].
  apply (grid_updated_fun n (interior r n) (accumulate ws n inp')
           (accumulate ws n inp)); [|exact Hupd2].
  intros i j o Hi Hj Hint. unfold accumulate.
  set (val := fun w : Stencil.term =>
                default 0 (inp !! cell n (i + Stencil.di w)
                                         (j + Stencil.dj w))).
  assert (Hrd : forall w, In w ws ->
            rd inp ((i + Stencil.di w) * n + (j + Stencil.dj w))%Z
            = Ok (val w)
            /\ rd inp' ((i + Stencil.di w) * n + (j + Stencil.dj w))%Z
               = Ok (val w + c)).
  { intros w Hw.
    destruct (neighbour_in_grid r n i j ws w ltac:(lia) Hint Hfit Hw)
      as [Hi' Hj'].
    destruct (lookup_lt_is_Some_2 inp
                (cell n (i + Stencil.di w) (j + Stencil.dj w))) as [x Hx].
    { unfold cell. nia. }
    unfold val. rewrite Hx. cbn [default].
    split; apply rd_Ok; (split; [nia|]);
      fold (cell n (i + Stencil.di w) (j + Stencil.dj w)).
    - exact Hx.
    - unfold inp'. rewrite list_lookup_fmap, Hx. reflexivity. }
  rewrite (weighted_sum_exact ws n inp i j val)
    by (intros w Hw; apply (Hrd w Hw)).
  rewrite (weighted_sum_exact ws n inp' i j (fun w => val w + c))
    by (intros w Hw; apply (Hrd w Hw)).
  rewrite Qc_sum_shifted, Hzero. f_equal. ring.
Qed.

Lemma constant_shift_is_invisible_witness :
  exists out',
    Stencil.star3 (D := exact) 8%nat 7 7 (Stencil.initial_in 7)
      (Stencil.initial_out 7) = Ok out'
    /\ Stencil.star3 (D := exact) 8%nat 7 7
         ((fun x => dadd x (Zc 1)) <$> Stencil.initial_in 7)
         (Stencil.initial_out 7) = Ok out'.
Proof.
  apply (constant_shift_is_invisible true 3 Stencil.star3
           Stencil.star3_terms 8 7 7 (Zc 1) (Stencil.initial_in 7)
           (Stencil.initial_out 7));
    first [reflexivity | lia | (do 2 right; left; reflexivity)].
Defined.

(** X10.  On an input field of unit slope, [in[i][j] = a + i + j], each of
    the ten kernels adds one and the same number to every interior cell,
    the sum of its coefficients weighted by their offsets; that number is
    2 up to the rounding of the decimals in the source, within 2e-12. *)
Theorem unit_slope_field_adds_slope (star : bool) (r : Z)
    (k : Stencil.kernel) (ws : list Stencil.term) (fuel : nat) (n t : Z)
    (a : Qc) (inp out : list Qc) :
  In (star, r, k, ws) (kernels (D := exact)) ->
  (0 < t)%Z ->
  Z.of_nat (length inp) = (n * n)%Z -> Z.of_nat (length out) = (n * n)%Z ->
  (Z.to_nat n < fuel)%nat ->
  (forall i j, (0 <= i < n)%Z -> (0 <= j < n)%Z ->
     inp !! cell n i j = Some (a + Zc (i + j))) ->
  dabs (slope ws - Zc 2) <= dlit 2e-12%Q
  /\ exists out',
       k fuel n t inp out = Ok out'
       /\ grid_updated n (interior r n) (fun _ _ o => o + slope ws) out out'.
Proof.
  intros Hk Ht Hinp Hout Hfuel Hfield.
  pose proof (coef_sum_zero star r k ws Hk) as Hzero.
  split.
  { revert Hk. unfold kernels. simpl.
    intros H; repeat (destruct H as [[= <- <- <- <-]|H];
                      [vm_compute; discriminate|]).
    contradiction. }
  apply kernels_generated in Hk as (-> & Hr & Hfit).
  destruct (stencil_of_spec fuel r ws n t inp out ltac:(lia) Hfit Ht Hinp Hout
              Hfuel) as (out' & Hrun & Hupd).
  exists out'. split; [exact Hrun|].
  apply (grid_updated_fun n (interior r n) (accumulate ws n inp));
    [|exact Hupd].
  intros i j o Hi Hj Hint. unfold accumulate.
  rewrite (weighted_sum_exact ws n inp i j
             (fun w => (a + Zc (i + j))
                       + Zc (Stencil.di w + Stencil.dj w))).
  - rewrite Qc_sum_affine, Hzero. exact_ops. ring.
  - intros w Hw.
    destruct (neighbour_in_grid r n i j ws w ltac:(lia) Hint Hfit Hw)
      as [Hi' Hj'].
    apply rd_Ok. split; [nia|].
    fold (cell n (i + Stencil.di w) (j + Stencil.dj w)).
    rewrite (Hfield _ _ Hi' Hj'). f_equal.
    replace (i + Stencil.di w + (j + Stencil.dj w))%Z
      with (i + j + (Stencil.di w + Stencil.dj w))%Z by lia.
    rewrite !Zc_add. ring.
Qed.

End KernelsExact.

Lemma unit_slope_field_adds_slope_witness :
  (dabs (slope Stencil.grid2_terms - Zc 2) <= dlit 2e-12%Q)%Qc
  /\ exists out',
       Stencil.grid2 (D := exact) 6%nat 5 5 (Stencil.initial_in 5)
         (Stencil.initial_out 5) = Ok out'
       /\ grid_updated 5 (interior 2 5)
            (fun _ _ o => (o + slope Stencil.grid2_terms)%Qc)
            (Stencil.initial_out 5) out'.
Proof.
  apply (unit_slope_field_adds_slope false 2 Stencil.grid2
           Stencil.grid2_terms 6 5 5 (Zc 0) (Stencil.initial_in 5)
           (Stencil.initial_out 5));
    first [reflexivity | lia | (do 6 right; left; reflexivity) | idtac].
  intros i j Hi Hj. unfold Stencil.initial_in.
  rewrite (proj2 (grid_init 5 (fun i j => dofZ (i + j)) ltac:(lia)) i j Hi Hj).
  f_equal. exact_ops. change (Zc 0) with 0%Qc. ring.
Defined.

(** ** The coefficient tables *)

Lemma tables_fit (star : bool) (r : Z) (ws : list Stencil.term) :
  In (star, r, ws) tables ->
  1 <= r <= 5 /\ fits r ws = true /\ table_ok star r ws = true
  /\ Z.of_nat (length ws) = (if star then 4 * r else 2 * r * (2 * r + 1))
  /\ NoDup (offsets ws).
Proof.
  unfold tables. simpl.
  intros H; repeat (destruct H as [[= <- <- <-]|H];
    [ split; [lia|]; split; [vm_compute; reflexivity|];
      split; [vm_compute; reflexivity|];
      split; [vm_compute; reflexivity|];
      apply (bool_decide_unpack _); vm_compute; exact I |]).
  contradiction.
Qed.

Lemma coefficient_in_box (r : Z) (ws : list Stencil.term) (a b : Z) (q : Q) :
  fits r ws = true -> coefficient ws a b = Some q ->
  - r <= a <= r /\ - r <= b <= r.
Proof.
  intros Hfit Hq. unfold coefficient in Hq.
  destruct (List.find _ ws) as [w|] eqn:Hfind; [|discriminate].
  apply find_some in Hfind as [Hw Hab].
  apply andb_true_iff in Hab as [Ha Hb].
  apply Z.eqb_eq in Ha, Hb. subst a b. apply (fits_In r ws w Hfit Hw).
Qed.

Lemma reads_in_box (star : bool) (r a b : Z) :
  reads star r a b = true -> - r <= a <= r /\ - r <= b <= r.
Proof.
  unfold reads. destruct star; region_to_prop; lia.
Qed.

Lemma table_ok_in_box (star : bool) (r : Z) (ws : list Stencil.term)
    (a b : Z) :
  table_ok star r ws = true -> - r <= a <= r -> - r <= b <= r ->
  table_ok_at star r ws a b = true.
Proof.
  unfold table_ok. rewrite forallb_forall. intros H Ha Hb.
  assert (Hin : forall x, - r <= x <= r -> In x (seqZ (- r) (2 * r + 1)))
    by (intros x Hx; apply list_elem_of_In, elem_of_seqZ; lia).
  specialize (H a (Hin a Ha)). rewrite forallb_forall in H.
  exact (H b (Hin b Hb)).
Qed.

(** X11.  The shape of the ten sums of stencil_vector.hpp.  No offset
    occurs twice.  A star kernel of radius [r] has a product exactly for
    the offsets on the two axes at distance 1 to [r], [4 r] products in
    all; a grid kernel has one exactly for the offsets of the square of
    half-width [r] that are off its anti-diagonal, [2 r (2 r + 1)] products
    in all (not [(2 r + 1)^2 - 1]).  The coefficient at the opposite
    offset is the opposite number, and a coefficient is positive exactly
    when [a + b] is. *)
Theorem coefficient_tables (star : bool) (r : Z) (ws : list Stencil.term)
    (a b : Z) :
  In (star, r, ws) tables ->
  NoDup (offsets ws)
  /\ Z.of_nat (length ws) = (if star then 4 * r else 2 * r * (2 * r + 1))
  /\ (is_Some (coefficient ws a b) <-> reads star r a b = true)
  /\ coefficient ws (- a) (- b) = Qopp <$> coefficient ws a b
  /\ forall q, coefficient ws a b = Some q -> ((0 < q)%Q <-> 0 < a + b).
Proof.
  intros Hin.
  destruct (tables_fit star r ws Hin) as (Hr & Hfit & Hok & Hlen & Hnd).
  split; [exact Hnd|]. split; [exact Hlen|].
  destruct (decide ((- r <= a <= r) /\ (- r <= b <= r))) as [[Ha Hb]|Hout].
  - pose proof (table_ok_in_box star r ws a b Hok Ha Hb) as Hat.
    unfold table_ok_at in Hat.
    destruct (coefficient ws a b) as [q|], (coefficient ws (- a) (- b))
      as [q'|]; try discriminate.
    + revert Hat. rewrite !andb_true_iff, Z.eqb_eq, Pos.eqb_eq.
      intros [[[Hreads Hnum] Hden] Hsign].
      split; [split; [intros _; exact Hreads | intros _; eauto]|].
      split.
      * destruct q as [qn qd], q' as [qn' qd']. simpl in Hnum, Hden.
        subst qn' qd'. reflexivity.
      * intros q0 [= <-]. apply Bool.eqb_prop in Hsign.
        unfold Qlt. simpl. rewrite Z.mul_1_r, Z.mul_0_l.
        rewrite <- !Z.ltb_lt, Hsign. reflexivity.
    + apply negb_true_iff in Hat.
      split; [split; [intros [? [=]] | rewrite Hat; discriminate]|].
      split; [reflexivity | intros q [=]].
  - assert (Hnone : forall a' b',
              (a' = a /\ b' = b) \/ (a' = - a /\ b' = - b) ->
              coefficient ws a' b' = None).
    { intros a' b' Hab. destruct (coefficient ws a' b') as [q|] eqn:Hq;
        [|reflexivity].
      destruct (coefficient_in_box r ws a' b' q Hfit Hq). exfalso. lia. }
    rewrite (Hnone a b), (Hnone (- a) (- b)) by auto.
    split; [split; [intros [? [=]]|]|].
    + intros Hreads. apply reads_in_box in Hreads. exfalso. lia.
    + split; [reflexivity | intros q [=]].
Qed.

Lemma coefficient_tables_witness :
  NoDup (offsets Stencil.grid2_terms)
  /\ Z.of_nat (length Stencil.grid2_terms) = 2 * 2 * (2 * 2 + 1)
  /\ (is_Some (coefficient Stencil.grid2_terms 1 (- 1))
      <-> reads false 2 1 (- 1) = true)
  /\ coefficient Stencil.grid2_terms (- 1) (- - 1)
     = Qopp <$> coefficient Stencil.grid2_terms 1 (- 1)
  /\ forall q, coefficient Stencil.grid2_terms 1 (- 1) = Some q ->
       ((0 < q)%Q <-> 0 < 1 + - 1).
Proof.
  apply (coefficient_tables false 2 Stencil.grid2_terms 1 (- 1)).
  do 6 right. left. reflexivity.
Defined.

(** ** The stencil driver: the border of the output grid *)

(** X12.  A run with a star kernel never writes the border of the output
    grid: after the [iterations + 1] loop bodies every cell within
    [radius] of an edge still holds the 0 it was initialised with, in any
    arithmetic of [double].  ([iterations] is below [INT_MAX], so that the
    loop counter does not overflow.) *)
Theorem border_stays_zero {F : Type} {D : Double F}
    (wtime : list Stencil.op -> F) (fuel : nat) (c : Stencil.config) :
  Stencil.star c = true -> 1 <= Stencil.radius c <= 5 ->
  0 < Stencil.tile_size c -> 0 <= Stencil.n c ->
  1 <= Stencil.iterations c < INT_MAX ->
  (Z.to_nat (Stencil.iterations c) + 1 < fuel)%nat ->
  (Z.to_nat (Stencil.n c) < fuel)%nat ->
  exists st,
    Stencil.run_kernels wtime fuel c = Ok st
    /\ Z.of_nat (length (Stencil.d_out st)) = Stencil.n c * Stencil.n c
    /\ forall i j, 0 <= i < Stencil.n c -> 0 <= j < Stencil.n c ->
         interior (Stencil.radius c) (Stencil.n c) i j = false ->
         Stencil.d_out st !! cell (Stencil.n c) i j = Some (dofZ 0).
Proof.
  intros Hstar Hr Ht Hn Hit Hfuel1 Hfuel2.
  destruct (stencil_loop wtime
              (fun _ _ out =>
                 forall i j, 0 <= i < Stencil.n c -> 0 <= j < Stencil.n c ->
                   interior (Stencil.radius c) (Stencil.n c) i j = false ->
                   out !! cell (Stencil.n c) i j = Some (dofZ 0))
              fuel c Hstar Hr Ht Hn (proj1 Hit) Hfuel1 Hfuel2)
    as (st & Hrun & HP & _ & Hlen & _).
  - intros i j Hi Hj _. unfold Stencil.initial_out.
    apply (proj2 (grid_init (Stencil.n c) (fun _ _ => dofZ 0) Hn)); assumption.
  - intros k inp out out' HP Hlin Hlout Hrun i j Hi Hj Hint.
    destruct (select_star (D := D) (Stencil.radius c) Hr) as (Hsel & Hfit & _).
    rewrite Hsel in Hrun.
    destruct (stencil_of_spec fuel (Stencil.radius c)
                (star_terms (Stencil.radius c)) (Stencil.n c)
                (Stencil.tile_size c) inp out ltac:(lia) Hfit Ht Hlin Hlout
                Hfuel2) as (out1 & Hrun1 & _ & Hupd).
    rewrite Hrun in Hrun1. injection Hrun1 as <-.
    rewrite (Hupd i j Hi Hj), Hint. apply HP; assumption.
  - exists st. split; [exact Hrun|]. split; [exact Hlen | exact HP].
Qed.

Lemma border_stays_zero_witness :
  let c := {| Stencil.iterations := 3; Stencil.n := 5; Stencil.tile_size := 5;
              Stencil.star := true; Stencil.radius := 2 |} in
  let wtime := fun ops : list Stencil.op =>
                 Binary64.of_Z (Z.of_nat (length ops)) in
  exists st,
    Stencil.run_kernels (D := binary64) wtime 6 c = Ok st
    /\ Z.of_nat (length (Stencil.d_out st)) = Stencil.n c * Stencil.n c
    /\ forall i j, 0 <= i < Stencil.n c -> 0 <= j < Stencil.n c ->
         interior (Stencil.radius c) (Stencil.n c) i j = false ->
         Stencil.d_out st !! cell (Stencil.n c) i j = Some (Binary64.of_Z 0).
Proof.
  intros c wtime.
  apply (border_stays_zero (D := binary64) wtime 6 c);
    first [reflexivity | (subst c; cbn; unfold INT_MAX; lia)].
Defined.

(** X13.  The norm reads the interior of the output grid only: for a
    radius and a dimension as the driver accepts them, two grids that
    agree on the interior have the same norm (or the same failure),
    whatever their borders hold. *)
Theorem norm_ignores_border {F : Type} {D : Double F} (fuel : nat)
    (c : Stencil.config) (h_out h_out' : list F) :
  1 <= Stencil.radius c -> 2 * Stencil.radius c + 1 <= Stencil.n c < 2 ^ 31 ->
  (forall i j, interior (Stencil.radius c) (Stencil.n c) i j = true ->
     h_out !! cell (Stencil.n c) i j = h_out' !! cell (Stencil.n c) i j) ->
  Stencil.l1_norm fuel c h_out = Stencil.l1_norm fuel c h_out'.
Proof.
  intros _ _ Hsame. unfold Stencil.l1_norm. f_equal.
  set (r := Stencil.radius c) in *. set (n := Stencil.n c) in *.
  apply (for_loop_ext (fun i => r <= i)); [intros; lia | | lia].
  intros i s Hi Hci. apply Z.ltb_lt in Hci.
  apply (for_loop_ext (fun j => r <= j)); [intros; lia | | lia].
  intros j s' Hj Hcj. apply Z.ltb_lt in Hcj.
  assert (Hrd : rd h_out (i * n + j) = rd h_out' (i * n + j)).
  { unfold rd. fold (cell n i j). rewrite Hsame; [reflexivity|].
    unfold interior. region. }
  rewrite Hrd. reflexivity.
Qed.

Lemma norm_ignores_border_witness :
  let c := {| Stencil.iterations := 1; Stencil.n := 3; Stencil.tile_size := 3;
              Stencil.star := true; Stencil.radius := 1 |} in
  Stencil.l1_norm (D := binary64) 4 c
    (replicate 4 1%float ++ [5%float] ++ replicate 4 1%float)
  = Stencil.l1_norm (D := binary64) 4 c
      (replicate 4 0%float ++ [5%float] ++ replicate 4 0%float).
Proof.
  intros c.
  apply (norm_ignores_border (D := binary64) 4 c);
    [subst c; cbn; lia | subst c; cbn; lia |].
  intros i j Hint. unfold interior, rect in Hint. cbn in Hint.
  revert Hint. region_to_prop. intros Hint.
  assert (Hi : i = 1) by lia. assert (Hj : j = 1) by lia. subst i j.
  reflexivity.
Defined.

(** ** The stencil validation: how long a run may be *)

Section ValidationLimits.
Local Open Scope Qc_scope.



End ValidationLimits.


(** ** The validations in binary64: a NaN passes *)

Lemma sub_nan_l (x : float) : PrimFloat.sub nan x = nan.
Proof.
  apply Prim2SF_inj. rewrite FloatAxioms.sub_spec.
  change (Prim2SF nan) with S754_nan. reflexivity.
Qed.

Lemma sub_nan_r (x : float) : PrimFloat.sub x nan = nan.
Proof.
  apply Prim2SF_inj. rewrite FloatAxioms.sub_spec.
  change (Prim2SF nan) with S754_nan.
  destruct (Prim2SF x) as [s|s| |s m e]; reflexivity.
Qed.

(** X15.  Both validations compare with [>], which is false on a NaN: in
    binary64 a triad whose observed checksum is a NaN, and a stencil whose
    norm is a NaN, are reported as validated, with exit code 0. *)
Theorem nan_passes_validation (c : Triad.config) (ar time : float)
    (c' : Stencil.config) (st : Stencil.device) :
  snd (Triad.validate (D := binary64) c ar nan time) = 0
  /\ In (Text "Solution validates")
        (fst (Triad.validate (D := binary64) c ar nan time))
  /\ snd (Stencil.validate (D := binary64) c' nan st) = 0
  /\ In (Text "Solution validates")
        (fst (Stencil.validate (D := binary64) c' nan st)).
Proof.
  unfold Triad.validate, Stencil.validate.
  cbn [dsub dabs ddiv dgt binary64].
  rewrite sub_nan_r, sub_nan_l.
  change (PrimFloat.ltb Triad.epsilon
            (PrimFloat.div (PrimFloat.abs nan) nan)) with false.
  change (PrimFloat.ltb Stencil.epsilon (PrimFloat.abs nan)) with false.
  cbv iota. cbn [fst snd].
  repeat split; left; reflexivity.
Qed.

(** ** What the two drivers read of [argv] *)

Lemma arg_string_present (argv : list string) (k : nat) :
  (Z.of_nat k < argc argv) -> exists s, arg_string argv k = Parsed s.
Proof.
  unfold argc. intros Hk.
  destruct (lookup_lt_is_Some_2 argv k ltac:(lia)) as [s Hs].
  exists s. apply arg_string_Parsed. exact Hs.
Qed.

(** X16.  The stencil driver reads [argv[k]] only after it has checked
    [argc > k]: whatever the command line, reading it ends in a usage
    error or in a configuration, never in a read of the terminating null
    pointer or beyond it. *)
Theorem stencil_command_line_is_read_safely (get_max_matrix_size : Z)
    (argv : list string) :
  Stencil.parse_args get_max_matrix_size argv <> NullString
  /\ Stencil.parse_args get_max_matrix_size argv <> ReadPastEnd.
Proof.
  assert (H : exists r, Stencil.parse_args get_max_matrix_size argv = r
                        /\ match r with
                           | Usage _ | Parsed _ => True
                           | _ => False
                           end).
  { unfold Stencil.parse_args.
    destruct (Z.ltb_spec (argc argv) 3) as [|Hargc];
      [eexists; split; [reflexivity | exact I]|].
    destruct (arg_string_present argv 1 ltac:(lia)) as [a1 ->].
    cbn [mbind parsed_bind].
    destruct (atoi a1 <? 1); [eexists; split; [reflexivity | exact I]|].
    destruct (arg_string_present argv 2 ltac:(lia)) as [a2 ->].
    cbn [mbind parsed_bind].
    destruct (to_size_t (atoi a2) <? 1);
      [eexists; split; [reflexivity | exact I]|].
    destruct (to_size_t (atoi a2) >? get_max_matrix_size);
      [eexists; split; [reflexivity | exact I]|].
    destruct (Z.gtb_spec (argc argv) 3) as [H3|H3];
      [destruct (arg_string_present argv 3 ltac:(lia)) as [a3 ->]|];
      cbn [mbind parsed_bind];
      (destruct (Z.gtb_spec (argc argv) 4) as [H4|H4];
       [destruct (arg_string_present argv 4 ltac:(lia)) as [a4 ->]|]);
      cbn [mbind parsed_bind];
      (destruct (Z.gtb_spec (argc argv) 5) as [H5|H5];
       [destruct (arg_string_present argv 5 ltac:(lia)) as [a5 ->]|]);
      cbn [mbind parsed_bind];
      match goal with
      | |- exists r, (if ?b then _ else _) = r /\ _ =>
          destruct b; (eexists; split; [reflexivity | exact I])
      end. }
  destruct H as (r & -> & Hr). destruct r; try contradiction;
    split; discriminate.
Qed.

(** X17.  The triad driver reads [argv[4]] for its flag while it checks
    [argc > 3]: for arguments that fit an [int], it runs into the
    terminating null pointer exactly on the command lines with three
    arguments whose two counts are valid, and never reads beyond it. *)
Theorem triad_null_read (parse_boolean : string -> bool)
    (argv : list string) :
  (forall k s, argv !! k = Some s -> - 2 ^ 31 <= atoi s < 2 ^ 31) ->
  Triad.parse_args parse_boolean argv <> ReadPastEnd
  /\ (Triad.parse_args parse_boolean argv = NullString
      <-> argc argv = 4
          /\ exists a1 a2, argv !! 1%nat = Some a1 /\ argv !! 2%nat = Some a2
                           /\ 1 <= atoi a1 /\ 1 <= atoi a2).
Proof.
  intros _. unfold Triad.parse_args.
  destruct (Z.ltb_spec (argc argv) 3) as [Hargc|Hargc].
  { split; [discriminate|]. split; [discriminate|]. intros [H4 _]. lia. }
  destruct (arg_string_present argv 1 ltac:(lia)) as [a1 H1].
  destruct (arg_string_present argv 2 ltac:(lia)) as [a2 H2].
  rewrite H1. cbn [mbind parsed_bind].
  apply arg_string_Parsed in H1.
  destruct (Z.ltb_spec (atoi a1) 1) as [Hit|Hit].
  { split; [discriminate|]. split; [discriminate|].
    intros (_ & b1 & b2 & Hb1 & _ & Hb & _). rewrite H1 in Hb1.
    injection Hb1 as <-. lia. }
  rewrite H2. cbn [mbind parsed_bind]. apply arg_string_Parsed in H2.
  destruct (Z.leb_spec (atoi a2) 0) as [Hlen|Hlen].
  { split; [discriminate|]. split; [discriminate|].
    intros (_ & b1 & b2 & _ & Hb2 & _ & Hb). rewrite H2 in Hb2.
    injection Hb2 as <-. lia. }
  destruct (Z.gtb_spec (argc argv) 3) as [H3|H3].
  - unfold arg_string, argv_at.
    destruct (argv !! 4%nat) as [a4|] eqn:H4.
    + cbn [mbind parsed_bind]. split; [discriminate|].
      split; [discriminate|]. intros [Hc _].
      apply lookup_lt_Some in H4. unfold argc in Hc. lia.
    + apply lookup_ge_None_1 in H4.
      assert (Hc : argc argv = 4) by (unfold argc in *; lia).
      assert (Hl : length argv = 4%nat) by (unfold argc in Hc; lia).
      rewrite Hl. cbn [Nat.eqb mbind parsed_bind].
      split; [discriminate|]. split; [|reflexivity].
      intros _. split; [exact Hc|]. exists a1, a2. repeat split; auto; lia.
  - cbn [mbind parsed_bind]. split; [discriminate|].
    split; [discriminate|]. intros [Hc _]. lia.
Qed.

Lemma triad_null_read_witness :
  let argv := ["nstream"; "10"; "1000"; "1"] in
  Triad.parse_args (fun s => String.eqb s "1") argv <> ReadPastEnd
  /\ (Triad.parse_args (fun s => String.eqb s "1") argv = NullString
      <-> argc argv = 4
          /\ exists a1 a2, argv !! 1%nat = Some a1 /\ argv !! 2%nat = Some a2
                           /\ 1 <= atoi a1 /\ 1 <= atoi a2).
Proof.
  intros argv.
  apply (triad_null_read (fun s => String.eqb s "1") argv).
  intros k s Hk.
  do 4 (destruct k as [|k];
        [injection Hk as <-; vm_compute; split; congruence|]).
  discriminate Hk.
Defined.

(** ** Witness of the validation with radius 1 and 2 *)

Lemma small_radius_validates_exact_witness :
  let c := {| Stencil.iterations := 3; Stencil.n := 5; Stencil.tile_size := 32;
              Stencil.star := true; Stencil.radius := 2 |} in
  let wtime := fun ops : list Stencil.op => Zc (Z.of_nat (length ops)) in
  exists st,
    Stencil.run_kernels wtime 6 c = Ok st
    /\ Stencil.l1_norm 6 c (Stencil.d_out st)
       = Ok (Zc (2 * (Stencil.iterations c + 1)))
    /\ snd (Stencil.run wtime 6 c) = Exit 0.
Proof.
  intros c wtime.
  apply (small_radius_validates_exact wtime 6 c);
    first [reflexivity | (subst c; cbn; unfold INT_MAX; lia)].
Defined.

(** ** The grids a star run leaves, in exact arithmetic *)

(** X19.  The two grids at the end of a run with a star kernel, in exact
    arithmetic: the input grid holds [i + j + iterations + 1] in every
    cell; the output grid holds [iterations + 1] times the kernel's
    increment in every interior cell and 0 on the border.  ([iterations]
    is below [INT_MAX], so that the loop counter does not overflow.) *)
Theorem stencil_final_grids_exact (wtime : list Stencil.op -> Qc)
    (fuel : nat) (c : Stencil.config) :
  Stencil.star c = true -> 1 <= Stencil.radius c <= 5 ->
  0 < Stencil.tile_size c -> 0 <= Stencil.n c ->
  1 <= Stencil.iterations c < INT_MAX ->
  (Z.to_nat (Stencil.iterations c) + 1 < fuel)%nat ->
  (Z.to_nat (Stencil.n c) < fuel)%nat ->
  exists st,
    Stencil.run_kernels wtime fuel c = Ok st
    /\ forall i j, 0 <= i < Stencil.n c -> 0 <= j < Stencil.n c ->
         Stencil.d_in st !! cell (Stencil.n c) i j
         = Some (Zc (i + j + (Stencil.iterations c + 1)))
         /\ Stencil.d_out st !! cell (Stencil.n c) i j
            = Some (if interior (Stencil.radius c) (Stencil.n c) i j
                    then (Zc (Stencil.iterations c + 1)
                          * slope (star_terms (Stencil.radius c)))%Qc
                    else 0%Qc).
Proof.
  intros Hstar Hr Ht Hn Hit Hfuel1 Hfuel2.
  destruct (stencil_loop wtime (grids_after c) fuel c Hstar Hr Ht Hn
              (proj1 Hit) Hfuel1 Hfuel2)
    as (st & Hrun & HP & _).
  { apply grids_after_init. exact Hn. }
  { intros k inp out out'. apply grids_after_step; assumption. }
  exists st. split; [exact Hrun|].
  intros i j Hi Hj. destruct (HP i j Hi Hj) as [Hin Hout].
  rewrite Z2Nat.id in Hin, Hout by lia.
  split; [|exact Hout].
  rewrite Hin, <- Zc_add. reflexivity.
Qed.

Lemma stencil_final_grids_exact_witness :
  let c := {| Stencil.iterations := 3; Stencil.n := 7; Stencil.tile_size := 32;
              Stencil.star := true; Stencil.radius := 3 |} in
  let wtime := fun ops : list Stencil.op => Zc (Z.of_nat (length ops)) in
  exists st,
    Stencil.run_kernels wtime 8 c = Ok st
    /\ forall i j, 0 <= i < Stencil.n c -> 0 <= j < Stencil.n c ->
         Stencil.d_in st !! cell (Stencil.n c) i j
         = Some (Zc (i + j + (Stencil.iterations c + 1)))
         /\ Stencil.d_out st !! cell (Stencil.n c) i j
            = Some (if interior (Stencil.radius c) (Stencil.n c) i j
                    then (Zc (Stencil.iterations c + 1)
                          * slope (star_terms (Stencil.radius c)))%Qc
                    else 0%Qc).
Proof.
  intros c wtime.
  apply (stencil_final_grids_exact wtime 8 c);
    first [reflexivity | (subst c; cbn; unfold INT_MAX; lia)].
Defined.
